(** * Masked GRU module (networks/rnn_module.py): model and verification

    The development embeds [GRUModule] of [src/networks/rnn_module.py]:
    its constructor, [forward] with both of its paths (the single-step
    path and the chunked multi-step path) and [init_hidden].

    Tensors are modelled the way the tensor runtime stores them: a list of
    sizes and the contiguous row-major list of the elements.  Scalars are
    kept abstract (a carrier [R] with the product [mul], the constants
    [zero] and [one] and the test [is_zero] for [== 0.0]); the algebraic
    facts a proof needs about them are explicit hypotheses.

    The two numeric primitives the module calls are not part of the
    repository.  They enter the model through what their documentation
    fixes:
    - the recurrence ([nn.GRU], time-major) treats batch columns
      independently and advances all layers of one column by one time step
      at a time; this one-step, one-column transition is the parameter
      [cell], and the output at a step is the hidden state of the top
      layer after that step.  The transition is a function of the weights,
      the input vector and the state only: it is the recurrence with
      dropout inactive (evaluation mode, or a dropout of zero).  With
      dropout active (training mode and a dropout other than zero, which
      the constructor allows for two layers or more) the primitive also
      depends on the masks it draws in each call: [gru_drop] is the
      recurrence under a draw, [gru_mode] the primitive in either mode
      and [forward_mode] the module over it;
    - the normalization ([nn.LayerNorm(hidden_dim)]) acts on each feature
      vector along the last axis on its own; this is the parameter [ln]. *)

From Stdlib Require Import List Arith Lia Bool Sorted ZArith.
Import ListNotations.

Set Implicit Arguments.

(** ** Errors and the error monad *)

(** The dimension an assertion of [forward] talks about. *)
Inductive dim_name : Type :=
| XRank        (* x.dim() == 3 *)
| InputDim     (* x.size(-1) == self.input_dim *)
| Layers       (* rnn_states.size(0) == self.num_layers *)
| HiddenDim    (* rnn_states.size(2) == self.hidden_dim *)
| BatchSize.   (* rnn_states.size(1) == x.size(1) *)

Inductive error : Type :=
| AssertionError (d : dim_name) (expected got : nat)
| IndexError
| RuntimeError.

Inductive result (A : Type) : Type :=
| Ok (a : A)
| Err (e : error).

Arguments Ok {A} a.
Arguments Err {A} e.

Definition bind {A B : Type} (c : result A) (k : A -> result B) : result B :=
  match c with
  | Ok a => k a
  | Err e => Err e
  end.

Notation "x <- c ;; k" := (bind c (fun x => k))
  (at level 61, c at next level, right associativity).
Notation "' pat <- c ;; k" := (bind c (fun x => match x with pat => k end))
  (at level 61, pat pattern, c at next level, right associativity).

Definition assert_eq (d : dim_name) (expected got : nat) : result unit :=
  if got =? expected then Ok tt else Err (AssertionError d expected got).

(** [l[i]] on a Python list. *)
Definition list_get (l : list nat) (i : nat) : result nat :=
  match nth_error l i with
  | Some v => Ok v
  | None => Err IndexError
  end.

Fixpoint list_eqb (a b : list nat) : bool :=
  match a, b with
  | [], [] => true
  | x :: a', y :: b' => (x =? y) && list_eqb a' b'
  | _, _ => false
  end.

(** [.nonzero()] on a vector of booleans: the indices holding [true]. *)
Definition nonzero (bs : list bool) : list nat :=
  map fst (filter snd (combine (seq 0 (length bs)) bs)).

(** [.squeeze()] of the [(num_true, 1)] index tensor is 0-dimensional when
    there is exactly one index and 1-dimensional otherwise. *)
Inductive squeezed : Type :=
| Dim0 (v : nat)
| Dim1 (vs : list nat).

Definition squeeze_indices (nz : list nat) : squeezed :=
  match nz with
  | [v] => Dim0 v
  | _ => Dim1 nz
  end.

Section Model.

(** ** Scalars and the external primitives *)

Variable R : Type.
Variables (zero one : R) (mul : R -> R -> R) (is_zero : R -> bool).

(** Weights of the recurrence and parameters of the normalization. *)
Variables W P : Type.
Variable cell : W -> list R -> list (list R) -> list (list R).
Variable ln : P -> list R -> list R.

(** ** Tensors *)

Record tensor : Type := mkTensor { shape : list nat; data : list R }.

Definition numel (t : tensor) : nat := fold_right Nat.mul 1 (shape t).
Definition dim (t : tensor) : nat := length (shape t).

Definition size (t : tensor) (i : nat) : result nat :=
  match nth_error (shape t) i with
  | Some n => Ok n
  | None => Err IndexError
  end.

(** A tensor is well formed when it holds as many elements as its sizes
    say; every tensor of the runtime is. *)
Definition wf (t : tensor) : Prop := length (data t) = numel t.

(** [n] consecutive chunks of [k] elements. *)
Fixpoint chunks (k n : nat) (d : list R) : list (list R) :=
  match n with
  | 0 => []
  | S n' => firstn k d :: chunks k n' (skipn k d)
  end.

(** Row-major contents seen as [a] blocks of [b] rows of [c] elements. *)
Definition unflat3 (a b c : nat) (d : list R) : list (list (list R)) :=
  map (chunks c b) (chunks (b * c) a d).

Definition flat3 (d : list (list (list R))) : list R :=
  concat (map (@concat R) d).

(** [t.view(1, -1, c)] *)
Definition view_1_infer (c : nat) (t : tensor) : result tensor :=
  if c =? 0 then Err RuntimeError
  else if numel t mod c =? 0
       then Ok (mkTensor [1; numel t / c; c] (data t))
       else Err RuntimeError.

(** [t.view(a, b)] *)
Definition view2 (a b : nat) (t : tensor) : result tensor :=
  if numel t =? a * b then Ok (mkTensor [a; b] (data t)) else Err RuntimeError.

(** [t.squeeze(0)] *)
Definition squeeze0 (t : tensor) : tensor :=
  match shape t with
  | 1 :: rest => mkTensor rest (data t)
  | _ => t
  end.

(** [t[i]] along the first axis. *)
Definition index0 (t : tensor) (i : nat) : result tensor :=
  match shape t with
  | n :: rest =>
      let k := fold_right Nat.mul 1 rest in
      if i <? n
      then Ok (mkTensor rest (firstn k (skipn (i * k) (data t))))
      else Err IndexError
  | [] => Err IndexError
  end.

(** [t[s:e]] along the first axis; a Python slice clamps its bounds. *)
Definition slice0 (t : tensor) (s e : nat) : result tensor :=
  match shape t with
  | n :: rest =>
      let k := fold_right Nat.mul 1 rest in
      let s' := Nat.min s n in
      let e' := Nat.max s' (Nat.min e n) in
      Ok (mkTensor ((e' - s') :: rest)
                   (firstn ((e' - s') * k) (skipn (s' * k) (data t))))
  | [] => Err IndexError
  end.

(** [torch.cat(ts, dim=0)] *)
Definition cat0 (ts : list tensor) : result tensor :=
  match ts with
  | [] => Err RuntimeError
  | t0 :: _ =>
      match shape t0 with
      | [] => Err RuntimeError
      | _ :: rest =>
          if forallb (fun t => match shape t with
                               | _ :: r => list_eqb r rest
                               | [] => false
                               end) ts
          then Ok (mkTensor
                     (fold_right Nat.add 0 (map (fun t => hd 0 (shape t)) ts) :: rest)
                     (concat (map data ts)))
          else Err RuntimeError
      end
  end.

(** Every element of [v] times [m]. *)
Definition scale (m : R) (v : list R) : list R := map (fun e => mul e m) v.

(** Element [(i, j, _)] of the [(l, b, k)] contents [h] times [m[j]]. *)
Definition scale_columns (l b k : nat) (h m : list R) : list R :=
  flat3 (map (fun layer => map (fun rm => scale (snd rm) (fst rm))
                               (combine layer m))
             (unflat3 l b k h)).

(** [h * m] for a mask [m] viewed as [(1, n, 1)] (lines 78 and 110),
    with the broadcasting rule of the runtime on the middle axis.  A
    state tensor of another rank is refused by the product or, after it,
    by the recurrence. *)
Definition mul_states (h m : tensor) : result tensor :=
  match shape h, shape m with
  | [l; b; k], [1; n; 1] =>
      if n =? b then
        Ok (mkTensor [l; b; k] (scale_columns l b k (data h) (data m)))
      else if n =? 1 then
        Ok (mkTensor [l; b; k] (scale (nth 0 (data m) zero) (data h)))
      else if b =? 1 then
        Ok (mkTensor [l; n; k]
              (flat3 (map (fun row => map (fun mj => scale mj row) (data m))
                          (chunks k l (data h)))))
      else Err RuntimeError
  | _, _ => Err RuntimeError
  end.

(** ** The module *)

Record GRUModule : Type := mkGRUModule {
  input_dim : nat;
  hidden_dim : nat;
  num_layers : nat;
  gru_dropout : R;          (* the dropout handed to nn.GRU *)
  gru_weights : W;          (* self.gru *)
  gru_layer_norm_params : P (* self.gru_layer_norm *)
}.

(** [GRUModule.__init__] (lines 8-44); [w] and [p] are the parameters as
    the initialisers leave them. *)
Definition init (input_dim hidden_dim num_layers : nat) (dropout : R)
    (w : W) (p : P) : GRUModule :=
  mkGRUModule input_dim hidden_dim num_layers
              (if 1 <? num_layers then dropout else zero) w p.

Variable g : GRUModule.

(** *** The recurrence primitive [self.gru] *)

(** The state of column [b]: one vector per layer. *)
Definition column (hs : list (list (list R))) (b : nat) : list (list R) :=
  map (fun layer => nth b layer []) hs.

(** The states of all columns, back in layer-major order. *)
Definition of_columns (l : nat) (cols : list (list (list R))) : list R :=
  flat3 (map (fun i => map (fun c => nth i c []) cols) (seq 0 l)).

(** One time step of all layers: the new state of each of the [b]
    columns, and these states as the new contents. *)
Definition step_columns (b : nat) (xrow h : list R) : list (list (list R)) :=
  let hs := unflat3 (num_layers g) b (hidden_dim g) h in
  map (fun xc => cell (gru_weights g) (fst xc) (column hs (snd xc)))
      (combine (chunks (input_dim g) b xrow) (seq 0 b)).

Definition gru_step (b : nat) (xrow h : list R) : list R :=
  of_columns (num_layers g) (step_columns b xrow h).

(** The output of a step: the state of the top layer. *)
Definition top_layer (b : nat) (h : list R) : list R :=
  skipn ((num_layers g - 1) * (b * hidden_dim g)) h.

Fixpoint gru_seq (b : nat) (xrows : list (list R)) (h : list R)
  : list (list R) * list R :=
  match xrows with
  | [] => ([], h)
  | xrow :: rest =>
      let h' := gru_step b xrow h in
      let '(outs, hT) := gru_seq b rest h' in
      (top_layer b h' :: outs, hT)
  end.

(** [self.gru(x, h0)] with dropout inactive: the primitive checks its
    operands' sizes.  [gru_mode], below, is the primitive in either
    mode. *)
Definition gru (x h0 : tensor) : result (tensor * tensor) :=
  match shape x, shape h0 with
  | [t; b; d], [l; b'; k] =>
      if (d =? input_dim g) && (l =? num_layers g) && (b' =? b)
         && (k =? hidden_dim g)
      then
        let '(outs, hT) := gru_seq b (chunks (b * d) t (data x)) (data h0) in
        Ok (mkTensor [t; b; k] (concat outs), mkTensor [l; b; k] hT)
      else Err RuntimeError
  | _, _ => Err RuntimeError
  end.

(** *** The normalization primitive [self.gru_layer_norm] *)

(** [n] feature vectors, each normalized on its own. *)
Definition normalize (n : nat) (d : list R) : list R :=
  concat (map (ln (gru_layer_norm_params g)) (chunks (hidden_dim g) n d)).

Definition gru_layer_norm (x : tensor) : result tensor :=
  match rev (shape x) with
  | k :: _ =>
      if k =? hidden_dim g
      then Ok (mkTensor (shape x) (normalize (numel x / k) (data x)))
      else Err RuntimeError
  | [] => Err RuntimeError
  end.

(** *** [forward] *)

(** The chunk boundaries (lines 96-101), as [has_zeros] is computed from
    the mask viewed as [(seq_len, batch_size)]:
    [(masks[1:] == 0.0).any(dim=-1).nonzero().squeeze()], each index plus
    one, between [0] and [seq_len]. *)
Definition boundaries (masks : tensor) (seq_len : nat) : result (list nat) :=
  tail_rows <- slice0 masks 1 (hd 0 (shape masks)) ;;
  let any_zero :=
    map (existsb is_zero)
        (chunks (nth 1 (shape tail_rows) 0) (hd 0 (shape tail_rows))
                (data tail_rows)) in
  let has_zeros :=
    match squeeze_indices (nonzero any_zero) with
    | Dim0 v => [v + 1]
    | Dim1 vs => map (fun idx => idx + 1) vs
    end in
  Ok ([0] ++ has_zeros ++ [seq_len]).

(** The body of the loop over the chunks (lines 104-114), for the
    indices [idxs] of [range(len(has_zeros) - 1)] still to run. *)
Fixpoint chunk_loop (x masks : tensor) (has_zeros : list nat) (idxs : list nat)
    (outputs : list tensor) (rnn_states : tensor)
  : result (list tensor * tensor) :=
  match idxs with
  | [] => Ok (outputs, rnn_states)
  | i :: idxs' =>
      start_idx <- list_get has_zeros i ;;
      end_idx <- list_get has_zeros (i + 1) ;;
      mask_row <- index0 masks start_idx ;;
      mask_view <- view_1_infer 1 mask_row ;;
      temp_states <- mul_states rnn_states mask_view ;;
      x_chunk <- slice0 x start_idx end_idx ;;
      ' (out, rnn_states') <- gru x_chunk temp_states ;;
      chunk_loop x masks has_zeros idxs' (outputs ++ [out]) rnn_states'
  end.

(** The single-step branch of [forward] (lines 76-82; evaluation,
    rollout). *)
Definition single_step_path (x rnn_states masks : tensor)
  : result (tensor * tensor) :=
  mask_view <- view_1_infer 1 masks ;;
  temp_states <- mul_states rnn_states mask_view ;;
  ' (x, rnn_states) <- gru x temp_states ;;
  y <- gru_layer_norm (squeeze0 x) ;;
  Ok (y, rnn_states).

(** The multi-step branch of [forward] (lines 84-128; training). *)
Definition multi_step_path (x rnn_states masks : tensor)
  : result (tensor * tensor) :=
  seq_len <- size x 0 ;;
  batch_size <- size x 1 ;;
  masks <- view2 seq_len batch_size masks ;;
  has_zeros <- boundaries masks seq_len ;;
  ' (outputs, rnn_states) <-
    chunk_loop x masks has_zeros (seq 0 (length has_zeros - 1)) [] rnn_states ;;
  x <- cat0 outputs ;;
  y <- gru_layer_norm x ;;
  Ok (y, rnn_states).

(** The shape assertions that open [forward] (lines 55-71); the result
    is [x], promoted to a sequence of length one when it came as a single
    step. *)
Definition check_shapes (x rnn_states : tensor) : result tensor :=
  x <- (if dim x =? 2 then
          d <- size x 1 ;;
          _ <- assert_eq InputDim (input_dim g) d ;;
          view_1_infer (input_dim g) x
        else
          _ <- assert_eq XRank 3 (dim x) ;;
          d <- size x 2 ;;
          _ <- assert_eq InputDim (input_dim g) d ;;
          Ok x) ;;
  l <- size rnn_states 0 ;;
  _ <- assert_eq Layers (num_layers g) l ;;
  k <- size rnn_states 2 ;;
  _ <- assert_eq HiddenDim (hidden_dim g) k ;;
  batch_size <- size x 1 ;;
  b <- size rnn_states 1 ;;
  _ <- assert_eq BatchSize batch_size b ;;
  Ok x.

(** [GRUModule.forward] (lines 46-128). *)
Definition forward (x rnn_states masks : tensor) : result (tensor * tensor) :=
  x <- check_shapes x rnn_states ;;
  t <- size x 0 ;;
  let is_single_step := t =? 1 in
  if is_single_step
  then single_step_path x rnn_states masks
  else multi_step_path x rnn_states masks.

(** [GRUModule.init_hidden] (lines 131-136) *)
Definition init_hidden (batch_size : nat) : tensor :=
  mkTensor [num_layers g; batch_size; hidden_dim g]
           (repeat zero (num_layers g * batch_size * hidden_dim g)).

(** ** The module in training mode

    [nn.GRU] applies dropout to the outputs of every layer but the last
    when the module is in training mode, as a module is after its
    construction, and the dropout it was given is not zero; the masks are
    drawn anew in every call of the primitive.  [D] is a draw of the
    masks of one call, and [gru_drop] the recurrence of the module under
    a draw: for [b] columns, from the rows of the input and the initial
    state to the rows of the output and the final state. *)
Variable D : Type.
Variable gru_drop :
  GRUModule -> D -> nat -> list (list R) -> list R -> list (list R) * list R.

(** [self.training] and a dropout other than zero in [self.gru]. *)
Definition dropout_active (training : bool) : bool :=
  training && negb (is_zero (gru_dropout g)).

(** [self.gru(x, h0)] with dropout, under the draw [dr]: the sizes are
    checked as in [gru]. *)
Definition gru_train (dr : D) (x h0 : tensor) : result (tensor * tensor) :=
  match shape x, shape h0 with
  | [t; b; d], [l; b'; k] =>
      if (d =? input_dim g) && (l =? num_layers g) && (b' =? b)
         && (k =? hidden_dim g)
      then
        let '(outs, hT) := gru_drop g dr b (chunks (b * d) t (data x))
                                    (data h0) in
        Ok (mkTensor [t; b; k] (concat outs), mkTensor [l; b; k] hT)
      else Err RuntimeError
  | _, _ => Err RuntimeError
  end.

(** [self.gru(x, h0)] in either mode. *)
Definition gru_mode (training : bool) (dr : D) (x h0 : tensor)
  : result (tensor * tensor) :=
  if dropout_active training then gru_train dr x h0 else gru x h0.

(** [forward] (lines 46-128) over a realisation [rnn] of [self.gru]:
    [rnn s] is the call of the primitive on the rows from time step [s]
    on, the only call of the single-step path being [rnn 0]. *)
Definition single_step_path_with
    (rnn : nat -> tensor -> tensor -> result (tensor * tensor))
    (x rnn_states masks : tensor) : result (tensor * tensor) :=
  mask_view <- view_1_infer 1 masks ;;
  temp_states <- mul_states rnn_states mask_view ;;
  ' (x, rnn_states) <- rnn 0 x temp_states ;;
  y <- gru_layer_norm (squeeze0 x) ;;
  Ok (y, rnn_states).

Fixpoint chunk_loop_with
    (rnn : nat -> tensor -> tensor -> result (tensor * tensor))
    (x masks : tensor) (has_zeros : list nat) (idxs : list nat)
    (outputs : list tensor) (rnn_states : tensor)
  : result (list tensor * tensor) :=
  match idxs with
  | [] => Ok (outputs, rnn_states)
  | i :: idxs' =>
      start_idx <- list_get has_zeros i ;;
      end_idx <- list_get has_zeros (i + 1) ;;
      mask_row <- index0 masks start_idx ;;
      mask_view <- view_1_infer 1 mask_row ;;
      temp_states <- mul_states rnn_states mask_view ;;
      x_chunk <- slice0 x start_idx end_idx ;;
      ' (out, rnn_states') <- rnn start_idx x_chunk temp_states ;;
      chunk_loop_with rnn x masks has_zeros idxs' (outputs ++ [out])
                      rnn_states'
  end.

Definition multi_step_path_with
    (rnn : nat -> tensor -> tensor -> result (tensor * tensor))
    (x rnn_states masks : tensor) : result (tensor * tensor) :=
  seq_len <- size x 0 ;;
  batch_size <- size x 1 ;;
  masks <- view2 seq_len batch_size masks ;;
  has_zeros <- boundaries masks seq_len ;;
  ' (outputs, rnn_states) <-
    chunk_loop_with rnn x masks has_zeros (seq 0 (length has_zeros - 1)) []
                    rnn_states ;;
  x <- cat0 outputs ;;
  y <- gru_layer_norm x ;;
  Ok (y, rnn_states).

Definition forward_with
    (rnn : nat -> tensor -> tensor -> result (tensor * tensor))
    (x rnn_states masks : tensor) : result (tensor * tensor) :=
  x <- check_shapes x rnn_states ;;
  t <- size x 0 ;;
  let is_single_step := t =? 1 in
  if is_single_step
  then single_step_path_with rnn x rnn_states masks
  else multi_step_path_with rnn x rnn_states masks.

(** [forward] of the module in training mode or not, [d s] being the
    draw of the call of [self.gru] that starts at time step [s]. *)
Definition forward_mode (training : bool) (d : nat -> D)
    (x rnn_states masks : tensor) : result (tensor * tensor) :=
  forward_with (fun s => gru_mode training (d s)) x rnn_states masks.

(** ** Reference computations the claims compare [forward] with *)

(** Consecutive pairs of a boundary list: the half-open chunk ranges. *)
Definition pairs (bs : list nat) : list (nat * nat) := combine bs (tl bs).

(** The time steps of the range [(s, e)]. *)
Definition range_of (p : nat * nat) : list nat := seq (fst p) (snd p - fst p).

(** Chunk by chunk, in the words of the specification: mask the carried
    state by the mask row at the start of the chunk, run the recurrence
    over the chunk from the masked state, carry its ending state on. *)
Fixpoint run_chunks (x masks : tensor) (cs : list (nat * nat)) (h : tensor)
  : result (list tensor * tensor) :=
  match cs with
  | [] => Ok ([], h)
  | (s, e) :: rest =>
      mask_row <- index0 masks s ;;
      mask_view <- view_1_infer 1 mask_row ;;
      h_masked <- mul_states h mask_view ;;
      x_chunk <- slice0 x s e ;;
      ' (out, h_end) <- gru x_chunk h_masked ;;
      ' (outs, h_last) <- run_chunks x masks rest h_end ;;
      Ok (out :: outs, h_last)
  end.

(** The same on the rows of the contents, for [b] columns: [xrows] and
    [mrows] are the time steps of the input and of the mask. *)
Fixpoint run_pairs (b : nat) (xrows mrows : list (list R))
    (cs : list (nat * nat)) (h : list R) : list (list R) * list R :=
  match cs with
  | [] => ([], h)
  | (s, e) :: rest =>
      let h_masked :=
        scale_columns (num_layers g) b (hidden_dim g) h (nth s mrows []) in
      let '(out, h_end) := gru_seq b (firstn (e - s) (skipn s xrows)) h_masked in
      let '(outs, h_last) := run_pairs b xrows mrows rest h_end in
      (out ++ outs, h_last)
  end.

(** The carried state multiplied by a mask row, written element by
    element: the element [(i, j, f)] of the
    [(num_layers, b, hidden_dim)] contents [h], which lies at the
    row-major offset [(i * b + j) * hidden_dim + f], times the entry
    [m[j]] of its column, for every layer [i] and every feature [f]. *)
Definition masked_state (b : nat) (h m : list R) : list R :=
  flat_map (fun i =>
    flat_map (fun j =>
      map (fun f => mul (nth ((i * b + j) * hidden_dim g + f) h zero)
                        (nth j m zero))
          (seq 0 (hidden_dim g)))
      (seq 0 b))
    (seq 0 (num_layers g)).

(** The chunks one after the other on the rows, in the words of the
    claim: the carried state is multiplied element by element by the
    mask row at the start of the chunk, the recurrence is run over the
    rows of the chunk from that state, and the state it returns is
    carried on as it is. *)
Fixpoint run_elementwise (b : nat) (xrows mrows : list (list R))
    (cs : list (nat * nat)) (h : list R) : list (list R) * list R :=
  match cs with
  | [] => ([], h)
  | (s, e) :: rest =>
      let h_masked := masked_state b h (nth s mrows []) in
      let '(out, h_end) := gru_seq b (firstn (e - s) (skipn s xrows)) h_masked in
      let '(outs, h_last) := run_elementwise b xrows mrows rest h_end in
      (out ++ outs, h_last)
  end.

(** One time step after the other.  [run_masked sel] masks the carried
    state before a step when [sel] holds of the mask row of that step;
    the first step is always masked. *)
Fixpoint run_rest (sel : list R -> bool) (b : nat) (xrows mrows : list (list R))
    (h : list R) : list (list R) * list R :=
  match xrows, mrows with
  | xrow :: xrows', mrow :: mrows' =>
      let h_in :=
        if sel mrow
        then scale_columns (num_layers g) b (hidden_dim g) h mrow
        else h in
      let h' := gru_step b xrow h_in in
      let '(outs, hT) := run_rest sel b xrows' mrows' h' in
      (top_layer b h' :: outs, hT)
  | _, _ => ([], h)
  end.

Definition run_masked (sel : list R -> bool) (b : nat)
    (xrows mrows : list (list R)) (h : list R) : list (list R) * list R :=
  match xrows, mrows with
  | xrow :: xrows', mrow :: mrows' =>
      let h' :=
        gru_step b xrow (scale_columns (num_layers g) b (hidden_dim g) h mrow) in
      let '(outs, hT) := run_rest sel b xrows' mrows' h' in
      (top_layer b h' :: outs, hT)
  | _, _ => ([], h)
  end.

(** The single-step path invoked once per time step, the returned state
    of one call threaded into the next call, the outputs stacked:
    [for t in range(time): y[t], h = forward(x[t], h, masks[t])]. *)
Fixpoint stepwise_loop (x masks : tensor) (ts : list nat)
    (ys : list tensor) (h : tensor) : result (list tensor * tensor) :=
  match ts with
  | [] => Ok (ys, h)
  | t :: ts' =>
      x_t <- index0 x t ;;
      m_t <- index0 masks t ;;
      ' (y_t, h') <- forward x_t h m_t ;;
      stepwise_loop x masks ts' (ys ++ [y_t]) h'
  end.

(** [torch.stack(ys, dim=0)] *)
Definition stack0 (ys : list tensor) : result tensor :=
  match ys with
  | [] => Err RuntimeError
  | y0 :: _ =>
      if forallb (fun y => list_eqb (shape y) (shape y0)) ys
      then Ok (mkTensor (length ys :: shape y0) (concat (map data ys)))
      else Err RuntimeError
  end.

Definition stepwise (x rnn_states masks : tensor) : result (tensor * tensor) :=
  seq_len <- size x 0 ;;
  ' (ys, h) <- stepwise_loop x masks (seq 0 seq_len) [] rnn_states ;;
  y <- stack0 ys ;;
  Ok (y, h).

(** ** Well-formed configurations and calls *)

(** A module the primitives accept: positive sizes throughout. *)
Definition valid_config : Prop :=
  0 < input_dim g /\ 0 < hidden_dim g /\ 0 < num_layers g.

(** A sequence call with [t] time steps and [b] batch columns whose
    operands have the sizes the contract of [forward] names. *)
Definition valid_call (t b : nat) (x rnn_states masks : tensor) : Prop :=
  (shape x = [t; b; input_dim g] /\ wf x) /\
  (shape rnn_states = [num_layers g; b; hidden_dim g] /\ wf rnn_states) /\
  (shape masks = [t; b] /\ wf masks).

(** The batch size of [x], in its single-step or in its sequence form. *)
Definition batch_of (x : tensor) : nat := nth (dim x - 2) (shape x) 0.

(** The sizes the contract of [forward] fixes for [x] and [rnn_states]:
    the rank and the feature size of [x], the layers and the hidden size
    of [rnn_states], and the batch size they share. *)
Definition contract_ok (x rnn_states : tensor) : bool :=
  ((dim x =? 2) || (dim x =? 3)) &&
  (last (shape x) 0 =? input_dim g) &&
  (nth 0 (shape rnn_states) 0 =? num_layers g) &&
  (nth 2 (shape rnn_states) 0 =? hidden_dim g) &&
  (nth 1 (shape rnn_states) 0 =? batch_of x).

(** The violation of the contract a call is to report, in the order in
    which the contract lists its sizes: the rank of [x], the feature size
    of [x], the layers and the hidden size of [rnn_states], the batch
    size they share.  The result is the dimension at fault with the size
    the contract expects and the size the operand has. *)
Definition first_violation (x rnn_states : tensor)
  : option (dim_name * nat * nat) :=
  if negb ((dim x =? 2) || (dim x =? 3))
  then Some (XRank, 3, dim x)
  else if negb (last (shape x) 0 =? input_dim g)
  then Some (InputDim, input_dim g, last (shape x) 0)
  else if negb (nth 0 (shape rnn_states) 0 =? num_layers g)
  then Some (Layers, num_layers g, nth 0 (shape rnn_states) 0)
  else if negb (nth 2 (shape rnn_states) 0 =? hidden_dim g)
  then Some (HiddenDim, hidden_dim g, nth 2 (shape rnn_states) 0)
  else if negb (nth 1 (shape rnn_states) 0 =? batch_of x)
  then Some (BatchSize, batch_of x, nth 1 (shape rnn_states) 0)
  else None.

(** A mask with entries in {0.0, 1.0}. *)
Definition binary (masks : tensor) : Prop :=
  Forall (fun m => m = zero \/ m = one) (data masks).

(** Three levels of nesting with [a], [b] and [c] elements. *)
Definition shaped3 (a b c : nat) (hs : list (list (list R))) : Prop :=
  length hs = a /\
  Forall (fun layer => length layer = b /\
                       Forall (fun v => length v = c) layer) hs.

(** The [p]-th vector of [k] features of a tensor, counted along all the
    axes before the last one: [y[i, j, :]] is [feature k y (i * b + j)]. *)
Definition feature (k : nat) (y : tensor) (p : nat) : list R :=
  firstn k (skipn (p * k) (data y)).

(** The state of a column after a reset: zero in every layer. *)
Definition zero_state : list (list R) :=
  repeat (repeat zero (hidden_dim g)) (num_layers g).

(** The state of batch column [j] in a state tensor for [b] columns: the
    vector [st[l, j, :]] of every layer [l]. *)
Definition state_column (b j : nat) (st : tensor) : list (list R) :=
  column (unflat3 (num_layers g) b (hidden_dim g) (data st)) j.

(** The state carried into time step [i] of a call: the state passed in
    for [i = 0], and for a later step the state [forward] returns for the
    steps before it, [forward(x[:i], rnn_states, masks[:i])]. *)
Definition state_before (i : nat) (x rnn_states masks : tensor)
  : result tensor :=
  match i with
  | 0 => Ok rnn_states
  | S _ =>
      x_pre <- slice0 x 0 i ;;
      m_pre <- slice0 masks 0 i ;;
      ' (_, h) <- forward x_pre rnn_states m_pre ;;
      Ok h
  end.

(** The values a mask entry of zero resets: those whose product with
    zero is zero.  Every finite floating-point value is one; an infinity
    and a NaN are not (their product with zero is a NaN). *)
Definition resets (e : R) : Prop := mul e zero = zero.

(** The state of one column: a vector of [hidden_dim] per layer. *)
Definition col_ok (c : list (list R)) : Prop :=
  length c = num_layers g /\ Forall (fun v => length v = hidden_dim g) c.

End Model.

(** ** [forward] on a store

    The caller's tensors live in storage buffers, and a tensor object is
    a window on a buffer: several objects may share one buffer.  The
    operations [forward] uses are of two kinds.  [view], [squeeze],
    indexing and slicing return a new object on the buffer of their
    operand ([contiguous] returns its operand, whose elements are laid
    out in order).  The product, the recurrence, the normalization and
    the concatenation read their operands and put their result into a new
    buffer.  [forward] has no operation that writes into a buffer that
    exists, and the module object is only read. *)

Section Store.

Variable R : Type.
Variables (zero : R) (mul : R -> R -> R) (is_zero : R -> bool).
Variables W P : Type.
Variable cell : W -> list R -> list (list R) -> list (list R).
Variable ln : P -> list R -> list R.
Variable g : GRUModule R W P.

(** A tensor object: [count] elements from [offset] on in buffer [buf],
    seen with the sizes [sizes]. *)
Record tref : Type := mkRef {
  buf : nat;
  offset : nat;
  count : nat;
  sizes : list nat
}.

Definition store : Type := list (list R).

(** The tensor an object stands for in a store. *)
Definition load (s : store) (r : tref) : tensor R :=
  mkTensor (sizes r)
           (firstn (count r) (skipn (offset r) (nth (buf r) s []))).

(** Computations that may fail and may extend the store. *)
Definition st (A : Type) : Type := store -> store * result A.

Definition lift {A : Type} (c : result A) : st A := fun s => (s, c).

Definition bind_st {A B : Type} (c : st A) (k : A -> st B) : st B :=
  fun s =>
    match c s with
    | (s', Ok a) => k a s'
    | (s', Err e) => (s', Err e)
    end.

Notation "x <<- c ;; k" := (bind_st c (fun x => k))
  (at level 61, c at next level, right associativity).
Notation "' pat <<- c ;; k" :=
  (bind_st c (fun x => match x with pat => k end))
  (at level 61, pat pattern, c at next level, right associativity).

(** A new buffer for the elements of [t], and the object on it. *)
Definition alloc (t : tensor R) : st tref :=
  fun s => (s ++ [data t],
            Ok (mkRef (length s) 0 (length (data t)) (shape t))).

(** A result computed from the store as it is, put into a new buffer. *)
Definition fresh (c : store -> result (tensor R)) : st tref :=
  fun s =>
    match c s with
    | Ok t => alloc t s
    | Err e => (s, Err e)
    end.

(** *** Objects on the buffer of their operand *)

Definition rnumel (r : tref) : nat := fold_right Nat.mul 1 (sizes r).
Definition rdim (r : tref) : nat := length (sizes r).

Definition rsize (r : tref) (i : nat) : result nat :=
  match nth_error (sizes r) i with
  | Some n => Ok n
  | None => Err IndexError
  end.

Definition rview_1_infer (c : nat) (r : tref) : result tref :=
  if c =? 0 then Err RuntimeError
  else if rnumel r mod c =? 0
       then Ok (mkRef (buf r) (offset r) (count r) [1; rnumel r / c; c])
       else Err RuntimeError.

Definition rview2 (a b : nat) (r : tref) : result tref :=
  if rnumel r =? a * b
  then Ok (mkRef (buf r) (offset r) (count r) [a; b])
  else Err RuntimeError.

Definition rsqueeze0 (r : tref) : tref :=
  match sizes r with
  | 1 :: rest => mkRef (buf r) (offset r) (count r) rest
  | _ => r
  end.

Definition rindex0 (r : tref) (i : nat) : result tref :=
  match sizes r with
  | n :: rest =>
      let k := fold_right Nat.mul 1 rest in
      if i <? n
      then Ok (mkRef (buf r) (offset r + i * k)
                     (Nat.min k (count r - i * k)) rest)
      else Err IndexError
  | [] => Err IndexError
  end.

Definition rslice0 (r : tref) (s e : nat) : result tref :=
  match sizes r with
  | n :: rest =>
      let k := fold_right Nat.mul 1 rest in
      let s' := Nat.min s n in
      let e' := Nat.max s' (Nat.min e n) in
      Ok (mkRef (buf r) (offset r + s' * k)
                (Nat.min ((e' - s') * k) (count r - s' * k))
                ((e' - s') :: rest))
  | [] => Err IndexError
  end.

(** *** Results in new buffers *)

Definition mul_states_st (h m : tref) : st tref :=
  fresh (fun s => mul_states zero mul (load s h) (load s m)).

Definition gru_st (x h0 : tref) : st (tref * tref) :=
  fun s =>
    match gru cell g (load s x) (load s h0) with
    | Ok (out, hT) =>
        (out_ref <<- alloc out ;;
         h_ref <<- alloc hT ;;
         lift (Ok (out_ref, h_ref))) s
    | Err e => (s, Err e)
    end.

Definition gru_layer_norm_st (x : tref) : st tref :=
  fresh (fun s => gru_layer_norm ln g (load s x)).

Definition cat0_st (ts : list tref) : st tref :=
  fresh (fun s => cat0 (map (load s) ts)).

(** The boundaries are a list of integers read off the mask. *)
Definition boundaries_st (masks : tref) (seq_len : nat) : st (list nat) :=
  fun s => (s, boundaries is_zero (load s masks) seq_len).

(** *** [forward] *)

Definition check_shapes_st (x rnn_states : tref) : result tref :=
  x <- (if rdim x =? 2 then
          d <- rsize x 1 ;;
          _ <- assert_eq InputDim (input_dim g) d ;;
          rview_1_infer (input_dim g) x
        else
          _ <- assert_eq XRank 3 (rdim x) ;;
          d <- rsize x 2 ;;
          _ <- assert_eq InputDim (input_dim g) d ;;
          Ok x) ;;
  l <- rsize rnn_states 0 ;;
  _ <- assert_eq Layers (num_layers g) l ;;
  k <- rsize rnn_states 2 ;;
  _ <- assert_eq HiddenDim (hidden_dim g) k ;;
  batch_size <- rsize x 1 ;;
  b <- rsize rnn_states 1 ;;
  _ <- assert_eq BatchSize batch_size b ;;
  Ok x.

Definition single_step_st (x rnn_states masks : tref) : st (tref * tref) :=
  mask_view <<- lift (rview_1_infer 1 masks) ;;
  temp_states <<- mul_states_st rnn_states mask_view ;;
  ' (x, rnn_states) <<- gru_st x temp_states ;;
  y <<- gru_layer_norm_st (rsqueeze0 x) ;;
  lift (Ok (y, rnn_states)).

Fixpoint chunk_loop_st (x masks : tref) (has_zeros : list nat)
    (idxs : list nat) (outputs : list tref) (rnn_states : tref)
  : st (list tref * tref) :=
  match idxs with
  | [] => lift (Ok (outputs, rnn_states))
  | i :: idxs' =>
      start_idx <<- lift (list_get has_zeros i) ;;
      end_idx <<- lift (list_get has_zeros (i + 1)) ;;
      mask_row <<- lift (rindex0 masks start_idx) ;;
      mask_view <<- lift (rview_1_infer 1 mask_row) ;;
      temp_states <<- mul_states_st rnn_states mask_view ;;
      x_chunk <<- lift (rslice0 x start_idx end_idx) ;;
      ' (out, rnn_states') <<- gru_st x_chunk temp_states ;;
      chunk_loop_st x masks has_zeros idxs' (outputs ++ [out]) rnn_states'
  end.

Definition multi_step_st (x rnn_states masks : tref) : st (tref * tref) :=
  seq_len <<- lift (rsize x 0) ;;
  batch_size <<- lift (rsize x 1) ;;
  masks <<- lift (rview2 seq_len batch_size masks) ;;
  has_zeros <<- boundaries_st masks seq_len ;;
  ' (outputs, rnn_states) <<-
    chunk_loop_st x masks has_zeros (seq 0 (length has_zeros - 1)) []
                  rnn_states ;;
  x <<- cat0_st outputs ;;
  y <<- gru_layer_norm_st x ;;
  lift (Ok (y, rnn_states)).

Definition forward_st (x rnn_states masks : tref) : st (tref * tref) :=
  x <<- lift (check_shapes_st x rnn_states) ;;
  t <<- lift (rsize x 0) ;;
  let is_single_step := t =? 1 in
  if is_single_step
  then single_step_st x rnn_states masks
  else multi_step_st x rnn_states masks.

(** *** [forward] over a realisation of [self.gru]

    The same computations on the store, the primitive [self.gru] being
    any function [rnn] from the operands to new tensors: its two results
    are put into two new buffers. *)

Definition gru_st_with
    (rnn : tensor R -> tensor R -> result (tensor R * tensor R))
    (x h0 : tref) : st (tref * tref) :=
  fun s =>
    match rnn (load s x) (load s h0) with
    | Ok (out, hT) =>
        (out_ref <<- alloc out ;;
         h_ref <<- alloc hT ;;
         lift (Ok (out_ref, h_ref))) s
    | Err e => (s, Err e)
    end.

Definition single_step_st_with
    (rnn : nat -> tensor R -> tensor R -> result (tensor R * tensor R))
    (x rnn_states masks : tref) : st (tref * tref) :=
  mask_view <<- lift (rview_1_infer 1 masks) ;;
  temp_states <<- mul_states_st rnn_states mask_view ;;
  ' (x, rnn_states) <<- gru_st_with (rnn 0) x temp_states ;;
  y <<- gru_layer_norm_st (rsqueeze0 x) ;;
  lift (Ok (y, rnn_states)).

Fixpoint chunk_loop_st_with
    (rnn : nat -> tensor R -> tensor R -> result (tensor R * tensor R))
    (x masks : tref) (has_zeros : list nat)
    (idxs : list nat) (outputs : list tref) (rnn_states : tref)
  : st (list tref * tref) :=
  match idxs with
  | [] => lift (Ok (outputs, rnn_states))
  | i :: idxs' =>
      start_idx <<- lift (list_get has_zeros i) ;;
      end_idx <<- lift (list_get has_zeros (i + 1)) ;;
      mask_row <<- lift (rindex0 masks start_idx) ;;
      mask_view <<- lift (rview_1_infer 1 mask_row) ;;
      temp_states <<- mul_states_st rnn_states mask_view ;;
      x_chunk <<- lift (rslice0 x start_idx end_idx) ;;
      ' (out, rnn_states') <<- gru_st_with (rnn start_idx) x_chunk temp_states ;;
      chunk_loop_st_with rnn x masks has_zeros idxs' (outputs ++ [out])
                         rnn_states'
  end.

Definition multi_step_st_with
    (rnn : nat -> tensor R -> tensor R -> result (tensor R * tensor R))
    (x rnn_states masks : tref) : st (tref * tref) :=
  seq_len <<- lift (rsize x 0) ;;
  batch_size <<- lift (rsize x 1) ;;
  masks <<- lift (rview2 seq_len batch_size masks) ;;
  has_zeros <<- boundaries_st masks seq_len ;;
  ' (outputs, rnn_states) <<-
    chunk_loop_st_with rnn x masks has_zeros (seq 0 (length has_zeros - 1))
                       [] rnn_states ;;
  x <<- cat0_st outputs ;;
  y <<- gru_layer_norm_st x ;;
  lift (Ok (y, rnn_states)).

Definition forward_st_with
    (rnn : nat -> tensor R -> tensor R -> result (tensor R * tensor R))
    (x rnn_states masks : tref) : st (tref * tref) :=
  x <<- lift (check_shapes_st x rnn_states) ;;
  t <<- lift (rsize x 0) ;;
  let is_single_step := t =? 1 in
  if is_single_step
  then single_step_st_with rnn x rnn_states masks
  else multi_step_st_with rnn x rnn_states masks.

(** [forward] on the store, of the module in training mode or not, under
    the draws [d] of the dropout masks. *)
Variable D : Type.
Variable gru_drop :
  GRUModule R W P -> D -> nat -> list (list R) -> list R
  -> list (list R) * list R.

Definition forward_st_mode (training : bool) (d : nat -> D)
    (x rnn_states masks : tref) : st (tref * tref) :=
  forward_st_with (fun s => gru_mode is_zero cell g gru_drop training (d s))
                  x rnn_states masks.

(** An object of the store: its buffer exists. *)
Definition valid_ref (s : store) (r : tref) : Prop := buf r < length s.

(** [s'] is [s] with new buffers after it: every buffer of [s] is in
    [s'] at its address with its contents. *)
Definition extends (s s' : store) : Prop := exists ext, s' = s ++ ext.

(** The object [r] of the store [s] stands for the tensor [t]. *)
Definition holds (s : store) (r : tref) (t : tensor R) : Prop :=
  valid_ref s r /\ load s r = t.

Definition holds2 (s : store) (r : tref * tref) (t : tensor R * tensor R)
  : Prop :=
  holds s (fst r) (fst t) /\ holds s (snd r) (snd t).

(** Two results that fail alike or succeed with related values. *)
Definition agree {A B : Type} (rel : A -> B -> Prop)
    (ra : result A) (rb : result B) : Prop :=
  match ra, rb with
  | Ok a, Ok b => rel a b
  | Err e, Err e' => e = e'
  | _, _ => False
  end.

(** The computation [c] run in [s] only adds buffers, and returns what
    the function on tensors [p] returns. *)
Definition sim {A B : Type} (rel : store -> A -> B -> Prop) (s : store)
    (c : st A) (p : result B) : Prop :=
  extends s (fst (c s)) /\ agree (rel (fst (c s))) (snd (c s)) p.

(** What a call returns, read in the store it leaves. *)
Definition loaded (c : store * result (tref * tref))
  : result (tensor R * tensor R) :=
  match snd c with
  | Ok (y, h) => Ok (load (fst c) y, load (fst c) h)
  | Err e => Err e
  end.

End Store.

(** ** An instance to compute with

    Integer scalars, a recurrence that adds to every element of a layer
    the sum of what enters the layer (the input vector and the weight for
    the first layer, the new state of the layer below for the others),
    and a normalization that shifts every element. *)

Module ZInst.

Definition zsum (v : list Z) : Z := fold_right Z.add 0%Z v.

Fixpoint zlayers (inp : Z) (s : list (list Z)) : list (list Z) :=
  match s with
  | [] => []
  | v :: rest =>
      let v' := map (fun e => (e + inp)%Z) v in
      v' :: zlayers (zsum v') rest
  end.

Definition zcell (w : Z) (xv : list Z) (s : list (list Z)) : list (list Z) :=
  zlayers (w + zsum xv)%Z s.

Definition zln (p : Z) (v : list Z) : list Z := map (fun e => (e + p)%Z) v.

Definition zis_zero (e : Z) : bool := Z.eqb e 0.

(** Two input features, three hidden features, two layers. *)
Definition zg : GRUModule Z Z Z := init 0%Z 2 3 2 0%Z 1%Z 10%Z.

Definition zforward := forward 0%Z Z.mul zis_zero zcell zln zg.
Definition zstepwise := stepwise 0%Z Z.mul zis_zero zcell zln zg.

(** A sequence of three steps for two columns, a state, and a mask that
    resets the second column at the last step. *)
Definition zx : tensor Z :=
  mkTensor [3; 2; 2] [1; 2; 3; 4; 5; 6; 7; 8; 9; 10; 11; 12]%Z.
Definition zh : tensor Z :=
  mkTensor [2; 2; 3] [1; 1; 1; 2; 2; 2; 3; 3; 3; 4; 4; 4]%Z.
Definition zh' : tensor Z :=
  mkTensor [2; 2; 3] [5; 6; 7; 8; 9; 10; 11; 12; 13; 14; 15; 16]%Z.
Definition zmasks : tensor Z := mkTensor [3; 2] [1; 1; 1; 1; 1; 0]%Z.

(** One step for two columns, in both forms. *)
Definition zx1 : tensor Z := mkTensor [1; 2; 2] [1; 2; 3; 4]%Z.
Definition zx1_vec : tensor Z := mkTensor [2; 2] [1; 2; 3; 4]%Z.
Definition zmasks1 : tensor Z := mkTensor [1; 2] [1; 0]%Z.
Definition zmasks1_vec : tensor Z := mkTensor [2] [1; 0]%Z.

(** A state for a batch of three. *)
Definition zh_wide : tensor Z := mkTensor [2; 3; 3] (repeat 0%Z 18).

(** A mask of a single entry, for a batch of two. *)
Definition zmask_one_entry : tensor Z := mkTensor [1] [0]%Z.

(** Two steps for one column, with a mask entry that is neither zero nor
    one at the second step, and the mask of ones. *)
Definition zx2 : tensor Z := mkTensor [2; 1; 2] [1; 2; 3; 4]%Z.
Definition zh2 : tensor Z := mkTensor [2; 1; 3] [1; 1; 1; 2; 2; 2]%Z.
Definition zmasks2 : tensor Z := mkTensor [2; 1] [1; 2]%Z.
Definition zmasks2_ones : tensor Z := mkTensor [2; 1] [1; 1]%Z.

(** A store that holds the sequence, the state and the mask above in
    three buffers, and the objects on them. *)
Definition zstore : store Z := [data zx; data zh; data zmasks].
Definition zx_ref : tref := mkRef 0 0 12 [3; 2; 2].
Definition zh_ref : tref := mkRef 1 0 12 [2; 2; 3].
Definition zmasks_ref : tref := mkRef 2 0 6 [3; 2].
Definition zforward_st := forward_st 0%Z Z.mul zis_zero zcell zln zg.

(** The module with a dropout other than zero between its two layers
    (the integers have no fractions, and the value plays no part in the
    instance but for being other than zero), and a recurrence with
    dropout for it: a draw is one multiplier, zero for dropped and one
    for kept, of what a layer hands to the next. *)
Definition zg_drop : GRUModule Z Z Z := init 0%Z 2 3 2 1%Z 1%Z 10%Z.

Fixpoint zlayers_drop (dr inp : Z) (s : list (list Z)) : list (list Z) :=
  match s with
  | [] => []
  | v :: rest =>
      let v' := map (fun e => (e + inp)%Z) v in
      v' :: zlayers_drop dr (dr * zsum v')%Z rest
  end.

Definition zcell_drop (dr w : Z) (xv : list Z) (s : list (list Z))
  : list (list Z) :=
  zlayers_drop dr (w + zsum xv)%Z s.

Definition zgru_drop (g : GRUModule Z Z Z) (dr : Z) (b : nat)
    (xrows : list (list Z)) (h : list Z) : list (list Z) * list Z :=
  gru_seq (zcell_drop dr) g b xrows h.

Definition zforward_mode :=
  forward_mode 0%Z Z.mul zis_zero zcell zln zg_drop zgru_drop.
Definition zforward_st_mode :=
  forward_st_mode 0%Z Z.mul zis_zero zcell zln zg_drop zgru_drop.

(** The mask above with a trailing axis of one, as the callers pass it. *)
Definition zmasks_col : tensor Z := mkTensor [3; 2; 1] [1; 1; 1; 1; 1; 0]%Z.

(** Masks for the sequence above: with entries that are neither zero nor
    one in the first row and beside a zero, with a first row of zeros,
    and with the entries of the first column changed. *)
Definition zmasks_free : tensor Z := mkTensor [3; 2] [2; 3; 1; 1; 5; 0]%Z.
Definition zmasks_start0 : tensor Z := mkTensor [3; 2] [0; 0; 1; 1; 1; 0]%Z.
Definition zmasks_other : tensor Z := mkTensor [3; 2] [0; 1; 1; 1; 0; 0]%Z.

(** The sequence and the state above with the first column changed. *)
Definition zx_other : tensor Z :=
  mkTensor [3; 2; 2] [0; 0; 3; 4; 0; 0; 7; 8; 0; 0; 11; 12]%Z.
Definition zh_other : tensor Z :=
  mkTensor [2; 2; 3] [9; 9; 9; 2; 2; 2; 8; 8; 8; 4; 4; 4]%Z.

(** A mask of three entries, for a batch of two. *)
Definition zmasks_three : tensor Z := mkTensor [3] [1; 1; 1]%Z.

(** A sequence of no step and its mask. *)
Definition zx_empty : tensor Z := mkTensor [0; 2; 2] [].
Definition zmasks_empty : tensor Z := mkTensor [0; 2] [].

(** The elements of the state above seen with two and with four axes. *)
Definition zh_flat : tensor Z := mkTensor [2; 6] (data zh).
Definition zh_deep : tensor Z := mkTensor [2; 2; 3; 1] (data zh).

End ZInst.

(** ** An instance with values that are not finite

    Integers with the two infinities and a NaN, multiplied and added as
    floating-point numbers are: an infinity times zero is a NaN, the
    sum of the two infinities is a NaN, and a NaN absorbs.  The
    recurrence and the normalization are those of the instance above. *)

Module FInst.

Inductive fnum : Type :=
| Fin (z : Z)
| Inf (negative : bool)
| NaN.

Definition fmul (a b : fnum) : fnum :=
  match a, b with
  | NaN, _ | _, NaN => NaN
  | Fin x, Fin y => Fin (x * y)
  | Inf s, Fin y | Fin y, Inf s =>
      if (y =? 0)%Z then NaN else Inf (xorb s (y <? 0)%Z)
  | Inf s, Inf s' => Inf (xorb s s')
  end.

Definition fadd (a b : fnum) : fnum :=
  match a, b with
  | NaN, _ | _, NaN => NaN
  | Fin x, Fin y => Fin (x + y)
  | Inf s, Fin _ | Fin _, Inf s => Inf s
  | Inf s, Inf s' => if Bool.eqb s s' then Inf s else NaN
  end.

Definition fis_zero (e : fnum) : bool :=
  match e with
  | Fin z => (z =? 0)%Z
  | _ => false
  end.

Definition fsum (v : list fnum) : fnum := fold_right fadd (Fin 0) v.

Fixpoint flayers (inp : fnum) (s : list (list fnum)) : list (list fnum) :=
  match s with
  | [] => []
  | v :: rest =>
      let v' := map (fun e => fadd e inp) v in
      v' :: flayers (fsum v') rest
  end.

Definition fcell (w : fnum) (xv : list fnum) (s : list (list fnum))
  : list (list fnum) :=
  flayers (fadd w (fsum xv)) s.

Definition fln (p : fnum) (v : list fnum) : list fnum :=
  map (fun e => fadd e p) v.

(** Two input features, three hidden features, two layers. *)
Definition fg : GRUModule fnum fnum fnum :=
  init (Fin 0) 2 3 2 (Fin 0) (Fin 1) (Fin 10).

Definition fforward := forward (Fin 0) fmul fis_zero fcell fln fg.

(** One step for two columns, with a mask that resets the second column,
    a state of finite values, and the same state with an infinity in the
    second column. *)
Definition fx1 : tensor fnum :=
  mkTensor [1; 2; 2] [Fin 1; Fin 2; Fin 3; Fin 4].
Definition fmasks1 : tensor fnum := mkTensor [1; 2] [Fin 1; Fin 0].
Definition fh : tensor fnum :=
  mkTensor [2; 2; 3]
    [Fin 1; Fin 1; Fin 1; Fin 2; Fin 2; Fin 2;
     Fin 3; Fin 3; Fin 3; Fin 4; Fin 4; Fin 4].
Definition fh_inf : tensor fnum :=
  mkTensor [2; 2; 3]
    [Fin 1; Fin 1; Fin 1; Inf false; Fin 2; Fin 2;
     Fin 3; Fin 3; Fin 3; Fin 4; Fin 4; Fin 4].

End FInst.

(** * Verification *)

(** ** Lists cut into chunks *)

Section Chunks.

Variable A : Type.
Implicit Types (d : list A) (k n : nat).

Lemma firstn_plus k m d :
  firstn (k + m) d = firstn k d ++ firstn m (skipn k d).
Proof.
  revert d; induction k as [|k IH]; intros d; simpl; [reflexivity|].
  destruct d as [|a d]; simpl.
  - now rewrite firstn_nil.
  - now rewrite IH.
Qed.

Lemma chunks_length k n d : length (chunks k n d) = n.
Proof.
  revert d; induction n as [|n IH]; intros d; simpl; [reflexivity|].
  now rewrite IH.
Qed.

Lemma chunks_concat k n d : concat (chunks k n d) = firstn (n * k) d.
Proof.
  revert d; induction n as [|n IH]; intros d; simpl; [reflexivity|].
  now rewrite IH, firstn_plus.
Qed.

Lemma chunks_concat_id k n d :
  length d = n * k -> concat (chunks k n d) = d.
Proof.
  intros H. rewrite chunks_concat, <- H. apply firstn_all.
Qed.

Lemma chunks_skipn k n s d :
  skipn s (chunks k n d) = chunks k (n - s) (skipn (s * k) d).
Proof.
  revert n d; induction s as [|s IH]; intros n d; simpl.
  - now rewrite Nat.sub_0_r.
  - destruct n as [|n]; simpl; [reflexivity|].
    rewrite IH. f_equal. rewrite skipn_skipn. f_equal. lia.
Qed.

Lemma chunks_firstn k n a d :
  firstn a (chunks k n d) = chunks k (Nat.min a n) d.
Proof.
  revert n d; induction a as [|a IH]; intros n d; simpl; [reflexivity|].
  destruct n as [|n]; simpl; [reflexivity|].
  now rewrite IH.
Qed.

Lemma chunks_prefix k n m d :
  n * k <= m -> chunks k n (firstn m d) = chunks k n d.
Proof.
  revert m d; induction n as [|n IH]; intros m d H; simpl; [reflexivity|].
  simpl in H. f_equal.
  - rewrite firstn_firstn. f_equal. lia.
  - rewrite skipn_firstn_comm. apply IH. lia.
Qed.

Lemma chunks_all_length k n d :
  n * k <= length d -> Forall (fun c => length c = k) (chunks k n d).
Proof.
  revert d; induction n as [|n IH]; intros d H; simpl; constructor.
  - simpl in H. rewrite length_firstn. lia.
  - apply IH. rewrite length_skipn. simpl in H. lia.
Qed.

Lemma chunks_of_concat k (ls : list (list A)) :
  Forall (fun c => length c = k) ls ->
  chunks k (length ls) (concat ls) = ls.
Proof.
  induction 1 as [|c ls Hc _ IH]; simpl; [reflexivity|].
  f_equal.
  - rewrite firstn_app, <- Hc, firstn_all, Nat.sub_diag. simpl.
    apply app_nil_r.
  - rewrite skipn_app, <- Hc, skipn_all, Nat.sub_diag. simpl.
    now rewrite Hc.
Qed.

Lemma chunks_nth k n i d :
  i < n -> nth i (chunks k n d) [] = firstn k (skipn (i * k) d).
Proof.
  revert n d; induction i as [|i IH]; intros n d H;
    (destruct n as [|n]; [lia|]); simpl; [reflexivity|].
  rewrite IH by lia. now rewrite skipn_skipn, (Nat.add_comm k).
Qed.

Lemma concat_length_const k (ls : list (list A)) :
  Forall (fun c => length c = k) ls -> length (concat ls) = length ls * k.
Proof.
  induction 1 as [|c ls Hc _ IH]; simpl; [reflexivity|].
  rewrite length_app. lia.
Qed.

Lemma skipn_cons_nth (l : list A) (s : nat) (a : A) :
  s < length l -> skipn s l = nth s l a :: skipn (S s) l.
Proof.
  revert s; induction l as [|x l IH]; intros s H; simpl in H; [lia|].
  destruct s as [|s]; simpl; [reflexivity|].
  apply IH. lia.
Qed.

Lemma chunks_app k n1 n2 d1 d2 :
  length d1 = n1 * k ->
  chunks k (n1 + n2) (d1 ++ d2) = chunks k n1 d1 ++ chunks k n2 d2.
Proof.
  revert d1; induction n1 as [|n1 IH]; intros d1 H; simpl in *.
  - apply length_zero_iff_nil in H. now subst.
  - f_equal.
    + rewrite firstn_app. replace (k - length d1) with 0 by lia.
      simpl. apply app_nil_r.
    + rewrite skipn_app. replace (k - length d1) with 0 by lia.
      simpl. apply IH. rewrite length_skipn. lia.
Qed.

Lemma chunks_Forall (Q : A -> Prop) k n d :
  Forall Q d -> Forall (Forall Q) (chunks k n d).
Proof.
  revert d; induction n as [|n IH]; intros d H; simpl; constructor.
  - rewrite <- (firstn_skipn k d) in H. now apply Forall_app in H.
  - apply IH. rewrite <- (firstn_skipn k d) in H. now apply Forall_app in H.
Qed.

Lemma skipn_concat k (ls : list (list A)) i :
  Forall (fun c => length c = k) ls ->
  skipn (i * k) (concat ls) = concat (skipn i ls).
Proof.
  intros H. revert i. induction H as [|c ls Hc _ IH]; intros i.
  - now rewrite !skipn_nil.
  - destruct i as [|i]; [reflexivity|].
    cbn [concat skipn]. rewrite skipn_app, <- IH.
    rewrite skipn_all2 by (simpl; lia).
    cbn [app]. f_equal. simpl. lia.
Qed.

Lemma filter_none (f : A -> bool) (l : list A) :
  (forall a, In a l -> f a = false) -> filter f l = [].
Proof.
  induction l as [|x l IH]; intros H; [reflexivity|].
  cbn [filter]. rewrite (H x) by now left.
  apply IH. intros a Ha. apply H. now right.
Qed.

Lemma map_nth_seq (l : list A) (a : A) n :
  length l = n -> map (fun i => nth i l a) (seq 0 n) = l.
Proof.
  intros <-. induction l as [|x l IH]; [reflexivity|].
  cbn [length seq map nth]. f_equal.
  rewrite <- seq_shift, map_map. exact IH.
Qed.

End Chunks.

Lemma nth_chunks_concat (A : Type) k n b (ls : list (list A)) i j :
  Forall (fun c => length c = b * k) ls ->
  i < length ls -> j < b -> i * b + j < n ->
  nth (i * b + j) (chunks k n (concat ls)) []
  = nth j (chunks k b (nth i ls [])) [].
Proof.
  intros HF Hi Hj Hn. rewrite !chunks_nth by assumption.
  replace ((i * b + j) * k) with (j * k + i * (b * k)) by lia.
  rewrite <- skipn_skipn, (skipn_concat i HF).
  rewrite (skipn_cons_nth ls [] Hi). cbn [concat].
  assert (Hl : length (nth i ls []) = b * k).
  { rewrite Forall_forall in HF. apply HF, nth_In, Hi. }
  rewrite skipn_app, firstn_app, length_skipn, Hl.
  replace (j * k - b * k) with 0 by nia.
  replace (k - (b * k - j * k)) with 0 by nia.
  cbn [skipn firstn]. apply app_nil_r.
Qed.


(** ** The model: contents, masking and the recurrence *)

Section Proofs.

Variable R : Type.
Variables (zero one : R) (mul : R -> R -> R) (is_zero : R -> bool).
Variables W P : Type.
Variable cell : W -> list R -> list (list R) -> list (list R).
Variable ln : P -> list R -> list R.
Variable g : GRUModule R W P.

Local Abbreviation tensor := (tensor R).
Local Abbreviation scale := (scale mul).
Local Abbreviation scale_columns := (scale_columns mul).
Local Abbreviation mul_states := (mul_states zero mul).
Local Abbreviation step_columns := (step_columns cell g).
Local Abbreviation gru_step := (gru_step cell g).
Local Abbreviation top_layer := (top_layer g).
Local Abbreviation gru_seq := (gru_seq cell g).
Local Abbreviation gru := (gru cell g).
Local Abbreviation normalize := (normalize ln g).
Local Abbreviation gru_layer_norm := (gru_layer_norm ln g).
Local Abbreviation boundaries := (boundaries is_zero).
Local Abbreviation chunk_loop := (chunk_loop zero mul cell g).
Local Abbreviation single_step_path := (single_step_path zero mul cell ln g).
Local Abbreviation multi_step_path :=
  (multi_step_path zero mul is_zero cell ln g).
Local Abbreviation check_shapes := (check_shapes g).
Local Abbreviation forward := (forward zero mul is_zero cell ln g).
Local Abbreviation run_chunks := (run_chunks zero mul cell g).
Local Abbreviation run_pairs := (run_pairs mul cell g).
Local Abbreviation masked_state := (masked_state zero mul g).
Local Abbreviation run_elementwise := (run_elementwise zero mul cell g).
Local Abbreviation run_rest := (run_rest mul cell g).
Local Abbreviation run_masked := (run_masked mul cell g).
Local Abbreviation stepwise := (stepwise zero mul is_zero cell ln g).
Local Abbreviation stepwise_loop := (stepwise_loop zero mul is_zero cell ln g).
Local Abbreviation valid_config := (valid_config g).
Local Abbreviation valid_call := (valid_call g).
Local Abbreviation binary := (binary zero one).
Local Abbreviation contract_ok := (contract_ok g).
Local Abbreviation first_violation := (first_violation g).
Local Abbreviation state_before := (state_before zero mul is_zero cell ln g).
Local Abbreviation resets := (resets zero mul).
Local Abbreviation state_column := (state_column g).
Local Abbreviation col_ok := (col_ok g).
Local Abbreviation zero_state := (zero_state zero g).
Local Abbreviation feature := (@feature R).

(** The recurrence returns, for every column, a state of the shape of the
    state it was given: as many layers, each of the same length. *)
Hypothesis cell_shape :
  forall w xv s, map (@length R) (cell w xv s) = map (@length R) s.

Implicit Types (hs : list (list (list R))) (h d m xrow xd md hd : list R).
Implicit Types (xrows mrows : list (list R)).

Lemma flat3_unflat3 a b c (d : list R) :
  length d = a * (b * c) -> flat3 (unflat3 a b c d) = d.
Proof.
  intros H. unfold flat3, unflat3. rewrite map_map.
  rewrite (map_ext_in _ (fun r => r)).
  - rewrite map_id. apply chunks_concat_id. exact H.
  - intros r Hr. apply chunks_concat_id.
    pose proof (chunks_all_length (b * c) a d) as HF.
    rewrite Forall_forall in HF. apply HF; [lia | exact Hr].
Qed.

Lemma unflat3_shaped a b c (d : list R) :
  length d = a * (b * c) -> shaped3 a b c (unflat3 a b c d).
Proof.
  intros H. unfold shaped3, unflat3. split.
  - now rewrite length_map, chunks_length.
  - rewrite Forall_map.
    pose proof (chunks_all_length (b * c) a d) as HF.
    eapply Forall_impl; [|apply HF; lia].
    intros r Hr. simpl in Hr. split.
    + apply chunks_length.
    + apply chunks_all_length. lia.
Qed.

Lemma flat3_length a b c hs :
  shaped3 a b c hs -> length (flat3 hs) = a * (b * c).
Proof.
  intros [Hl HF]. unfold flat3.
  rewrite (@concat_length_const _ (b * c)).
  - now rewrite length_map, Hl.
  - rewrite Forall_map. eapply Forall_impl; [|exact HF].
    intros layer [Hb Hc]. simpl.
    rewrite (@concat_length_const _ c) by exact Hc. now rewrite Hb.
Qed.

Lemma unflat3_flat3 a b c hs :
  shaped3 a b c hs -> unflat3 a b c (flat3 hs) = hs.
Proof.
  intros [Hl HF]. unfold unflat3, flat3.
  assert (Hrows : Forall (fun r => length r = b * c) (map (@concat R) hs)).
  { rewrite Forall_map. eapply Forall_impl; [|exact HF].
    intros layer [Hb Hc]. simpl.
    rewrite (@concat_length_const _ c) by exact Hc. now rewrite Hb. }
  pose proof (chunks_of_concat Hrows) as E.
  rewrite length_map, Hl in E. rewrite E, map_map.
  rewrite <- (map_id hs) at 2. apply map_ext_in.
  intros layer Hin. rewrite Forall_forall in HF.
  destruct (HF _ Hin) as [Hb Hc].
  rewrite <- Hb. now apply chunks_of_concat.
Qed.

(** *** Masking the columns of a state *)

Local Abbreviation mask_layer m :=
  (fun layer : list (list R) =>
     map (fun rm => scale (snd rm) (fst rm)) (combine layer m)).

Lemma scale_length c (v : list R) : length (scale c v) = length v.
Proof. apply length_map. Qed.

Lemma mask_layer_shaped a b c hs m :
  shaped3 a b c hs -> length m = b -> shaped3 a b c (map (mask_layer m) hs).
Proof.
  intros [Hl HF] Hm. split; [now rewrite length_map|].
  rewrite Forall_map. eapply Forall_impl; [|exact HF].
  intros layer [Hb Hc]. simpl. split.
  - rewrite length_map, length_combine. lia.
  - rewrite Forall_map, Forall_forall. intros [v e] Hin. simpl.
    rewrite scale_length. apply in_combine_l in Hin.
    rewrite Forall_forall in Hc. now apply Hc.
Qed.

Lemma scale_columns_length a b c h m :
  length h = a * (b * c) -> length m = b ->
  length (scale_columns a b c h m) = a * (b * c).
Proof.
  intros Hh Hm. unfold scale_columns.
  apply flat3_length, mask_layer_shaped; [|exact Hm].
  now apply unflat3_shaped.
Qed.

Lemma unflat3_scale_columns a b c h m :
  length h = a * (b * c) -> length m = b ->
  unflat3 a b c (scale_columns a b c h m)
  = map (mask_layer m) (unflat3 a b c h).
Proof.
  intros Hh Hm. unfold scale_columns.
  apply unflat3_flat3, mask_layer_shaped; [|exact Hm].
  now apply unflat3_shaped.
Qed.

Lemma mask_layer_ones (layer : list (list R)) m :
  (forall e, mul e one = e) ->
  Forall (fun c => c = one) m -> length layer = length m ->
  mask_layer m layer = layer.
Proof.
  intros Hone Hm. revert layer.
  induction Hm as [|c m Hc _ IH]; intros [|v layer] Hlen;
    simpl in *; try reflexivity; try discriminate.
  subst c. f_equal.
  - unfold scale. rewrite <- (map_id v) at 2. apply map_ext. apply Hone.
  - apply IH. lia.
Qed.

Lemma scale_columns_ones a b c h m :
  (forall e, mul e one = e) ->
  length h = a * (b * c) -> length m = b ->
  Forall (fun e => e = one) m ->
  scale_columns a b c h m = h.
Proof.
  intros Hone Hh Hm Hall. unfold scale_columns.
  rewrite (map_ext_in _ (fun r => r)).
  - rewrite map_id. now apply flat3_unflat3.
  - intros layer Hin. apply mask_layer_ones; try assumption.
    destruct (unflat3_shaped a b c h Hh) as [_ HF].
    rewrite Forall_forall in HF. destruct (HF _ Hin). lia.
Qed.

Lemma nth_mask_layer (layer : list (list R)) m j :
  length layer = length m -> j < length m ->
  nth j (mask_layer m layer) [] = scale (nth j m zero) (nth j layer []).
Proof.
  intros Hlen Hj.
  rewrite (nth_indep _ [] (scale (snd (@nil R, zero)) (fst (@nil R, zero)))).
  - rewrite (map_nth (fun rm : list R * R => scale (snd rm) (fst rm))).
    now rewrite combine_nth.
  - rewrite length_map, length_combine. lia.
Qed.

Lemma column_mask_layer a b c hs m j :
  shaped3 a b c hs -> length m = b -> j < b ->
  column (map (mask_layer m) hs) j
  = map (scale (nth j m zero)) (column hs j).
Proof.
  intros [_ HF] Hm Hj. unfold column. rewrite !map_map.
  apply map_ext_in. intros layer Hin.
  rewrite Forall_forall in HF. destruct (HF _ Hin) as [Hb _].
  apply nth_mask_layer; lia.
Qed.

(** *** One step of the recurrence keeps the shape of the state *)

(** *** One step of the recurrence keeps the shape of the state *)

Lemma col_ok_map_length (c c' : list (list R)) :
  map (@length R) c' = map (@length R) c -> col_ok c -> col_ok c'.
Proof.
  intros E [Hl HF]. split.
  - rewrite <- Hl, <- (length_map (@length R) c'), E. apply length_map.
  - assert (HF' : Forall (fun n => n = hidden_dim g) (map (@length R) c'))
      by (rewrite E, Forall_map; exact HF).
    now rewrite Forall_map in HF'.
Qed.

Lemma column_ok b hs j :
  shaped3 (num_layers g) b (hidden_dim g) hs -> j < b -> col_ok (column hs j).
Proof.
  intros [Hl HF] Hj. split.
  - unfold column. now rewrite length_map.
  - unfold column. rewrite Forall_map. eapply Forall_impl; [|exact HF].
    intros layer [Hb Hc]. simpl. rewrite Forall_forall in Hc.
    apply Hc, nth_In. lia.
Qed.

Lemma step_columns_length b xrow h : length (step_columns b xrow h) = b.
Proof.
  unfold step_columns.
  rewrite length_map, length_combine, chunks_length, length_seq. lia.
Qed.

Lemma step_columns_ok b xrow h :
  length h = num_layers g * (b * hidden_dim g) ->
  Forall col_ok (step_columns b xrow h).
Proof.
  intros Hh. unfold step_columns. rewrite Forall_map, Forall_forall.
  intros [xv j] Hin. simpl.
  eapply col_ok_map_length; [apply cell_shape|].
  apply column_ok with (b := b); [now apply unflat3_shaped|].
  apply in_combine_r, in_seq in Hin. lia.
Qed.

Lemma nth_step_columns b xrow h j :
  j < b ->
  nth j (step_columns b xrow h) []
  = cell (gru_weights g) (nth j (chunks (input_dim g) b xrow) [])
         (column (unflat3 (num_layers g) b (hidden_dim g) h) j).
Proof.
  intros Hj. unfold step_columns.
  set (f := fun xc : list R * nat => cell (gru_weights g) (fst xc) _).
  rewrite (nth_indep _ [] (f ([], 0))).
  - rewrite (map_nth f), combine_nth
      by now rewrite chunks_length, length_seq.
    unfold f. simpl. now rewrite seq_nth.
  - rewrite length_map, length_combine, chunks_length, length_seq. lia.
Qed.

Lemma layers_of_columns_shaped b (cols : list (list (list R))) :
  Forall col_ok cols -> length cols = b ->
  shaped3 (num_layers g) b (hidden_dim g)
          (map (fun i => map (fun c => nth i c []) cols)
               (seq 0 (num_layers g))).
Proof.
  intros HF Hb. split; [now rewrite length_map, length_seq|].
  rewrite Forall_map, Forall_forall. intros i Hi. apply in_seq in Hi.
  split; [now rewrite length_map|].
  rewrite Forall_map. eapply Forall_impl; [|exact HF].
  intros c [Hl Hc]. simpl. rewrite Forall_forall in Hc.
  apply Hc, nth_In. lia.
Qed.

Lemma gru_step_length b xrow h :
  length h = num_layers g * (b * hidden_dim g) ->
  length (gru_step b xrow h) = num_layers g * (b * hidden_dim g).
Proof.
  intros Hh. unfold gru_step, of_columns.
  apply flat3_length, layers_of_columns_shaped.
  - now apply step_columns_ok.
  - apply step_columns_length.
Qed.

Lemma top_layer_length b h :
  0 < num_layers g ->
  length h = num_layers g * (b * hidden_dim g) ->
  length (top_layer b h) = b * hidden_dim g.
Proof.
  intros HL Hh. unfold top_layer. rewrite length_skipn, Hh.
  destruct (num_layers g) as [|l]; [lia|]. simpl. rewrite Nat.sub_0_r. lia.
Qed.

(** *** Chunks of rows against single rows *)

Lemma gru_seq_cons b xrow xrows h :
  gru_seq b (xrow :: xrows) h
  = (top_layer b (gru_step b xrow h)
       :: fst (gru_seq b xrows (gru_step b xrow h)),
     snd (gru_seq b xrows (gru_step b xrow h))).
Proof. simpl. now destruct (gru_seq b xrows _). Qed.

Lemma gru_seq_one b xrow h :
  gru_seq b [xrow] h
  = ([top_layer b (gru_step b xrow h)], gru_step b xrow h).
Proof. reflexivity. Qed.

Lemma run_rest_cons sel b xrow xrows mrow mrows h :
  run_rest sel b (xrow :: xrows) (mrow :: mrows) h
  = let h' := gru_step b xrow
                (if sel mrow
                 then scale_columns (num_layers g) b (hidden_dim g) h mrow
                 else h) in
    (top_layer b h' :: fst (run_rest sel b xrows mrows h'),
     snd (run_rest sel b xrows mrows h')).
Proof. simpl. now destruct (run_rest sel b xrows mrows _). Qed.

Lemma run_pairs_cons b xrows mrows s e cs h :
  run_pairs b xrows mrows ((s, e) :: cs) h
  = let r := gru_seq b (firstn (e - s) (skipn s xrows))
               (scale_columns (num_layers g) b (hidden_dim g) h
                              (nth s mrows [])) in
    (fst r ++ fst (run_pairs b xrows mrows cs (snd r)),
     snd (run_pairs b xrows mrows cs (snd r))).
Proof.
  simpl. destruct (gru_seq b _ _) as [out h_end]. simpl.
  now destruct (run_pairs b xrows mrows cs h_end).
Qed.

Lemma firstn_S_skipn (A : Type) (l : list A) (s k : nat) (a : A) :
  s < length l ->
  firstn (S k) (skipn s l) = nth s l a :: firstn k (skipn (S s) l).
Proof. intros H. now rewrite (skipn_cons_nth l a H). Qed.

Lemma pairs_cons a p (l : list nat) :
  pairs (a :: p :: l) = (a, p) :: pairs (p :: l).
Proof. reflexivity. Qed.

Lemma hd_splits_lower (f : nat -> bool) lo n t :
  lo <= t -> lo <= hd 0 (filter f (seq lo n) ++ [t]).
Proof.
  intros Ht. destruct (filter f (seq lo n)) as [|e l] eqn:E; simpl; [exact Ht|].
  assert (Hin : In e (filter f (seq lo n))) by (rewrite E; now left).
  apply filter_In in Hin. destruct Hin as [Hin _]. apply in_seq in Hin. lia.
Qed.

(** From a chunk start [s] whose state is ready, the chunks cut at the
    selected rows after [s] compute what the rows do one by one when the
    state is masked before the selected rows only. *)
Lemma open_run_rows sel b xrows mrows t n : forall s h,
  length xrows = t -> length mrows = t -> t = S s + n ->
  let bs := filter (fun i => sel (nth i mrows [])) (seq (S s) n) ++ [t] in
  let r := gru_seq b (firstn (hd 0 bs - s) (skipn s xrows)) h in
  (fst r ++ fst (run_pairs b xrows mrows (pairs bs) (snd r)),
   snd (run_pairs b xrows mrows (pairs bs) (snd r)))
  = let h' := gru_step b (nth s xrows []) h in
    (top_layer b h'
       :: fst (run_rest sel b (skipn (S s) xrows) (skipn (S s) mrows) h'),
     snd (run_rest sel b (skipn (S s) xrows) (skipn (S s) mrows) h')).
Proof.
  induction n as [|n IH]; intros s h Hx Hm Ht; cbv zeta.
  - cbn [seq filter app hd pairs combine tl].
    replace (t - s) with 1 by lia.
    rewrite (firstn_S_skipn xrows 0 [] (s := s)) by lia.
    rewrite firstn_O, gru_seq_one.
    cbn [fst snd app]. simpl (run_pairs _ _ _ [] _). cbn [fst snd].
    rewrite (skipn_all2 xrows) by lia. reflexivity.
  - assert (Ht' : t = S (S s) + n) by lia.
    specialize (IH (S s)). cbv zeta in IH.
    rewrite (skipn_cons_nth xrows [] (s := S s)) by lia.
    rewrite (skipn_cons_nth mrows [] (s := S s)) by lia.
    rewrite run_rest_cons. cbv zeta.
    cbn [seq filter].
    set (bs' := filter (fun i => sel (nth i mrows [])) (seq (S (S s)) n)
                ++ [t]) in *.
    destruct (sel (nth (S s) mrows [])) eqn:Hsel.
    + change ((S s :: filter _ _) ++ _) with (S s :: bs').
      cbn [hd]. replace (S s - s) with 1 by lia.
      rewrite (firstn_S_skipn xrows 0 [] (s := s)) by lia.
      rewrite firstn_O, gru_seq_one. cbn [fst snd].
      assert (Hne : exists e l, bs' = e :: l).
      { unfold bs'. destruct (filter _ _); simpl; eauto. }
      destruct Hne as (e & l & Ebs).
      assert (He : hd 0 bs' = e) by now rewrite Ebs.
      rewrite Ebs, pairs_cons, run_pairs_cons, <- Ebs, <- He. cbv zeta.
      cbn [fst snd app].
      specialize (IH (scale_columns (num_layers g) b (hidden_dim g)
                        (gru_step b (nth s xrows []) h)
                        (nth (S s) mrows [])) Hx Hm Ht').
      pose proof (f_equal fst IH) as IH1. pose proof (f_equal snd IH) as IH2.
      cbn [fst snd] in IH1, IH2. now rewrite IH1, IH2.
    + change (filter _ _ ++ _) with bs'.
      assert (Hlo : S (S s) <= hd 0 bs')
        by (unfold bs'; apply hd_splits_lower; lia).
      replace (hd 0 bs' - s) with (S (hd 0 bs' - S s)) by lia.
      rewrite (firstn_S_skipn xrows _ [] (s := s)) by lia.
      rewrite gru_seq_cons. cbn [fst snd app].
      specialize (IH (gru_step b (nth s xrows []) h) Hx Hm Ht').
      pose proof (f_equal fst IH) as IH1. pose proof (f_equal snd IH) as IH2.
      cbn [fst snd] in IH1, IH2. now rewrite IH1, IH2.
Qed.

Lemma pairs_run_masked sel b xrows mrows t h :
  length xrows = t -> length mrows = t -> 0 < t ->
  run_pairs b xrows mrows
    (pairs (0 :: filter (fun i => sel (nth i mrows [])) (seq 1 (t - 1))
              ++ [t])) h
  = run_masked sel b xrows mrows h.
Proof.
  intros Hx Hm Ht.
  set (bs := filter (fun i => sel (nth i mrows [])) (seq 1 (t - 1)) ++ [t]).
  assert (Hne : exists e l, bs = e :: l).
  { unfold bs. destruct (filter _ _); simpl; eauto. }
  destruct Hne as (e & l & Ebs).
  assert (He : hd 0 bs = e) by now rewrite Ebs.
  rewrite Ebs, pairs_cons, run_pairs_cons, <- Ebs, <- He. cbv zeta.
  rewrite Nat.sub_0_r.
  pose proof (@open_run_rows sel b xrows mrows t (t - 1) 0
                (scale_columns (num_layers g) b (hidden_dim g) h
                               (nth 0 mrows []))
                Hx Hm ltac:(lia)) as E.
  cbv zeta in E. fold bs in E. rewrite Nat.sub_0_r in E.
  change (skipn 0 xrows) with xrows in *. rewrite E. clear E.
  destruct xrows as [|xrow xrows']; [simpl in Hx; lia|].
  destruct mrows as [|mrow mrows']; [simpl in Hm; lia|].
  simpl. now destruct (run_rest sel b xrows' mrows' _).
Qed.

(** *** The loop over the chunk indices *)

Lemma list_get_app_here (pre l : list nat) a :
  list_get (pre ++ a :: l) (length pre) = Ok a.
Proof.
  unfold list_get. rewrite nth_error_app2 by lia.
  now rewrite Nat.sub_diag.
Qed.

Lemma list_get_app_next (pre l : list nat) a p :
  list_get (pre ++ a :: p :: l) (length pre + 1) = Ok p.
Proof.
  unfold list_get. rewrite nth_error_app2 by lia.
  now replace (length pre + 1 - length pre) with 1 by lia.
Qed.

(** The loop over [range(len(has_zeros) - 1)] visits the consecutive
    pairs of [has_zeros] in order. *)
Lemma chunk_loop_run_chunks (x masks : tensor) bs : forall pre outs (st : tensor),
  chunk_loop x masks (pre ++ bs) (seq (length pre) (length bs - 1)) outs st
  = (r <- run_chunks x masks (pairs bs) st ;; Ok (outs ++ fst r, snd r)).
Proof.
  induction bs as [|a bs IH]; intros pre outs st.
  - simpl. now rewrite app_nil_r.
  - destruct bs as [|p l].
    + simpl. now rewrite app_nil_r.
    + replace (length (a :: p :: l) - 1) with (S (length (p :: l) - 1))
        by (simpl; lia).
      rewrite pairs_cons. cbn [seq chunk_loop run_chunks].
      rewrite list_get_app_here, list_get_app_next. cbn [bind].
      destruct (index0 masks a) as [mask_row|]; [|reflexivity]. cbn [bind].
      destruct (view_1_infer 1 mask_row) as [mask_view|]; [|reflexivity].
      cbn [bind].
      destruct (mul_states st mask_view) as [temp|]; [|reflexivity].
      cbn [bind].
      destruct (slice0 x a p) as [x_chunk|]; [|reflexivity]. cbn [bind].
      destruct (gru x_chunk temp) as [[out h_end]|]; [|reflexivity].
      cbn [bind].
      specialize (IH (pre ++ [a]) (outs ++ [out]) h_end).
      rewrite <- app_assoc, length_app in IH.
      change (length [a]) with 1 in IH.
      change ([a] ++ p :: l) with (a :: p :: l) in IH.
      rewrite Nat.add_1_r in IH. rewrite IH.
      destruct (run_chunks x masks (pairs (p :: l)) h_end) as [[o h']|];
        [|reflexivity].
      cbn [bind fst snd]. now rewrite <- app_assoc.
Qed.

(** *** The tensor operations on operands of the expected sizes *)

Lemma index0_mask_row t b md s :
  s < t ->
  index0 (mkTensor [t; b] md) s = Ok (mkTensor [b] (nth s (chunks b t md) [])).
Proof.
  intros Hs. unfold index0. cbn [shape data fold_right].
  rewrite Nat.mul_1_r, (proj2 (Nat.ltb_lt s t) Hs).
  now rewrite chunks_nth.
Qed.

Lemma view_mask_row b m :
  view_1_infer 1 (mkTensor [b] m) = Ok (mkTensor [1; b; 1] m).
Proof.
  unfold view_1_infer, numel. cbn [shape data fold_right Nat.eqb].
  now rewrite Nat.mod_1_r, Nat.div_1_r, Nat.mul_1_r.
Qed.

Lemma mul_states_columns l b k h m :
  mul_states (mkTensor [l; b; k] h) (mkTensor [1; b; 1] m)
  = Ok (mkTensor [l; b; k] (scale_columns l b k h m)).
Proof.
  unfold mul_states. cbn [shape data]. now rewrite Nat.eqb_refl.
Qed.

Lemma slice0_rows t b c xd s e :
  s <= e -> e <= t ->
  slice0 (mkTensor [t; b; c] xd) s e
  = Ok (mkTensor [e - s; b; c]
          (firstn ((e - s) * (b * c)) (skipn (s * (b * c)) xd))).
Proof.
  intros Hs He. unfold slice0. cbn [shape data fold_right].
  rewrite Nat.mul_1_r.
  replace (Nat.min s t) with s by lia.
  replace (Nat.max s (Nat.min e t)) with e by lia.
  reflexivity.
Qed.

Lemma chunks_slice k t (xd : list R) s e :
  e <= t ->
  chunks k (e - s) (firstn ((e - s) * k) (skipn (s * k) xd))
  = firstn (e - s) (skipn s (chunks k t xd)).
Proof.
  intros He. rewrite chunks_prefix by lia.
  rewrite chunks_skipn, chunks_firstn. f_equal. lia.
Qed.

Lemma gru_rows n b xd h :
  gru (mkTensor [n; b; input_dim g] xd)
      (mkTensor [num_layers g; b; hidden_dim g] h)
  = let r := gru_seq b (chunks (b * input_dim g) n xd) h in
    Ok (mkTensor [n; b; hidden_dim g] (concat (fst r)),
        mkTensor [num_layers g; b; hidden_dim g] (snd r)).
Proof.
  unfold gru. cbn [shape data]. rewrite !Nat.eqb_refl. cbn [andb].
  now destruct (gru_seq b _ h).
Qed.

(** On operands of the expected sizes the chunks are run without error,
    and their contents are those of [run_pairs] on the rows. *)
Lemma run_chunks_rows t b xd md cs : forall h,
  Forall (fun c => fst c < snd c /\ snd c <= t) cs ->
  let rp := run_pairs b (chunks (b * input_dim g) t xd) (chunks b t md) cs h in
  exists outs,
    run_chunks (mkTensor [t; b; input_dim g] xd) (mkTensor [t; b] md) cs
               (mkTensor [num_layers g; b; hidden_dim g] h)
    = Ok (outs, mkTensor [num_layers g; b; hidden_dim g] (snd rp)) /\
    Forall2 (fun o c => shape o = [snd c - fst c; b; hidden_dim g]) outs cs /\
    concat (map (@data R) outs) = concat (fst rp).
Proof.
  induction cs as [|[s e] cs IH]; intros h HF; cbv zeta.
  - exists []. simpl. auto.
  - inversion HF as [|c cs' [Hse Het] HF' E1]; subst. cbn [fst snd] in *.
    cbn [run_chunks].
    rewrite index0_mask_row by lia. cbn [bind].
    rewrite view_mask_row. cbn [bind].
    rewrite mul_states_columns. cbn [bind].
    rewrite slice0_rows by lia. cbn [bind].
    rewrite gru_rows. cbv zeta. cbn [bind].
    rewrite chunks_slice with (t := t) by lia.
    rewrite run_pairs_cons. cbv zeta. cbn [fst snd].
    set (r := gru_seq b _ _).
    destruct (IH (snd r) HF') as (outs & E & F & C).
    rewrite E. cbn [bind].
    eexists. split; [reflexivity|]. split.
    + constructor; [reflexivity | exact F].
    + cbn [map concat data]. now rewrite C, concat_app.
Qed.

(** *** The chunk boundaries *)

Lemma squeeze_plus_one nz :
  match squeeze_indices nz with
  | Dim0 v => [v + 1]
  | Dim1 vs => map (fun idx => idx + 1) vs
  end = map (fun idx => idx + 1) nz.
Proof. destruct nz as [|v [|w nz]]; reflexivity. Qed.

Lemma nonzero_from (bs : list bool) k : forall st,
  map (fun idx => idx + k)
      (map fst (filter snd (combine (seq st (length bs)) bs)))
  = filter (fun i => nth (i - k - st) bs false) (seq (st + k) (length bs)).
Proof.
  induction bs as [|f bs IH]; intros st; [reflexivity|].
  cbn [length seq combine filter snd].
  replace (st + k - k - st) with 0 by lia.
  change (nth 0 (f :: bs) false) with f.
  assert (E : filter (fun i => nth (i - k - st) (f :: bs) false)
                     (seq (S (st + k)) (length bs))
              = filter (fun i => nth (i - k - S st) bs false)
                       (seq (S st + k) (length bs))).
  { apply filter_ext_in. intros i Hi. apply in_seq in Hi.
    replace (i - k - st) with (S (i - k - S st)) by lia. reflexivity. }
  rewrite E, <- IH. now destruct f.
Qed.

Lemma splits_filter (sel : list R -> bool) mrows :
  map (fun idx => idx + 1) (nonzero (map sel (skipn 1 mrows)))
  = filter (fun i => sel (nth i mrows [])) (seq 1 (length mrows - 1)).
Proof.
  unfold nonzero. rewrite (nonzero_from _ 1 0).
  rewrite length_map, length_skipn. apply filter_ext_in.
  intros i Hi. apply in_seq in Hi.
  destruct mrows as [|m0 mrows]; [simpl in Hi; lia|].
  cbn [skipn length] in *.
  replace (i - 1 - 0) with (i - 1) by lia.
  rewrite (nth_indep _ false (sel [])) by (rewrite length_map; lia).
  rewrite map_nth. destruct i as [|i]; [lia|].
  now rewrite Nat.sub_succ, Nat.sub_0_r.
Qed.

Lemma boundaries_rows t b md :
  0 < t ->
  boundaries (mkTensor [t; b] md) t
  = Ok (0 :: filter (fun i => existsb is_zero (nth i (chunks b t md) []))
                    (seq 1 (t - 1)) ++ [t]).
Proof.
  intros Ht. unfold boundaries, slice0. cbn [shape data hd fold_right bind nth].
  rewrite Nat.mul_1_r.
  replace (Nat.min 1 t) with 1 by lia.
  replace (Nat.max 1 (Nat.min t t)) with t by lia.
  rewrite squeeze_plus_one.
  rewrite chunks_slice with (t := t) by lia.
  rewrite firstn_all2 by (rewrite length_skipn, chunks_length; lia).
  rewrite splits_filter, chunks_length. reflexivity.
Qed.

(** The chunks between [lo] and [t], cut at the rows after [lo] that [f]
    selects: non-empty ranges that follow one another from [lo] to [t]. *)
Lemma pairs_partition (f : nat -> bool) t n : forall k lo,
  lo < k -> k + n = t ->
  let cs := pairs (lo :: filter f (seq k n) ++ [t]) in
  Forall (fun c => fst c < snd c /\ snd c <= t) cs /\
  concat (map range_of cs) = seq lo (t - lo).
Proof.
  induction n as [|n IH]; intros k lo Hlo Hk; cbv zeta.
  - cbn [seq filter app pairs combine tl map concat range_of fst snd].
    split; [constructor; [simpl; lia | constructor]|].
    now rewrite app_nil_r.
  - cbn [seq filter]. destruct (f k).
    + change ((k :: ?l) ++ ?r) with (k :: l ++ r).
      rewrite pairs_cons.
      destruct (IH (S k) k ltac:(lia) ltac:(lia)) as [HF HC].
      split.
      * constructor; [simpl; lia | exact HF].
      * cbn [map concat]. rewrite HC. unfold range_of. cbn [fst snd].
        replace (t - lo) with ((k - lo) + (t - k)) by lia.
        rewrite seq_app. do 2 f_equal. lia.
    + apply (IH (S k) lo); lia.
Qed.

(** *** Concatenation, normalization and the shape assertions *)

Lemma list_eqb_refl (l : list nat) : list_eqb l l = true.
Proof. induction l; simpl; [reflexivity|]. now rewrite Nat.eqb_refl. Qed.

Lemma list_eqb_eq (a b : list nat) : list_eqb a b = true -> a = b.
Proof.
  revert b; induction a as [|x a IH]; intros [|y b] H; simpl in H;
    try reflexivity; try discriminate.
  apply andb_prop in H as [Hx Hl]. apply Nat.eqb_eq in Hx.
  f_equal; auto.
Qed.

Lemma cat0_chunk_outputs b k (outs : list tensor) cs :
  Forall2 (fun o c => shape o = [snd c - fst c; b; k]) outs cs ->
  cs <> [] ->
  cat0 outs
  = Ok (mkTensor [length (concat (map range_of cs)); b; k]
                 (concat (map (@data R) outs))).
Proof.
  intros HF Hne.
  assert (Hall : forallb (fun o : tensor => match shape o with
                                  | _ :: r => list_eqb r [b; k]
                                  | [] => false
                                  end) outs = true).
  { clear Hne. induction HF as [|o c outs cs Ho _ IH]; [reflexivity|].
    cbn [forallb]. rewrite Ho, list_eqb_refl. exact IH. }
  assert (Hsum : fold_right Nat.add 0 (map (fun o : tensor => hd 0 (shape o)) outs)
                 = length (concat (map range_of cs))).
  { clear Hne Hall. induction HF as [|o c outs cs Ho _ IH]; [reflexivity|].
    cbn [map fold_right concat]. rewrite Ho, IH, length_app.
    unfold range_of. now rewrite length_seq. }
  destruct HF as [|o c outs cs Ho HF]; [congruence|].
  unfold cat0. rewrite Ho, Hall, Hsum. reflexivity.
Qed.

Lemma layer_norm_seq t b d :
  0 < hidden_dim g ->
  gru_layer_norm (mkTensor [t; b; hidden_dim g] d)
  = Ok (mkTensor [t; b; hidden_dim g] (normalize (t * b) d)).
Proof.
  intros Hk. unfold gru_layer_norm, numel.
  cbn [shape data rev app fold_right]. rewrite Nat.eqb_refl.
  replace (t * (b * (hidden_dim g * 1))) with (t * b * hidden_dim g) by lia.
  rewrite Nat.div_mul by lia. reflexivity.
Qed.

Lemma layer_norm_step b d :
  0 < hidden_dim g ->
  gru_layer_norm (mkTensor [b; hidden_dim g] d)
  = Ok (mkTensor [b; hidden_dim g] (normalize b d)).
Proof.
  intros Hk. unfold gru_layer_norm, numel.
  cbn [shape data rev app fold_right]. rewrite Nat.eqb_refl.
  rewrite Nat.mul_1_r, Nat.div_mul by lia. reflexivity.
Qed.

Lemma assert_eq_refl (dn : dim_name) n : assert_eq dn n n = Ok tt.
Proof. unfold assert_eq. now rewrite Nat.eqb_refl. Qed.

Lemma check_shapes_seq t b xd h :
  check_shapes (mkTensor [t; b; input_dim g] xd)
               (mkTensor [num_layers g; b; hidden_dim g] h)
  = Ok (mkTensor [t; b; input_dim g] xd).
Proof.
  unfold check_shapes, dim, size.
  repeat progress (rewrite ?assert_eq_refl;
                   cbn [shape length Nat.eqb nth_error bind]).
  reflexivity.
Qed.

Lemma check_shapes_step b xd h :
  0 < input_dim g ->
  check_shapes (mkTensor [b; input_dim g] xd)
               (mkTensor [num_layers g; b; hidden_dim g] h)
  = Ok (mkTensor [1; b; input_dim g] xd).
Proof.
  intros Hd. unfold check_shapes, dim, size, view_1_infer, numel.
  cbn [shape data length Nat.eqb nth_error bind fold_right].
  rewrite assert_eq_refl. cbn [bind].
  rewrite Nat.mul_1_r.
  rewrite (proj2 (Nat.eqb_neq (input_dim g) 0)) by lia.
  rewrite Nat.Div0.mod_mul, Nat.div_mul by lia.
  repeat progress (rewrite ?assert_eq_refl;
                   cbn [shape length Nat.eqb nth_error bind]).
  reflexivity.
Qed.

(** *** What the two paths compute *)

(** The single-step path: the state is masked, the recurrence makes one
    step, the output is the normalized top layer. *)
Lemma single_step_rows b xd h (masks : tensor) :
  0 < hidden_dim g -> numel masks = b ->
  single_step_path (mkTensor [1; b; input_dim g] xd)
                   (mkTensor [num_layers g; b; hidden_dim g] h) masks
  = let h' := gru_step b (firstn (b * input_dim g) xd)
                (scale_columns (num_layers g) b (hidden_dim g) h
                               (data masks)) in
    Ok (mkTensor [b; hidden_dim g] (normalize b (top_layer b h')),
        mkTensor [num_layers g; b; hidden_dim g] h').
Proof.
  intros Hk Hm. unfold single_step_path, view_1_infer.
  cbn [Nat.eqb]. rewrite Nat.mod_1_r, Nat.div_1_r, Hm. cbn [Nat.eqb bind].
  rewrite mul_states_columns. cbn [bind data].
  rewrite gru_rows. cbv zeta. cbn [chunks]. rewrite gru_seq_one.
  cbn [bind fst snd concat]. rewrite app_nil_r.
  unfold squeeze0. cbn [shape data].
  rewrite layer_norm_step by exact Hk. reflexivity.
Qed.

(** The multi-step path: the rows one by one, the state masked before the
    first row and before every later row that holds a zero. *)
Lemma multi_step_rows t b xd h md :
  0 < hidden_dim g -> 1 < t ->
  multi_step_path (mkTensor [t; b; input_dim g] xd)
                  (mkTensor [num_layers g; b; hidden_dim g] h)
                  (mkTensor [t; b] md)
  = let r := run_masked (existsb is_zero) b
               (chunks (b * input_dim g) t xd) (chunks b t md) h in
    Ok (mkTensor [t; b; hidden_dim g] (normalize (t * b) (concat (fst r))),
        mkTensor [num_layers g; b; hidden_dim g] (snd r)).
Proof.
  intros Hk Ht. unfold multi_step_path, size, view2, numel.
  cbn [shape data nth_error bind fold_right].
  rewrite Nat.mul_1_r, Nat.eqb_refl. cbn [bind].
  rewrite boundaries_rows by lia. cbn [bind].
  set (sel := fun i => existsb is_zero (nth i (chunks b t md) [])).
  set (bs := 0 :: filter sel (seq 1 (t - 1)) ++ [t]).
  pose proof (chunk_loop_run_chunks
                (mkTensor [t; b; input_dim g] xd) (mkTensor [t; b] md)
                bs [] [] (mkTensor [num_layers g; b; hidden_dim g] h)) as E.
  cbn [app length] in E. rewrite E. clear E.
  destruct (@pairs_partition sel t (t - 1) 1 0 ltac:(lia) ltac:(lia))
    as [HF HC].
  fold bs in HF, HC.
  destruct (@run_chunks_rows t b xd md (pairs bs) h HF) as (outs & E & F & C).
  rewrite E. cbn [bind fst snd].
  assert (Hne : pairs bs <> []).
  { unfold bs. destruct (filter sel (seq 1 (t - 1))); discriminate. }
  rewrite (cat0_chunk_outputs F Hne), HC, length_seq, Nat.sub_0_r.
  cbn [bind]. rewrite layer_norm_seq by exact Hk. cbn [bind data].
  rewrite C. unfold bs, sel.
  rewrite pairs_run_masked by (rewrite ?chunks_length; lia).
  reflexivity.
Qed.

Lemma forward_seq_rows t b xd h md :
  0 < hidden_dim g -> 1 < t ->
  forward (mkTensor [t; b; input_dim g] xd)
          (mkTensor [num_layers g; b; hidden_dim g] h)
          (mkTensor [t; b] md)
  = let r := run_masked (existsb is_zero) b
               (chunks (b * input_dim g) t xd) (chunks b t md) h in
    Ok (mkTensor [t; b; hidden_dim g] (normalize (t * b) (concat (fst r))),
        mkTensor [num_layers g; b; hidden_dim g] (snd r)).
Proof.
  intros Hk Ht. unfold forward. rewrite check_shapes_seq.
  cbn [bind size shape nth_error].
  rewrite (proj2 (Nat.eqb_neq t 1)) by lia.
  now apply multi_step_rows.
Qed.

Lemma forward_step_rows b xd h (masks : tensor) :
  0 < hidden_dim g -> numel masks = b ->
  forward (mkTensor [1; b; input_dim g] xd)
          (mkTensor [num_layers g; b; hidden_dim g] h) masks
  = let h' := gru_step b (firstn (b * input_dim g) xd)
                (scale_columns (num_layers g) b (hidden_dim g) h
                               (data masks)) in
    Ok (mkTensor [b; hidden_dim g] (normalize b (top_layer b h')),
        mkTensor [num_layers g; b; hidden_dim g] h').
Proof.
  intros Hk Hm. unfold forward. rewrite check_shapes_seq.
  cbn [bind size shape nth_error Nat.eqb].
  now apply single_step_rows.
Qed.

Lemma forward_vector_rows b xd h (masks : tensor) :
  0 < input_dim g -> 0 < hidden_dim g -> numel masks = b ->
  forward (mkTensor [b; input_dim g] xd)
          (mkTensor [num_layers g; b; hidden_dim g] h) masks
  = let h' := gru_step b (firstn (b * input_dim g) xd)
                (scale_columns (num_layers g) b (hidden_dim g) h
                               (data masks)) in
    Ok (mkTensor [b; hidden_dim g] (normalize b (top_layer b h')),
        mkTensor [num_layers g; b; hidden_dim g] h').
Proof.
  intros Hd Hk Hm. unfold forward. rewrite check_shapes_step by exact Hd.
  cbn [bind size shape nth_error Nat.eqb].
  now apply single_step_rows.
Qed.

(** *** Invariants of a run over the rows *)

Lemma run_rest_state_length sel b xrows : forall mrows h,
  Forall (fun m => length m = b) mrows ->
  length h = num_layers g * (b * hidden_dim g) ->
  length (snd (run_rest sel b xrows mrows h))
  = num_layers g * (b * hidden_dim g).
Proof.
  induction xrows as [|xrow xrows IH]; intros [|mrow mrows] h HF Hh;
    try exact Hh.
  rewrite run_rest_cons. cbv zeta. cbn [snd].
  pose proof (Forall_inv HF) as Hm. apply Forall_inv_tail in HF.
  apply IH; [assumption|].
  apply gru_step_length.
  destruct (sel mrow); [now apply scale_columns_length | exact Hh].
Qed.

Lemma run_rest_outputs sel b xrows : forall mrows h,
  0 < num_layers g ->
  Forall (fun m => length m = b) mrows ->
  length h = num_layers g * (b * hidden_dim g) ->
  Forall (fun o => length o = b * hidden_dim g)
         (fst (run_rest sel b xrows mrows h)).
Proof.
  induction xrows as [|xrow xrows IH]; intros [|mrow mrows] h HL HF Hh;
    try constructor.
  rewrite run_rest_cons. cbv zeta. cbn [fst].
  pose proof (Forall_inv HF) as Hm. apply Forall_inv_tail in HF.
  assert (Hh' : length (gru_step b xrow
                   (if sel mrow
                    then scale_columns (num_layers g) b (hidden_dim g) h mrow
                    else h)) = num_layers g * (b * hidden_dim g)).
  { apply gru_step_length.
    destruct (sel mrow); [now apply scale_columns_length | exact Hh]. }
  constructor; [now apply top_layer_length | now apply IH].
Qed.

Lemma run_rest_outputs_length sel b xrows : forall mrows h,
  length mrows = length xrows ->
  length (fst (run_rest sel b xrows mrows h)) = length xrows.
Proof.
  induction xrows as [|xrow xrows IH]; intros [|mrow mrows] h Hl;
    try reflexivity; try discriminate.
  rewrite run_rest_cons. cbv zeta. cbn [fst length]. f_equal.
  apply IH. simpl in Hl. lia.
Qed.

Lemma run_masked_all b xrows mrows h :
  run_masked (fun _ => true) b xrows mrows h
  = run_rest (fun _ => true) b xrows mrows h.
Proof. destruct xrows, mrows; reflexivity. Qed.

Lemma run_masked_rest sel b xrow xrows mrow mrows h :
  run_masked sel b (xrow :: xrows) (mrow :: mrows) h
  = let h' := gru_step b xrow
                (scale_columns (num_layers g) b (hidden_dim g) h mrow) in
    (top_layer b h' :: fst (run_rest sel b xrows mrows h'),
     snd (run_rest sel b xrows mrows h')).
Proof. simpl. now destruct (run_rest sel b xrows mrows _). Qed.

(** *** Binary masks: a row without a zero leaves the state as it is *)

Section Binary.

Hypothesis mul_one : forall e, mul e one = e.
Hypothesis is_zero_zero : is_zero zero = true.

Lemma binary_row_ones m :
  Forall (fun e => e = zero \/ e = one) m ->
  existsb is_zero m = false ->
  Forall (fun e => e = one) m.
Proof.
  induction 1 as [|e m He _ IH]; intros Hz; constructor;
    cbn [existsb] in Hz; apply orb_false_elim in Hz as [Hz1 Hz2].
  - destruct He as [-> | ->]; [congruence | reflexivity].
  - now apply IH.
Qed.

Lemma run_rest_binary b xrows : forall mrows h,
  Forall (fun m => length m = b) mrows ->
  Forall (Forall (fun e => e = zero \/ e = one)) mrows ->
  length h = num_layers g * (b * hidden_dim g) ->
  run_rest (existsb is_zero) b xrows mrows h
  = run_rest (fun _ => true) b xrows mrows h.
Proof.
  induction xrows as [|xrow xrows IH]; intros [|mrow mrows] h HF HB Hh;
    try reflexivity.
  rewrite !run_rest_cons. cbv zeta.
  pose proof (Forall_inv HF) as Hm. apply Forall_inv_tail in HF.
  pose proof (Forall_inv HB) as Hb. apply Forall_inv_tail in HB.
  assert (E : (if existsb is_zero mrow
               then scale_columns (num_layers g) b (hidden_dim g) h mrow
               else h)
              = scale_columns (num_layers g) b (hidden_dim g) h mrow).
  { destruct (existsb is_zero mrow) eqn:Hz; [reflexivity|].
    symmetry. apply scale_columns_ones; auto.
    now apply binary_row_ones. }
  rewrite E, IH; try assumption; [reflexivity|].
  apply gru_step_length. now apply scale_columns_length.
Qed.

Lemma run_masked_binary b xrows mrows h :
  Forall (fun m => length m = b) mrows ->
  Forall (Forall (fun e => e = zero \/ e = one)) mrows ->
  length h = num_layers g * (b * hidden_dim g) ->
  run_masked (existsb is_zero) b xrows mrows h
  = run_masked (fun _ => true) b xrows mrows h.
Proof.
  intros HF HB Hh.
  destruct xrows as [|xrow xrows], mrows as [|mrow mrows]; try reflexivity.
  rewrite !run_masked_rest. cbv zeta.
  pose proof (Forall_inv HF) as Hm. apply Forall_inv_tail in HF.
  pose proof (Forall_inv HB) as Hb. apply Forall_inv_tail in HB.
  rewrite run_rest_binary; try assumption; [reflexivity|].
  apply gru_step_length. now apply scale_columns_length.
Qed.

End Binary.

(** *** The single-step path, one call per time step *)

Lemma index0_input_row t b xd i :
  i < t ->
  index0 (mkTensor [t; b; input_dim g] xd) i
  = Ok (mkTensor [b; input_dim g] (nth i (chunks (b * input_dim g) t xd) [])).
Proof.
  intros Hi. unfold index0. cbn [shape data fold_right].
  rewrite Nat.mul_1_r, (proj2 (Nat.ltb_lt i t) Hi).
  now rewrite chunks_nth.
Qed.

Lemma firstn_chunk k t (xd : list R) i :
  i < t -> firstn k (nth i (chunks k t xd) []) = nth i (chunks k t xd) [].
Proof.
  intros Hi. rewrite chunks_nth by exact Hi.
  rewrite firstn_firstn. now rewrite Nat.min_id.
Qed.

Lemma stepwise_loop_rows t b xd md :
  0 < input_dim g -> 0 < hidden_dim g ->
  forall ts (ys : list tensor) h,
  Forall (fun i => i < t) ts ->
  stepwise_loop (mkTensor [t; b; input_dim g] xd) (mkTensor [t; b] md) ts ys
                (mkTensor [num_layers g; b; hidden_dim g] h)
  = let r := run_rest (fun _ => true) b
               (map (fun i => nth i (chunks (b * input_dim g) t xd) []) ts)
               (map (fun i => nth i (chunks b t md) []) ts) h in
    Ok (ys ++ map (fun o => mkTensor [b; hidden_dim g] (normalize b o)) (fst r),
        mkTensor [num_layers g; b; hidden_dim g] (snd r)).
Proof.
  intros Hd Hk. induction ts as [|i ts IH]; intros ys h HF; cbv zeta.
  - simpl. now rewrite app_nil_r.
  - pose proof (Forall_inv HF) as Hi. apply Forall_inv_tail in HF.
    cbn [stepwise_loop map].
    rewrite index0_input_row, index0_mask_row by exact Hi. cbn [bind].
    rewrite forward_vector_rows
      by (try assumption; unfold numel; simpl; lia).
    cbv zeta. cbn [bind data].
    rewrite firstn_chunk by exact Hi.
    rewrite IH by exact HF. cbv zeta.
    rewrite run_rest_cons. cbv zeta. cbn [fst snd map].
    now rewrite <- app_assoc.
Qed.

Lemma stack0_rows b k (f : list R -> list R) (outs : list (list R)) :
  outs <> [] ->
  stack0 (map (fun o => mkTensor [b; k] (f o)) outs)
  = Ok (mkTensor [length outs; b; k] (concat (map f outs))).
Proof.
  intros Hne. destruct outs as [|o outs]; [congruence|].
  unfold stack0. cbn [map shape].
  assert (Hall : forallb (fun y : tensor => list_eqb (shape y) [b; k])
                   (mkTensor [b; k] (f o)
                      :: map (fun o => mkTensor [b; k] (f o)) outs) = true).
  { apply forallb_forall. intros y [<- | Hy]; [apply list_eqb_refl|].
    apply in_map_iff in Hy as (o' & <- & _). apply list_eqb_refl. }
  rewrite Hall. cbn [length]. rewrite length_map.
  do 2 f_equal. cbn [map concat data]. f_equal.
  rewrite map_map. reflexivity.
Qed.

Lemma stepwise_rows t b xd h md :
  0 < input_dim g -> 0 < hidden_dim g -> 0 < t ->
  stepwise (mkTensor [t; b; input_dim g] xd)
           (mkTensor [num_layers g; b; hidden_dim g] h)
           (mkTensor [t; b] md)
  = let r := run_masked (fun _ => true) b
               (chunks (b * input_dim g) t xd) (chunks b t md) h in
    Ok (mkTensor [t; b; hidden_dim g] (concat (map (normalize b) (fst r))),
        mkTensor [num_layers g; b; hidden_dim g] (snd r)).
Proof.
  intros Hd Hk Ht. unfold stepwise. cbn [size shape nth_error bind].
  rewrite (@stepwise_loop_rows t b xd md Hd Hk (seq 0 t) [] h)
    by (apply Forall_forall; intros i Hi; apply in_seq in Hi; lia).
  cbv zeta. cbn [bind app].
  rewrite !map_nth_seq by apply chunks_length.
  rewrite run_masked_all.
  set (r := run_rest _ _ _ _ _).
  assert (Hlen : length (fst r) = t).
  { unfold r. rewrite run_rest_outputs_length; rewrite !chunks_length;
      reflexivity. }
  rewrite stack0_rows by (intros E; rewrite E in Hlen; simpl in Hlen; lia).
  cbn [bind]. now rewrite Hlen.
Qed.

Lemma normalize_concat b (outs : list (list R)) :
  Forall (fun o => length o = b * hidden_dim g) outs ->
  normalize (length outs * b) (concat outs) = concat (map (normalize b) outs).
Proof.
  induction 1 as [|o outs Ho _ IH]; [reflexivity|].
  cbn [length map concat]. rewrite <- IH. unfold normalize.
  change (S (length outs) * b) with (b + length outs * b).
  rewrite chunks_app by exact Ho.
  now rewrite map_app, concat_app.
Qed.

(** [init_hidden] makes a state [forward] accepts. *)
Lemma init_hidden_valid b :
  shape (init_hidden zero g b) = [num_layers g; b; hidden_dim g] /\
  wf (init_hidden zero g b) /\
  Forall (fun e => e = zero) (data (init_hidden zero g b)).
Proof.
  unfold init_hidden, wf, numel. cbn [shape data fold_right].
  split; [reflexivity|]. split.
  - rewrite repeat_length. lia.
  - apply Forall_forall. intros e He. now apply repeat_spec in He.
Qed.

(** ** The claims *)

Lemma valid_call_inv t b (x rnn_states masks : tensor) :
  valid_call t b x rnn_states masks ->
  exists xd h md,
    x = mkTensor [t; b; input_dim g] xd /\
    rnn_states = mkTensor [num_layers g; b; hidden_dim g] h /\
    masks = mkTensor [t; b] md /\
    length xd = t * (b * input_dim g) /\
    length h = num_layers g * (b * hidden_dim g) /\
    length md = t * b.
Proof.
  intros [[Sx Wx] [[Sh Wh] [Sm Wm]]].
  destruct x as [xs xd], rnn_states as [hs h], masks as [ms md].
  unfold wf, numel in *. cbn [shape data] in *. subst xs hs ms.
  cbn [fold_right] in *. rewrite Nat.mul_1_r in *.
  exists xd, h, md. repeat split; assumption.
Qed.


Lemma boundaries_sorted (f : nat -> bool) t :
  0 < t -> StronglySorted lt (0 :: filter f (seq 1 (t - 1)) ++ [t]).
Proof.
  intros Ht.
  assert (Hs : forall n k, StronglySorted lt (filter f (seq k n))).
  { induction n as [|n IH]; intros k; cbn [seq filter]; [constructor|].
    destruct (f k); [|apply IH].
    constructor; [apply IH|].
    apply Forall_forall. intros e He. apply filter_In in He as [He _].
    apply in_seq in He. lia. }
  assert (Hin : Forall (fun e => 0 < e < t) (filter f (seq 1 (t - 1)))).
  { apply Forall_forall. intros e He. apply filter_In in He as [He _].
    apply in_seq in He. lia. }
  specialize (Hs (t - 1) 1).
  constructor.
  - induction Hs as [|e l _ IH Hlt]; cbn [app].
    + repeat constructor.
    + pose proof (Forall_inv Hin) as He. cbv beta in He.
      apply Forall_inv_tail in Hin.
      constructor; [now apply IH|].
      apply Forall_app. split.
      * exact Hlt.
      * constructor; [lia | constructor].
  - apply Forall_app. split.
    + eapply Forall_impl; [|exact Hin]. cbv beta. intros; lia.
    + constructor; [lia | constructor].
Qed.

(** C2 (chunk boundaries).  For a mask of [t > 1] rows the boundary list
    of the multi-step path is [0], the rows among [1 .. t-1] that hold a
    zero in some column, in increasing order, and [t]; consecutive
    boundaries are non-empty half-open ranges which, taken in order, are
    exactly the time steps [0 .. t-1], each once; without such a row the
    list is [[0; t]] and the only chunk is the whole sequence. *)
Theorem chunk_boundaries t b (masks : tensor) :
  shape masks = [t; b] -> 1 < t ->
  let row i := nth i (chunks b t (data masks)) [] in
  let splits := filter (fun i => existsb is_zero (row i)) (seq 1 (t - 1)) in
  let bs := [0] ++ splits ++ [t] in
  boundaries masks t = Ok bs /\
  (forall i, In i splits <->
             1 <= i < t /\ exists e, In e (row i) /\ is_zero e = true) /\
  StronglySorted lt bs /\
  Forall (fun c => fst c < snd c /\ snd c <= t) (pairs bs) /\
  concat (map range_of (pairs bs)) = seq 0 t /\
  ((forall i, 1 <= i < t -> existsb is_zero (row i) = false) ->
   bs = [0; t] /\ pairs bs = [(0, t)]).
Proof.
  intros Hs Ht. destruct masks as [ms md]. cbn [shape data] in *. subst ms.
  cbv zeta. cbn [app].
  set (sel := fun i => existsb is_zero (nth i (chunks b t md) [])).
  split; [apply boundaries_rows; lia|].
  split.
  { intros i. rewrite filter_In, in_seq. unfold sel.
    rewrite existsb_exists. split; intros [H1 H2]; (split; [lia | exact H2]). }
  split; [apply boundaries_sorted; lia|].
  destruct (@pairs_partition sel t (t - 1) 1 0 ltac:(lia) ltac:(lia))
    as [HF HC].
  rewrite Nat.sub_0_r in HC.
  split; [exact HF|]. split; [exact HC|].
  intros Hnone.
  assert (E : filter sel (seq 1 (t - 1)) = []).
  { apply filter_none. intros i Hi. apply in_seq in Hi.
    unfold sel. apply Hnone. lia. }
  rewrite E. split; reflexivity.
Qed.

(** The vector [(i, j, :)] of row-major contents. *)
Lemma input_vector t b k xd i j :
  i < t -> j < b ->
  nth j (chunks k b (nth i (chunks (b * k) t xd) [])) []
  = firstn k (skipn ((i * b + j) * k) xd).
Proof.
  intros Hi Hj. rewrite !chunks_nth by assumption.
  rewrite skipn_firstn_comm, firstn_firstn, skipn_skipn.
  f_equal; [nia | f_equal; lia].
Qed.

(** The product by a mask row, element by element, is the product the
    code computes by broadcasting. *)
Lemma masked_state_columns b h m :
  length h = num_layers g * (b * hidden_dim g) -> length m = b ->
  masked_state b h m = scale_columns (num_layers g) b (hidden_dim g) h m.
Proof.
  intros Hh Hm. unfold masked_state, scale_columns, flat3.
  rewrite flat_map_concat_map. f_equal. rewrite map_map.
  set (U := unflat3 (num_layers g) b (hidden_dim g) h).
  assert (LU : length U = num_layers g)
    by (unfold U, unflat3; now rewrite length_map, chunks_length).
  rewrite <- (map_nth_seq U [] LU) at 1. rewrite map_map.
  apply map_ext_in. intros i Hi. apply in_seq in Hi.
  rewrite flat_map_concat_map. f_equal.
  assert (Ei : nth i U []
               = chunks (hidden_dim g) b
                   (nth i (chunks (b * hidden_dim g) (num_layers g) h) [])).
  { unfold U, unflat3.
    rewrite (nth_indep _ [] (chunks (hidden_dim g) b []))
      by (rewrite length_map, chunks_length; lia).
    apply map_nth. }
  assert (Li : length (nth i U []) = b) by (rewrite Ei; apply chunks_length).
  apply nth_ext with (d := []) (d' := []).
  - rewrite !length_map, length_seq, length_combine. lia.
  - rewrite length_map, length_seq. intros j Hj.
    rewrite nth_mask_layer by lia.
    rewrite Ei, input_vector by lia.
    set (o := (i * b + j) * hidden_dim g).
    set (G := fun j0 : nat => map _ (seq 0 (hidden_dim g))).
    rewrite (nth_indep _ [] (G 0)) by (now rewrite length_map, length_seq).
    rewrite map_nth, seq_nth by exact Hj. unfold G. cbn [Nat.add].
    fold o. unfold scale.
    assert (Lv : length (firstn (hidden_dim g) (skipn o h)) = hidden_dim g).
    { assert (Hc : i * b + j + 1 <= num_layers g * b) by nia.
      apply (Nat.mul_le_mono_r _ _ (hidden_dim g)) in Hc.
      rewrite length_firstn, length_skipn. unfold o. lia. }
    rewrite <- (map_nth_seq (firstn (hidden_dim g) (skipn o h)) zero Lv) at 1.
    rewrite map_map. apply map_ext_in. intros f Hf. apply in_seq in Hf.
    rewrite nth_firstn, nth_skipn.
    now rewrite (proj2 (Nat.ltb_lt f (hidden_dim g))) by lia.
Qed.

Lemma gru_seq_state_length b xrows : forall h,
  length h = num_layers g * (b * hidden_dim g) ->
  length (snd (gru_seq b xrows h)) = num_layers g * (b * hidden_dim g).
Proof.
  induction xrows as [|xrow xrows IH]; intros h Hh; [exact Hh|].
  rewrite gru_seq_cons. cbn [snd]. apply IH. now apply gru_step_length.
Qed.

Lemma run_elementwise_cons b xrows mrows s e cs h :
  run_elementwise b xrows mrows ((s, e) :: cs) h
  = let r := gru_seq b (firstn (e - s) (skipn s xrows))
               (masked_state b h (nth s mrows [])) in
    (fst r ++ fst (run_elementwise b xrows mrows cs (snd r)),
     snd (run_elementwise b xrows mrows cs (snd r))).
Proof.
  simpl. destruct (gru_seq b _ _) as [out h_end]. simpl.
  now destruct (run_elementwise b xrows mrows cs h_end).
Qed.

(** On a state and mask rows of the sizes of the contract, the chunks
    with the element-wise product are the chunks as the code masks
    them. *)
Lemma run_elementwise_pairs t b xrows mrows cs : forall h,
  length mrows = t -> Forall (fun m => length m = b) mrows ->
  Forall (fun c => fst c < snd c /\ snd c <= t) cs ->
  length h = num_layers g * (b * hidden_dim g) ->
  run_elementwise b xrows mrows cs h = run_pairs b xrows mrows cs h.
Proof.
  induction cs as [|[s e] cs IH]; intros h Lm HF Hcs Hh; [reflexivity|].
  pose proof (Forall_inv Hcs) as [Hse Het]. apply Forall_inv_tail in Hcs.
  cbn [fst snd] in Hse, Het.
  rewrite run_elementwise_cons, run_pairs_cons. cbv zeta.
  assert (Ls : length (nth s mrows []) = b).
  { rewrite Forall_forall in HF. apply HF, nth_In. lia. }
  rewrite masked_state_columns by assumption.
  rewrite IH; try assumption; [reflexivity|].
  apply gru_seq_state_length. now apply scale_columns_length.
Qed.

(** C3 (masking at the start of each chunk).  The multi-step path runs
    the chunks between consecutive boundaries in increasing time order;
    for each chunk the carried state is multiplied, element by element,
    by the mask row at the start of the chunk (the entry of a column
    multiplies the elements of that column in every layer and for every
    feature), the recurrence is run over the chunk from the masked state,
    and the state the recurrence returns is handed on as it is: no mask
    is applied to it until the next chunk starts, and the state returned
    at the end is the one the recurrence returned for the last chunk.
    On operands of the sizes of the contract every chunk runs without
    error. *)
Theorem chunks_masked_at_start t b (x rnn_states masks : tensor) :
  0 < hidden_dim g -> valid_call t b x rnn_states masks -> 1 < t ->
  multi_step_path x rnn_states masks
  = (bs <- boundaries masks t ;;
     r <- run_chunks x masks (pairs bs) rnn_states ;;
     y <- cat0 (fst r) ;;
     y <- gru_layer_norm y ;;
     Ok (y, snd r)) /\
  exists bs outs,
    boundaries masks t = Ok bs /\
    let rp := run_elementwise b (chunks (b * input_dim g) t (data x))
                              (chunks b t (data masks)) (pairs bs)
                              (data rnn_states) in
    run_chunks x masks (pairs bs) rnn_states
    = Ok (outs, mkTensor (shape rnn_states) (snd rp)) /\
    concat (map (@data R) outs) = concat (fst rp) /\
    multi_step_path x rnn_states masks
    = Ok (mkTensor [t; b; hidden_dim g] (normalize (t * b) (concat (fst rp))),
          mkTensor (shape rnn_states) (snd rp)).
Proof.
  intros Hk Hv Ht.
  destruct (valid_call_inv Hv) as (xd & h & md & -> & -> & -> & Lx & Lh & Lm).
  cbn [data shape].
  set (sel := fun i => existsb is_zero (nth i (chunks b t md) [])).
  set (bs := 0 :: filter sel (seq 1 (t - 1)) ++ [t]).
  assert (Eb : boundaries (mkTensor [t; b] md) t = Ok bs)
    by (apply boundaries_rows; lia).
  destruct (@pairs_partition sel t (t - 1) 1 0 ltac:(lia) ltac:(lia))
    as [HF HC].
  fold bs in HF, HC.
  destruct (@run_chunks_rows t b xd md (pairs bs) h HF) as (outs & E & F & C).
  rewrite <- (@run_elementwise_pairs t b) in E, C
    by (try assumption; try apply chunks_length; apply chunks_all_length; lia).
  assert (Hne : pairs bs <> []).
  { unfold bs. destruct (filter sel (seq 1 (t - 1))); discriminate. }
  assert (Em : multi_step_path (mkTensor [t; b; input_dim g] xd)
                 (mkTensor [num_layers g; b; hidden_dim g] h)
                 (mkTensor [t; b] md)
               = (r <- run_chunks (mkTensor [t; b; input_dim g] xd)
                         (mkTensor [t; b] md) (pairs bs)
                         (mkTensor [num_layers g; b; hidden_dim g] h) ;;
                  y <- cat0 (fst r) ;;
                  y <- gru_layer_norm y ;;
                  Ok (y, snd r))).
  { unfold multi_step_path, size, view2, numel.
    cbn [shape data nth_error bind fold_right].
    rewrite Nat.mul_1_r, Nat.eqb_refl. cbn [bind]. rewrite Eb. cbn [bind].
    pose proof (chunk_loop_run_chunks
                  (mkTensor [t; b; input_dim g] xd) (mkTensor [t; b] md)
                  bs [] [] (mkTensor [num_layers g; b; hidden_dim g] h)) as El.
    cbn [app length] in El. rewrite El.
    destruct (run_chunks _ _ _ _) as [[o st]|]; reflexivity. }
  split.
  - rewrite Eb. cbn [bind]. exact Em.
  - exists bs, outs. split; [exact Eb|]. cbv zeta.
    split; [exact E|]. split; [exact C|].
    rewrite Em, E. cbn [bind fst snd].
    rewrite (cat0_chunk_outputs F Hne), HC, length_seq, Nat.sub_0_r.
    cbn [bind]. rewrite layer_norm_seq by exact Hk. cbn [bind data].
    now rewrite C.
Qed.

(** *** The output of one column at one time step *)

Lemma column_of_layers (cols : list (list (list R))) j :
  Forall col_ok cols -> j < length cols ->
  column (map (fun i => map (fun c => nth i c []) cols) (seq 0 (num_layers g)))
         j
  = nth j cols [].
Proof.
  intros HF Hj. unfold column. rewrite map_map.
  rewrite (map_ext _ (fun i => nth i (nth j cols []) [])).
  - apply map_nth_seq. rewrite Forall_forall in HF.
    apply HF, nth_In, Hj.
  - intros i.
    rewrite (nth_indep _ [] (nth i [] [])) by now rewrite length_map.
    now rewrite (map_nth (fun c => nth i c [])).
Qed.

Lemma top_layer_columns b xrow h :
  0 < num_layers g ->
  length h = num_layers g * (b * hidden_dim g) ->
  chunks (hidden_dim g) b (top_layer b (gru_step b xrow h))
  = map (fun c => nth (num_layers g - 1) c []) (step_columns b xrow h).
Proof.
  intros HL Hh. unfold top_layer, gru_step, of_columns, flat3.
  pose proof (@step_columns_ok b xrow h Hh) as Hok.
  pose proof (step_columns_length b xrow h) as Hlen.
  set (cols := step_columns b xrow h) in *.
  destruct (layers_of_columns_shaped Hok Hlen) as [Hl HF].
  rewrite skipn_concat.
  2:{ rewrite Forall_map. eapply Forall_impl; [|exact HF].
      intros layer [Hb Hc]. cbv beta.
      rewrite (@concat_length_const _ (hidden_dim g)) by exact Hc.
      now rewrite Hb. }
  rewrite !skipn_map, skipn_seq.
  replace (num_layers g - (num_layers g - 1)) with 1 by lia.
  cbn [seq map concat plus]. rewrite app_nil_r.
  rewrite <- Hlen, <- (length_map (fun c : list (list R) => nth (num_layers g - 1) c []) cols).
  apply chunks_of_concat.
  rewrite Forall_map. eapply Forall_impl; [|exact Hok].
  intros c [Hcl Hc]. cbv beta. rewrite Forall_forall in Hc.
  apply Hc, nth_In. lia.
Qed.

(** The output of column [j] after a step: the top layer of what the
    recurrence makes of the input vector and the state of that column. *)
Lemma top_layer_column b xrow h j :
  0 < num_layers g -> j < b ->
  length h = num_layers g * (b * hidden_dim g) ->
  nth j (chunks (hidden_dim g) b (top_layer b (gru_step b xrow h))) []
  = nth (num_layers g - 1)
        (cell (gru_weights g) (nth j (chunks (input_dim g) b xrow) [])
              (column (unflat3 (num_layers g) b (hidden_dim g) h) j)) [].
Proof.
  intros HL Hj Hh. rewrite top_layer_columns by assumption.
  rewrite (nth_indep _ [] (nth (num_layers g - 1) [] []))
    by now rewrite length_map, step_columns_length.
  rewrite (map_nth (fun c => nth (num_layers g - 1) c [])).
  now rewrite nth_step_columns.
Qed.

(** *** The state a row is computed from *)

Lemma run_masked_outputs sel b xrows mrows h :
  0 < num_layers g ->
  length mrows = length xrows ->
  Forall (fun m => length m = b) mrows ->
  length h = num_layers g * (b * hidden_dim g) ->
  Forall (fun o => length o = b * hidden_dim g)
         (fst (run_masked sel b xrows mrows h)) /\
  length (fst (run_masked sel b xrows mrows h)) = length xrows /\
  length (snd (run_masked sel b xrows mrows h))
  = num_layers g * (b * hidden_dim g).
Proof.
  intros HL Hl HF Hh.
  destruct xrows as [|xrow xrows], mrows as [|mrow mrows];
    try discriminate; [cbn; auto|].
  rewrite run_masked_rest. cbv zeta. cbn [fst snd length].
  pose proof (Forall_inv HF) as Hm. apply Forall_inv_tail in HF.
  assert (Hh' : length (gru_step b xrow
                  (scale_columns (num_layers g) b (hidden_dim g) h mrow))
                = num_layers g * (b * hidden_dim g))
    by (apply gru_step_length; now apply scale_columns_length).
  split; [|split].
  - constructor; [now apply top_layer_length | now apply run_rest_outputs].
  - f_equal. apply run_rest_outputs_length. simpl in Hl. lia.
  - now apply run_rest_state_length.
Qed.

(** [forward] on a sequence of any length [t >= 1]. *)
Lemma forward_rows t b xd h md :
  0 < hidden_dim g -> 0 < t -> length md = t * b ->
  forward (mkTensor [t; b; input_dim g] xd)
          (mkTensor [num_layers g; b; hidden_dim g] h)
          (mkTensor [t; b] md)
  = let r := run_masked (existsb is_zero) b
               (chunks (b * input_dim g) t xd) (chunks b t md) h in
    Ok (mkTensor (if t =? 1 then [b; hidden_dim g] else [t; b; hidden_dim g])
                 (normalize (t * b) (concat (fst r))),
        mkTensor [num_layers g; b; hidden_dim g] (snd r)).
Proof.
  intros Hk Ht Lm. destruct (Nat.eqb_spec t 1) as [-> | Hne].
  - rewrite forward_step_rows by (try assumption; unfold numel; simpl; lia).
    cbv zeta. cbn [chunks data]. rewrite run_masked_rest. cbv zeta.
    cbn [run_rest fst snd concat]. rewrite app_nil_r, Nat.mul_1_l.
    rewrite (firstn_all2 (n := b) md) by lia. reflexivity.
  - rewrite forward_seq_rows by lia. reflexivity.
Qed.

(** *** Reading one vector of a tensor *)

Lemma mask_entry t b md i j :
  i < t -> j < b ->
  nth j (nth i (chunks b t md) []) zero = nth (i * b + j) md zero.
Proof.
  intros Hi Hj. rewrite chunks_nth by assumption.
  rewrite nth_firstn, (proj2 (Nat.ltb_lt j b) Hj).
  apply nth_skipn.
Qed.

Lemma chunks_normalize n d :
  (forall p v, length (ln p v) = length v) ->
  n * hidden_dim g <= length d ->
  chunks (hidden_dim g) n (normalize n d)
  = map (ln (gru_layer_norm_params g)) (chunks (hidden_dim g) n d).
Proof.
  intros Hln Hd. unfold normalize.
  rewrite <- (chunks_length (hidden_dim g) n d) at 1.
  rewrite <- (length_map (ln (gru_layer_norm_params g))).
  apply chunks_of_concat. rewrite Forall_map.
  eapply Forall_impl; [|apply chunks_all_length; exact Hd].
  intros v Hv. cbv beta. now rewrite Hln.
Qed.

(** *** The state carried into a row *)

Lemma scale_zero_resets (v : list R) :
  Forall resets v -> scale zero v = repeat zero (length v).
Proof.
  unfold scale. induction 1 as [|e v He _ IH]; [reflexivity|].
  cbn [map length repeat]. now rewrite He, IH.
Qed.

(** Where the mask entry of a column is zero and the state of the column
    holds values that a zero resets, the masked state of the column is
    the zero state. *)
Lemma column_reset_finite b h m j :
  length h = num_layers g * (b * hidden_dim g) -> length m = b -> j < b ->
  nth j m zero = zero ->
  Forall (Forall resets)
         (column (unflat3 (num_layers g) b (hidden_dim g) h) j) ->
  column (unflat3 (num_layers g) b (hidden_dim g)
                  (scale_columns (num_layers g) b (hidden_dim g) h m)) j
  = zero_state.
Proof.
  intros Hh Hm Hj Hmj Hfin.
  rewrite unflat3_scale_columns by assumption.
  pose proof (@unflat3_shaped (num_layers g) b (hidden_dim g) h Hh) as Hs.
  rewrite (@column_mask_layer _ _ _ _ m j Hs Hm Hj), Hmj.
  destruct (column_ok Hs Hj) as [Hl HF].
  remember (column (unflat3 (num_layers g) b (hidden_dim g) h) j) as col
    eqn:Ecol.
  clear Ecol. unfold zero_state. rewrite <- Hl. clear Hl.
  induction HF as [|v c Hv _ IH]; [reflexivity|].
  cbn [map length repeat].
  rewrite (scale_zero_resets (Forall_inv Hfin)), Hv.
  now rewrite (IH (Forall_inv_tail Hfin)).
Qed.

(** Row [i] is computed from the state the rows before it leave. *)
Lemma run_rest_nth_from sel b : forall i xrows mrows h,
  i < length xrows -> length mrows = length xrows ->
  nth i (fst (run_rest sel b xrows mrows h)) []
  = let hi := snd (run_rest sel b (firstn i xrows) (firstn i mrows) h) in
    top_layer b
      (gru_step b (nth i xrows [])
         (if sel (nth i mrows [])
          then scale_columns (num_layers g) b (hidden_dim g) hi
                             (nth i mrows [])
          else hi)).
Proof.
  induction i as [|i IH]; intros [|xrow xrows] [|mrow mrows] h Hi Hl;
    simpl in Hi, Hl; try lia; cbv zeta.
  - rewrite run_rest_cons. reflexivity.
  - cbn [firstn nth]. rewrite !run_rest_cons. cbv zeta. cbn [fst snd nth].
    apply IH; lia.
Qed.

Lemma run_masked_nth_from sel b i xrows mrows h :
  i < length xrows -> length mrows = length xrows ->
  i = 0 \/ sel (nth i mrows []) = true ->
  nth i (fst (run_masked sel b xrows mrows h)) []
  = top_layer b
      (gru_step b (nth i xrows [])
         (scale_columns (num_layers g) b (hidden_dim g)
            (snd (run_masked sel b (firstn i xrows) (firstn i mrows) h))
            (nth i mrows []))).
Proof.
  intros Hi Hl Hsel.
  destruct xrows as [|xrow xrows]; [simpl in Hi; lia|].
  destruct mrows as [|mrow mrows]; [discriminate|].
  destruct i as [|i].
  - rewrite run_masked_rest. reflexivity.
  - destruct Hsel as [Hsel | Hsel]; [discriminate|].
    cbn [firstn nth] in *. rewrite !run_masked_rest. cbv zeta.
    cbn [fst snd nth].
    rewrite run_rest_nth_from by (simpl in Hi, Hl; lia). cbv zeta.
    now rewrite Hsel.
Qed.

(** [state_before] on the rows: the state the rows before row [i]
    leave. *)
Lemma state_before_rows t b xd h md i :
  0 < hidden_dim g -> i <= t -> length md = t * b ->
  state_before i (mkTensor [t; b; input_dim g] xd)
               (mkTensor [num_layers g; b; hidden_dim g] h)
               (mkTensor [t; b] md)
  = Ok (mkTensor [num_layers g; b; hidden_dim g]
          (snd (run_masked (existsb is_zero) b
                  (firstn i (chunks (b * input_dim g) t xd))
                  (firstn i (chunks b t md)) h))).
Proof.
  intros Hk Hi Lm. destruct i as [|i]; [reflexivity|].
  unfold state_before.
  rewrite slice0_rows by lia. cbn [bind].
  unfold slice0. cbn [shape data fold_right].
  replace (Nat.min 0 t) with 0 by lia.
  replace (Nat.max 0 (Nat.min (S i) t)) with (S i) by lia.
  rewrite !Nat.sub_0_r, !Nat.mul_0_l, Nat.mul_1_r. cbn [skipn bind].
  rewrite forward_rows
    by (try assumption; try lia; rewrite length_firstn; nia).
  cbv zeta. cbn [bind].
  rewrite !chunks_prefix by lia.
  rewrite !chunks_firstn.
  now replace (Nat.min (S i) t) with (S i) by lia.
Qed.

(** C4 (mask-zero reset), for a state of finite values.  If the mask
    entry of column [j] at time step [i] is zero, and the state carried
    into step [i] holds in column [j] only values that a zero resets
    (finite values: their product with zero is zero), the output of
    [forward] at that step for that column is the normalized top layer of
    what the recurrence makes of the input vector [x[i, j, :]] and the
    zero state: it does not depend on the state carried in, so that two
    calls which differ in the hidden state only, both with such a state
    before step [i], agree on it. *)
Theorem mask_zero_reset t b (x rnn_states rnn_states' masks : tensor) i j
    (c c' : tensor)
    (is_zero_zero : is_zero zero = true)
    (ln_length : forall p v, length (ln p v) = length v) :
  valid_config ->
  valid_call t b x rnn_states masks ->
  valid_call t b x rnn_states' masks ->
  i < t -> j < b ->
  nth (i * b + j) (data masks) one = zero ->
  state_before i x rnn_states masks = Ok c ->
  Forall (Forall resets) (state_column b j c) ->
  state_before i x rnn_states' masks = Ok c' ->
  Forall (Forall resets) (state_column b j c') ->
  exists y st y' st' : tensor,
    forward x rnn_states masks = Ok (y, st) /\
    forward x rnn_states' masks = Ok (y', st') /\
    feature (hidden_dim g) y (i * b + j)
    = ln (gru_layer_norm_params g)
         (nth (num_layers g - 1)
              (cell (gru_weights g) (feature (input_dim g) x (i * b + j))
                    zero_state) []) /\
    feature (hidden_dim g) y' (i * b + j)
    = feature (hidden_dim g) y (i * b + j).
Proof.
  intros (Hd & Hk & HL) Hv Hv' Hi Hj Hmask Hc Hfin Hc' Hfin'.
  assert (Hone : forall h (cs : tensor),
    length h = num_layers g * (b * hidden_dim g) ->
    forall xd md,
    length md = t * b ->
    nth (i * b + j) md one = zero ->
    state_before i (mkTensor [t; b; input_dim g] xd)
                 (mkTensor [num_layers g; b; hidden_dim g] h)
                 (mkTensor [t; b] md) = Ok cs ->
    Forall (Forall resets) (state_column b j cs) ->
    exists y st : tensor,
      forward (mkTensor [t; b; input_dim g] xd)
              (mkTensor [num_layers g; b; hidden_dim g] h)
              (mkTensor [t; b] md) = Ok (y, st) /\
      feature (hidden_dim g) y (i * b + j)
      = ln (gru_layer_norm_params g)
           (nth (num_layers g - 1)
                (cell (gru_weights g)
                      (feature (input_dim g)
                               (mkTensor [t; b; input_dim g] xd) (i * b + j))
                      zero_state) [])).
  { intros h cs Lh xd md Lm Hm Hcs Hfcs.
    assert (Hp : i * b + j < t * b) by nia.
    rewrite state_before_rows in Hcs by (try assumption; lia).
    injection Hcs as <-. unfold state_column in Hfcs. cbn [data] in Hfcs.
    rewrite forward_rows by (try assumption; lia). cbv zeta.
    set (xrows := chunks (b * input_dim g) t xd) in *.
    set (mrows := chunks b t md) in *.
    assert (HF : Forall (fun m => length m = b) mrows)
      by (apply chunks_all_length; lia).
    assert (Hlm : length mrows = length xrows)
      by (unfold mrows, xrows; now rewrite !chunks_length).
    assert (Lxs : length xrows = t) by apply chunks_length.
    destruct (@run_masked_outputs (existsb is_zero) b xrows mrows h
                HL Hlm HF Lh) as (Hout & Hlen & _).
    assert (Hlen' : length (fst (run_masked (existsb is_zero) b xrows mrows h))
                    = t)
      by (rewrite Hlen; apply chunks_length).
    eexists _, _. split; [reflexivity|].
    unfold feature. cbn [data].
    rewrite <- (chunks_nth (hidden_dim g) (normalize (t * b) _) Hp).
    rewrite chunks_normalize
      by (try assumption;
          rewrite (@concat_length_const _ (b * hidden_dim g)) by exact Hout;
          rewrite Hlen'; lia).
    rewrite (nth_indep _ [] (ln (gru_layer_norm_params g) []))
      by (rewrite length_map, chunks_length; exact Hp).
    rewrite map_nth. f_equal.
    rewrite nth_chunks_concat by (try assumption; lia).
    assert (Hmij : nth j (nth i mrows []) zero = zero).
    { unfold mrows. rewrite mask_entry by assumption.
      rewrite (nth_indep _ zero one) by lia. exact Hm. }
    assert (Hsel : existsb is_zero (nth i mrows []) = true).
    { apply existsb_exists. exists zero. split; [|exact is_zero_zero].
      rewrite <- Hmij. apply nth_In.
      rewrite Forall_forall in HF. rewrite (HF (nth i mrows [])); [exact Hj|].
      apply nth_In. unfold mrows. now rewrite chunks_length. }
    rewrite run_masked_nth_from by (try lia; now right).
    set (hi := snd (run_masked (existsb is_zero) b (firstn i xrows)
                      (firstn i mrows) h)) in *.
    assert (Lhi : length hi = num_layers g * (b * hidden_dim g)).
    { unfold hi.
      apply (@run_masked_outputs (existsb is_zero) b (firstn i xrows)
               (firstn i mrows) h HL); try assumption.
      - rewrite !length_firstn. lia.
      - unfold mrows. rewrite chunks_firstn. apply chunks_all_length. nia. }
    assert (Lmi : length (nth i mrows []) = b).
    { rewrite Forall_forall in HF. apply HF, nth_In.
      unfold mrows. now rewrite chunks_length. }
    rewrite top_layer_column
      by (try assumption; now apply scale_columns_length).
    rewrite column_reset_finite by assumption.
    unfold xrows. now rewrite input_vector by assumption. }
  destruct (valid_call_inv Hv) as (xd & h & md & -> & -> & -> & Lx & Lh & Lm).
  destruct (valid_call_inv Hv')
    as (xd' & h' & md' & Ex & -> & Em & _ & Lh' & _).
  cbn [data] in Hmask.
  destruct (Hone h c Lh xd md Lm Hmask Hc Hfin) as (y & st & Ey & Fy).
  destruct (Hone h' c' Lh' xd md Lm Hmask Hc' Hfin') as (y' & st' & Ey' & Fy').
  exists y, st, y', st'. repeat split; try assumption.
  now rewrite Fy, Fy'.
Qed.

(** *** The shape assertions *)

Lemma bind_ok (A B : Type) (c : result A) (k : A -> result B) (v : B) :
  bind c k = Ok v -> exists a, c = Ok a /\ k a = Ok v.
Proof. destruct c as [a|e]; simpl; [eauto | discriminate]. Qed.

Lemma bind_assoc (A B C : Type) (c : result A) (k1 : A -> result B)
    (k2 : B -> result C) :
  bind (bind c k1) k2 = bind c (fun a => bind (k1 a) k2).
Proof. now destruct c. Qed.

Lemma assert_eq_ok (dn : dim_name) expected got :
  assert_eq dn expected got = Ok tt -> got = expected.
Proof.
  unfold assert_eq. destruct (Nat.eqb_spec got expected); [auto | discriminate].
Qed.

Lemma size_ok (y : tensor) i n :
  size y i = Ok n -> nth_error (shape y) i = Some n.
Proof. unfold size. destruct (nth_error (shape y) i); congruence. Qed.

(** The promotion of [x], which succeeds when the feature size is the
    configured, positive one. *)
Lemma promote_ok (x x' : tensor) :
  (if dim x =? 2 then
     d <- size x 1 ;;
     _ <- assert_eq InputDim (input_dim g) d ;;
     view_1_infer (input_dim g) x
   else
     _ <- assert_eq XRank 3 (dim x) ;;
     d <- size x 2 ;;
     _ <- assert_eq InputDim (input_dim g) d ;;
     Ok x) = Ok x' ->
  ((dim x =? 2) || (dim x =? 3)) = true /\
  last (shape x) 0 = input_dim g /\
  nth_error (shape x') 1 = Some (batch_of x).
Proof.
  destruct x as [xs xd]. unfold dim, size, batch_of. cbn [shape data].
  destruct xs as [|a [|b [|c [|d xs]]]]; cbn [length Nat.eqb];
    intros H.
  - apply bind_ok in H as ([] & H & _). apply assert_eq_ok in H. discriminate.
  - apply bind_ok in H as ([] & H & _). apply assert_eq_ok in H. discriminate.
  - cbn [nth_error bind] in H. apply bind_ok in H as ([] & H1 & H2).
    apply assert_eq_ok in H1. subst b.
    unfold view_1_infer, numel in H2. cbn [shape data fold_right] in H2.
    destruct (Nat.eqb_spec (input_dim g) 0) as [|Hpos]; [discriminate|].
    rewrite Nat.mul_1_r, Nat.Div0.mod_mul, Nat.div_mul in H2 by exact Hpos.
    cbn [Nat.eqb] in H2. injection H2 as <-.
    cbn [orb last shape nth_error Nat.sub nth dim length]. auto.
  - cbn [nth_error bind] in H. apply bind_ok in H as ([] & _ & H).
    apply bind_ok in H as ([] & H1 & H2).
    apply assert_eq_ok in H1. subst c. injection H2 as <-.
    cbn [orb last shape nth_error Nat.sub nth dim length]. auto.
  - apply bind_ok in H as ([] & H & _). apply assert_eq_ok in H.
    cbn [length] in H. lia.
Qed.

Lemma check_shapes_contract (x rnn_states x' : tensor) :
  check_shapes x rnn_states = Ok x' -> contract_ok x rnn_states = true.
Proof.
  unfold check_shapes, contract_ok. intros H.
  apply bind_ok in H as (x1 & Hx & H).
  apply promote_ok in Hx as (Hr & Hf & Hb).
  apply bind_ok in H as (l & Hl & H). apply size_ok in Hl.
  apply bind_ok in H as ([] & Al & H). apply assert_eq_ok in Al.
  apply bind_ok in H as (k & Hk & H). apply size_ok in Hk.
  apply bind_ok in H as ([] & Ak & H). apply assert_eq_ok in Ak.
  apply bind_ok in H as (bx & Hbx & H). apply size_ok in Hbx.
  apply bind_ok in H as (bh & Hbh & H). apply size_ok in Hbh.
  apply bind_ok in H as ([] & Ab & _). apply assert_eq_ok in Ab.
  rewrite Hb in Hbx. injection Hbx as <-.
  rewrite Hr, Hf, Nat.eqb_refl.
  rewrite (nth_error_nth _ _ 0 Hl), (nth_error_nth _ _ 0 Hk),
    (nth_error_nth _ _ 0 Hbh).
  subst. now rewrite !Nat.eqb_refl.
Qed.

(** The assertions report the first violation of the contract, with the
    name of the dimension, the expected and the received size. *)
Lemma check_shapes_first_violation (x rnn_states : tensor) dn expected got :
  0 < input_dim g -> 3 <= dim rnn_states ->
  first_violation x rnn_states = Some (dn, expected, got) ->
  check_shapes x rnn_states = Err (AssertionError dn expected got) /\
  expected <> got.
Proof.
  intros Hpos Hrank. destruct x as [xs xd], rnn_states as [hs hd].
  unfold first_violation, check_shapes, batch_of, dim, size in *.
  cbn [shape data] in *.
  destruct hs as [|l [|b' [|k hs]]]; cbn [length] in Hrank; try lia.
  cbn [nth nth_error].
  assert (Hrest : forall (x1 : tensor) a,
    nth_error (shape x1) 1 = Some a ->
    (if negb (l =? num_layers g)
     then Some (Layers, num_layers g, l)
     else if negb (k =? hidden_dim g)
     then Some (HiddenDim, hidden_dim g, k)
     else if negb (b' =? a)
     then Some (BatchSize, a, b')
     else None) = Some (dn, expected, got) ->
    (l0 <- Ok l ;;
     _ <- assert_eq Layers (num_layers g) l0 ;;
     k0 <- Ok k ;;
     _ <- assert_eq HiddenDim (hidden_dim g) k0 ;;
     batch_size <- match nth_error (shape x1) 1 with
                   | Some n => Ok n
                   | None => Err IndexError
                   end ;;
     b0 <- Ok b' ;;
     _ <- assert_eq BatchSize batch_size b0 ;; Ok x1)
    = Err (AssertionError dn expected got) /\ expected <> got).
  { intros x1 a Ha H. rewrite Ha. cbn [bind]. unfold assert_eq.
    destruct (Nat.eqb_spec l (num_layers g)) as [El|Nl]; cbn [negb bind] in *.
    - destruct (Nat.eqb_spec k (hidden_dim g)) as [Ek|Nk];
        cbn [negb bind] in *.
      + destruct (Nat.eqb_spec b' a) as [Eb|Nb]; cbn [negb bind] in *.
        * discriminate.
        * injection H as <- <- <-. split; [reflexivity | congruence].
      + injection H as <- <- <-. split; [reflexivity | congruence].
    - injection H as <- <- <-. split; [reflexivity | congruence]. }
  destruct xs as [|a [|b [|c [|d xs]]]];
    cbn [length Nat.eqb orb negb last nth nth_error Nat.sub bind]; intros H.
  - injection H as <- <- <-. split; [reflexivity | discriminate].
  - injection H as <- <- <-. split; [reflexivity | discriminate].
  - unfold assert_eq at 1.
    destruct (Nat.eqb_spec b (input_dim g)) as [Eb|Nb]; cbn [negb bind] in *.
    + subst b. unfold view_1_infer, numel. cbn [shape data fold_right].
      rewrite (proj2 (Nat.eqb_neq (input_dim g) 0)) by lia.
      rewrite Nat.mul_1_r, Nat.Div0.mod_mul, Nat.div_mul by lia.
      cbn [Nat.eqb bind].
      apply (Hrest (mkTensor [1; a; input_dim g] xd) a); [reflexivity|].
      exact H.
    + injection H as <- <- <-. split; [reflexivity | congruence].
  - unfold assert_eq at 1. cbn [Nat.eqb bind].
    unfold assert_eq at 1.
    destruct (Nat.eqb_spec c (input_dim g)) as [Ec|Nc]; cbn [negb bind] in *.
    + apply (Hrest (mkTensor [a; b; c] xd) b); [reflexivity | exact H].
    + injection H as <- <- <-. split; [reflexivity | congruence].
  - injection H as <- <- <-. unfold assert_eq. cbn [length Nat.eqb bind].
    split; [reflexivity | cbn; lia].
Qed.

Lemma first_violation_none (x rnn_states : tensor) :
  first_violation x rnn_states = None -> contract_ok x rnn_states = true.
Proof.
  unfold first_violation, contract_ok.
  destruct ((dim x =? 2) || (dim x =? 3)); cbn [negb andb]; [|discriminate].
  destruct (last (shape x) 0 =? input_dim g); cbn [negb andb];
    [|discriminate].
  destruct (nth 0 (shape rnn_states) 0 =? num_layers g); cbn [negb andb];
    [|discriminate].
  destruct (nth 2 (shape rnn_states) 0 =? hidden_dim g); cbn [negb andb];
    [|discriminate].
  destruct (nth 1 (shape rnn_states) 0 =? batch_of x); cbn [negb andb];
    [reflexivity | discriminate].
Qed.

(** C5, as the code has it (the contract of [x] and [rnn_states]).  A
    call whose [x] is not of rank 2 or 3, or whose feature size, layer
    count, hidden size or batch size of [x] and [rnn_states] is not the
    one of the contract, fails in the assertions that open [forward],
    whatever the mask: no recurrence or normalization is computed and
    nothing is returned.  When [rnn_states] has at least the three axes
    the assertions read, the error is the assertion error of the first
    violation of the contract: it names that dimension, with the size
    the contract expects and the size received, which differ. *)
Theorem contract_violation_fails (x rnn_states : tensor) :
  0 < input_dim g ->
  contract_ok x rnn_states = false ->
  exists e,
    check_shapes x rnn_states = Err e /\
    (forall masks, forward x rnn_states masks = Err e) /\
    (3 <= dim rnn_states ->
     exists dn expected got,
       first_violation x rnn_states = Some (dn, expected, got) /\
       e = AssertionError dn expected got /\ expected <> got).
Proof.
  intros Hpos Hbad.
  destruct (check_shapes x rnn_states) as [x'|e] eqn:E.
  - apply check_shapes_contract in E. congruence.
  - exists e. split; [reflexivity|]. split.
    + intros masks. unfold forward. now rewrite E.
    + intros Hrank.
      destruct (first_violation x rnn_states) as [[[dn expected] got]|] eqn:F.
      * destruct (@check_shapes_first_violation x rnn_states dn expected got
                    Hpos Hrank F) as [E' Hne].
        exists dn, expected, got. repeat split; [congruence | exact Hne].
      * apply first_violation_none in F. congruence.
Qed.

Lemma normalize_length n d :
  (forall p v, length (ln p v) = length v) ->
  n * hidden_dim g <= length d ->
  length (normalize n d) = n * hidden_dim g.
Proof.
  intros Hln Hd. unfold normalize.
  rewrite (@concat_length_const _ (hidden_dim g)).
  - now rewrite length_map, chunks_length.
  - rewrite Forall_map.
    eapply Forall_impl; [|apply chunks_all_length; exact Hd].
    intros v Hv. cbv beta. now rewrite Hln.
Qed.

(** C6, as the code has it (shape propagation).  On operands of the sizes
    of the contract, [forward] returns an output and a state; the state
    has the shape of the state it was given; the output of a sequence of
    more than one step has the time length and the batch size of the
    input and [hidden_dim] features, and the output of a sequence of one
    step has no time axis: its shape is [(batch, hidden_dim)].  Both
    hold as many elements as their shapes say. *)
Theorem output_shapes t b (x rnn_states masks : tensor)
    (ln_length : forall p v, length (ln p v) = length v) :
  valid_config -> valid_call t b x rnn_states masks -> 0 < t ->
  exists y st : tensor,
    forward x rnn_states masks = Ok (y, st) /\
    shape y = (if t =? 1 then [b; hidden_dim g] else [t; b; hidden_dim g]) /\
    shape st = shape rnn_states /\
    wf y /\ wf st.
Proof.
  intros (Hd & Hk & HL) Hv Ht.
  destruct (valid_call_inv Hv) as (xd & h & md & -> & -> & -> & Lx & Lh & Lm).
  rewrite forward_rows by assumption. cbv zeta.
  set (xrows := chunks (b * input_dim g) t xd).
  set (mrows := chunks b t md).
  assert (HF : Forall (fun m => length m = b) mrows)
    by (apply chunks_all_length; lia).
  assert (Hlm : length mrows = length xrows)
    by (unfold mrows, xrows; now rewrite !chunks_length).
  destruct (@run_masked_outputs (existsb is_zero) b xrows mrows h
              HL Hlm HF Lh) as (Hout & Hlen & Hst).
  unfold xrows in Hlen at 2. rewrite chunks_length in Hlen.
  eexists _, _. split; [reflexivity|]. cbn [shape].
  split; [reflexivity|]. split; [reflexivity|].
  unfold wf, numel. cbn [shape data]. split.
  - rewrite normalize_length
      by (try assumption;
          rewrite (@concat_length_const _ (b * hidden_dim g)) by exact Hout;
          rewrite Hlen; lia).
    destruct (Nat.eqb_spec t 1) as [-> | _]; cbn [fold_right]; lia.
  - rewrite Hst. cbn [fold_right]. lia.
Qed.

(** *** The single-step form of the input *)

Lemma check_shapes_promote b c xd (rnn_states : tensor) :
  0 < input_dim g ->
  check_shapes (mkTensor [b; c] xd) rnn_states
  = check_shapes (mkTensor [1; b; c] xd) rnn_states.
Proof.
  intros Hpos. unfold check_shapes, dim, size.
  cbn [shape length Nat.eqb nth_error bind].
  destruct (assert_eq InputDim (input_dim g) c) as [[]|e] eqn:A;
    [|reflexivity].
  apply assert_eq_ok in A. subst c. cbn [bind].
  unfold view_1_infer, numel. cbn [shape data fold_right].
  rewrite (proj2 (Nat.eqb_neq (input_dim g) 0)) by lia.
  rewrite Nat.mul_1_r, Nat.Div0.mod_mul, Nat.div_mul by lia.
  reflexivity.
Qed.

Lemma check_shapes_seq_result b c xd (rnn_states x' : tensor) :
  check_shapes (mkTensor [1; b; c] xd) rnn_states = Ok x' ->
  x' = mkTensor [1; b; c] xd.
Proof.
  unfold check_shapes, dim, size.
  cbn [shape length Nat.eqb nth_error bind]. intros H.
  apply bind_ok in H as (x1 & H1 & H).
  repeat (apply bind_ok in H1 as (? & _ & H1)). injection H1 as <-.
  repeat (apply bind_ok in H as (? & _ & H)).
  now injection H as <-.
Qed.

(** C7 (single-step input auto-promotion).  A call with [x] of shape
    [(batch, input_dim)] and a mask of shape [(batch,)] returns what the
    call with the same contents as a sequence of length one, of shape
    [(1, batch, input_dim)], and the mask of shape [(1, batch)] returns:
    the same output and state, or the same error. *)
Theorem single_step_promotion b c xd md (rnn_states : tensor) :
  0 < input_dim g ->
  forward (mkTensor [b; c] xd) rnn_states (mkTensor [b] md)
  = forward (mkTensor [1; b; c] xd) rnn_states (mkTensor [1; b] md).
Proof.
  intros Hpos. unfold forward.
  rewrite check_shapes_promote by exact Hpos.
  destruct (check_shapes (mkTensor [1; b; c] xd) rnn_states) as [x'|e] eqn:E;
    [|reflexivity].
  apply check_shapes_seq_result in E. subst x'.
  cbn [bind size shape nth_error Nat.eqb].
  unfold single_step_path, view_1_infer, numel.
  cbn [shape data fold_right Nat.eqb].
  now rewrite Nat.mul_1_l.
Qed.

(** C8 (dropout only between layers).  The dropout probability handed to
    the recurrence is the configured one when the module has more than
    one layer and zero otherwise, whatever was configured; with one layer
    it is zero. *)
Theorem dropout_only_between_layers (input hidden layers : nat) (dropout : R)
    (w : W) (p : P) :
  gru_dropout (init zero input hidden layers dropout w p)
  = (if 1 <? layers then dropout else zero) /\
  gru_dropout (init zero input hidden 1 dropout w p) = zero /\
  gru_dropout (init zero input hidden (S (S layers)) dropout w p) = dropout /\
  num_layers (init zero input hidden layers dropout w p) = layers.
Proof. repeat split. Qed.

(** C10, as the code has it (the mask as a factor).  Wherever [forward]
    applies a mask row to the carried state, the state of every column is
    the carried one with each element multiplied by the mask entry of the
    column, whatever the value of the entry, and no mask value makes the
    call fail.  The rows so applied are the only row of a single step
    and, for a longer sequence, the first row and the later rows that
    hold a zero in some column. *)
Theorem mask_scales_state t b (x rnn_states masks : tensor) j :
  valid_config -> valid_call t b x rnn_states masks -> 0 < t -> j < b ->
  (forall h m,
     length h = num_layers g * (b * hidden_dim g) -> length m = b ->
     column (unflat3 (num_layers g) b (hidden_dim g)
                     (scale_columns (num_layers g) b (hidden_dim g) h m)) j
     = map (scale (nth j m zero))
           (column (unflat3 (num_layers g) b (hidden_dim g) h) j)) /\
  (let r := run_masked (existsb is_zero) b
              (chunks (b * input_dim g) t (data x))
              (chunks b t (data masks)) (data rnn_states) in
   forward x rnn_states masks
   = Ok (mkTensor (if t =? 1 then [b; hidden_dim g]
                   else [t; b; hidden_dim g])
                  (normalize (t * b) (concat (fst r))),
         mkTensor (shape rnn_states) (snd r))) /\
  (t = 1 ->
   let h' := gru_step b (data x)
               (scale_columns (num_layers g) b (hidden_dim g)
                              (data rnn_states) (data masks)) in
   forward x rnn_states masks
   = Ok (mkTensor [b; hidden_dim g] (normalize b (top_layer b h')),
         mkTensor (shape rnn_states) h')).
Proof.
  intros (Hd & Hk & HL) Hv Ht Hj.
  destruct (valid_call_inv Hv) as (xd & h & md & -> & -> & -> & Lx & Lh & Lm).
  cbn [data shape]. split; [|split].
  - intros h0 m Lh0 Lm0.
    rewrite unflat3_scale_columns by assumption.
    apply column_mask_layer
      with (a := num_layers g) (b := b) (c := hidden_dim g);
      try assumption.
    now apply unflat3_shaped.
  - now apply forward_rows.
  - intros ->. rewrite forward_step_rows
      by (try assumption; unfold numel; simpl; lia).
    cbv zeta. cbn [data].
    now rewrite (firstn_all2 (n := b * input_dim g) xd) by lia.
Qed.

(** ** Further properties of [forward] *)

(** *** How the mask is read *)

(** [forward] reads the mask through [view] only: two masks with the same
    number of elements and the same contents, whatever their shapes
    ([(T, B, 1)], [(T, B)], flat), give the same result or the same
    error. *)
Theorem mask_read_by_contents (x rnn_states masks masks' : tensor) :
  numel masks = numel masks' -> data masks = data masks' ->
  forward x rnn_states masks = forward x rnn_states masks'.
Proof.
  intros Hn Hc. unfold forward.
  destruct (check_shapes x rnn_states) as [x'|e]; [|reflexivity].
  cbn [bind]. destruct (size x' 0) as [t|e]; [|reflexivity].
  cbn [bind]. cbv zeta. destruct (t =? 1).
  - unfold single_step_path, view_1_infer. now rewrite Hn, Hc.
  - unfold multi_step_path, view2.
    destruct (size x' 0) as [seq_len|e]; [|reflexivity]. cbn [bind].
    destruct (size x' 1) as [batch_size|e]; [|reflexivity]. cbn [bind].
    now rewrite Hn, Hc.
Qed.

Lemma map_combine_repeat (A B C : Type) (f : A * B -> C) (l : list A)
    (e : B) n :
  length l = n ->
  map f (combine l (repeat e n)) = map (fun a => f (a, e)) l.
Proof.
  intros <-. induction l as [|a l IH]; [reflexivity|].
  cbn [length repeat combine map]. now rewrite IH.
Qed.

Lemma scale_columns_repeat a b c h (e : R) :
  length h = a * (b * c) ->
  scale_columns a b c h (repeat e b) = scale e h.
Proof.
  intros Hh. unfold scale_columns.
  destruct (@unflat3_shaped a b c h Hh) as [_ HF].
  rewrite (map_ext_in _ (map (scale e))).
  - unfold flat3. rewrite map_map.
    rewrite (map_ext _ (fun layer => map (fun v => mul v e) (concat layer)))
      by (intros layer; symmetry; apply concat_map).
    rewrite <- map_map, <- concat_map.
    fold (flat3 (unflat3 a b c h)). now rewrite flat3_unflat3.
  - intros layer Hin. rewrite Forall_forall in HF.
    destruct (HF _ Hin) as [Hb _].
    now rewrite (@map_combine_repeat _ _ _ _ layer e b Hb).
Qed.

(** In the single-step path a mask of one element is broadcast: its
    entry multiplies the state of every batch column, as the mask that
    repeats the entry for each column does. *)
Theorem single_step_mask_broadcast b xd h (ms : list nat) (e : R) :
  0 < hidden_dim g ->
  length h = num_layers g * (b * hidden_dim g) ->
  fold_right Nat.mul 1 ms = 1 ->
  forward (mkTensor [1; b; input_dim g] xd)
          (mkTensor [num_layers g; b; hidden_dim g] h) (mkTensor ms [e])
  = forward (mkTensor [1; b; input_dim g] xd)
            (mkTensor [num_layers g; b; hidden_dim g] h)
            (mkTensor [b] (repeat e b)).
Proof.
  intros Hk Hh Hms.
  rewrite (@forward_step_rows b xd h (mkTensor [b] (repeat e b)))
    by (try assumption; unfold numel; simpl; lia).
  cbv zeta. cbn [data]. rewrite scale_columns_repeat by exact Hh.
  unfold forward. rewrite check_shapes_seq.
  cbn [bind size shape nth_error Nat.eqb].
  unfold single_step_path, view_1_infer, numel. cbn [shape data Nat.eqb].
  rewrite Hms. cbn [Nat.modulo Nat.divmod Nat.div fst snd Nat.eqb Nat.sub bind].
  unfold mul_states. cbn [shape data nth].
  destruct (Nat.eqb_spec 1 b) as [<- | Hb].
  - cbn [bind].
    change [e] with (repeat e 1). rewrite scale_columns_repeat by exact Hh.
    rewrite gru_rows. cbv zeta. cbn [chunks]. rewrite gru_seq_one.
    cbn [bind fst snd concat]. rewrite app_nil_r.
    unfold squeeze0. cbn [shape data].
    rewrite layer_norm_step by exact Hk. reflexivity.
  - cbn [Nat.eqb bind].
    rewrite gru_rows. cbv zeta. cbn [chunks]. rewrite gru_seq_one.
    cbn [bind fst snd concat]. rewrite app_nil_r.
    unfold squeeze0. cbn [shape data].
    rewrite layer_norm_step by exact Hk. reflexivity.
Qed.

(** In the single-step path a mask whose number of elements is neither
    the batch size nor one makes the call fail with a runtime error: no
    output is returned. *)
Theorem single_step_mask_mismatch b xd h (masks : tensor) :
  numel masks <> b -> numel masks <> 1 ->
  forward (mkTensor [1; b; input_dim g] xd)
          (mkTensor [num_layers g; b; hidden_dim g] h) masks
  = Err RuntimeError.
Proof.
  intros Hb H1. unfold forward. rewrite check_shapes_seq.
  cbn [bind size shape nth_error Nat.eqb].
  unfold single_step_path, view_1_infer. cbn [Nat.eqb].
  rewrite Nat.mod_1_r, Nat.div_1_r. cbn [Nat.eqb bind].
  unfold mul_states. cbn [shape data].
  rewrite (proj2 (Nat.eqb_neq _ _) Hb), (proj2 (Nat.eqb_neq _ _) H1).
  destruct (b =? 1); [|reflexivity].
  cbn [bind]. unfold gru. cbn [shape data].
  rewrite (proj2 (Nat.eqb_neq _ _) Hb), !Nat.eqb_refl. reflexivity.
Qed.

(** In the multi-step path a mask that does not hold [time * batch]
    elements makes the call fail with a runtime error. *)
Theorem multi_step_mask_mismatch t b xd h (masks : tensor) :
  t <> 1 -> numel masks <> t * b ->
  forward (mkTensor [t; b; input_dim g] xd)
          (mkTensor [num_layers g; b; hidden_dim g] h) masks
  = Err RuntimeError.
Proof.
  intros Ht Hn. unfold forward. rewrite check_shapes_seq.
  cbn [bind size shape nth_error].
  rewrite (proj2 (Nat.eqb_neq t 1) Ht).
  unfold multi_step_path, size, view2. cbn [shape nth_error bind].
  now rewrite (proj2 (Nat.eqb_neq _ _) Hn).
Qed.

(** An empty sequence (no time step, an empty mask) is not a no-op: the
    boundary list is [[0; 0]], and reading the mask row of the one chunk
    fails with an index error. *)
Theorem empty_sequence_fails b xd h (masks : tensor) :
  numel masks = 0 ->
  boundaries (mkTensor [0; b] (data masks)) 0 = Ok [0; 0] /\
  forward (mkTensor [0; b; input_dim g] xd)
          (mkTensor [num_layers g; b; hidden_dim g] h) masks
  = Err IndexError.
Proof.
  intros Hn. split; [reflexivity|].
  unfold forward. rewrite check_shapes_seq.
  cbn [bind size shape nth_error Nat.eqb].
  unfold multi_step_path, size, view2. cbn [shape nth_error bind].
  rewrite Hn. reflexivity.
Qed.

(** *** The rank of the state *)

(** The assertions read sizes 0, 2 and 1 of [rnn_states] without an
    assertion on its rank.  A state with fewer than three axes whose
    layer count, if it has one, is the configured one does not fail in an
    assertion that names a dimension: it fails with an index error. *)
Theorem state_rank_too_low t b xd (rnn_states masks : tensor) :
  dim rnn_states < 3 ->
  nth 0 (shape rnn_states) (num_layers g) = num_layers g ->
  forward (mkTensor [t; b; input_dim g] xd) rnn_states masks
  = Err IndexError.
Proof.
  intros Hr Hl. destruct rnn_states as [hs hd].
  unfold dim in Hr. cbn [shape] in *.
  unfold forward, check_shapes, dim, size.
  cbn [shape length Nat.eqb nth_error bind].
  rewrite !assert_eq_refl. cbn [bind].
  destruct hs as [|l [|b' [|k hs]]]; cbn [length] in Hr; try lia;
    cbn [nth] in Hl; cbn [nth_error bind]; try reflexivity;
    subst l; rewrite assert_eq_refl; reflexivity.
Qed.

(** A state with more than three axes whose first three sizes are the
    ones of the contract passes every assertion, and the call fails with
    a runtime error afterwards: in the view of the mask, in the product
    of the state by the mask or in the recurrence, which takes a state
    of three axes. *)
Theorem state_rank_too_high t b xd hd (r : nat) (rest : list nat)
    (masks : tensor) :
  0 < t ->
  forward (mkTensor [t; b; input_dim g] xd)
          (mkTensor (num_layers g :: b :: hidden_dim g :: r :: rest) hd)
          masks
  = Err RuntimeError.
Proof.
  intros Ht.
  assert (Ec : check_shapes (mkTensor [t; b; input_dim g] xd)
                 (mkTensor (num_layers g :: b :: hidden_dim g :: r :: rest) hd)
               = Ok (mkTensor [t; b; input_dim g] xd)).
  { unfold check_shapes, dim, size.
    repeat progress (rewrite ?assert_eq_refl;
                     cbn [shape length Nat.eqb nth_error bind]).
    reflexivity. }
  unfold forward. rewrite Ec. cbn [bind size shape nth_error].
  destruct (Nat.eqb_spec t 1) as [-> | Hne].
  - unfold single_step_path, view_1_infer. cbn [Nat.eqb].
    rewrite Nat.mod_1_r. cbn [Nat.eqb bind]. reflexivity.
  - unfold multi_step_path, size, view2. cbn [shape nth_error bind].
    destruct (numel masks =? t * b); [|reflexivity]. cbn [bind].
    rewrite boundaries_rows by lia. cbn [bind].
    set (splits := filter _ (seq 1 (t - 1))).
    replace (length (0 :: splits ++ [t]) - 1) with (S (length splits))
      by (cbn [length]; rewrite length_app; simpl; lia).
    cbn [seq chunk_loop]. unfold list_get.
    cbn [nth_error Nat.add].
    destruct (splits ++ [t]) as [|e l] eqn:E;
      [destruct splits; discriminate|].
    cbn [bind].
    rewrite index0_mask_row by lia. cbn [bind].
    rewrite view_mask_row. cbn [bind]. reflexivity.
Qed.

(** *** Sequences without an episode boundary inside *)

Lemma run_rest_none sel b xrows : forall mrows h,
  length mrows = length xrows ->
  Forall (fun mrow => sel mrow = false) mrows ->
  run_rest sel b xrows mrows h = gru_seq b xrows h.
Proof.
  induction xrows as [|xrow xrows IH]; intros [|mrow mrows] h Hl HF;
    try reflexivity; try discriminate.
  rewrite run_rest_cons, gru_seq_cons. cbv zeta.
  pose proof (Forall_inv HF) as Hm. apply Forall_inv_tail in HF.
  cbv beta in Hm. rewrite Hm.
  rewrite IH by (simpl in Hl; try lia; assumption). reflexivity.
Qed.

(** When no mask row after the first holds a zero, whatever the values
    of the entries, [forward] is one call of the recurrence over the
    whole sequence from the state multiplied by the first mask row. *)
Theorem no_reset_single_recurrence t b xd h md :
  0 < hidden_dim g -> 0 < t -> length md = t * b ->
  (forall i, 1 <= i < t ->
             existsb is_zero (nth i (chunks b t md) []) = false) ->
  forward (mkTensor [t; b; input_dim g] xd)
          (mkTensor [num_layers g; b; hidden_dim g] h)
          (mkTensor [t; b] md)
  = let r := gru_seq b (chunks (b * input_dim g) t xd)
               (scale_columns (num_layers g) b (hidden_dim g) h
                              (firstn b md)) in
    Ok (mkTensor (if t =? 1 then [b; hidden_dim g]
                  else [t; b; hidden_dim g])
                 (normalize (t * b) (concat (fst r))),
        mkTensor [num_layers g; b; hidden_dim g] (snd r)).
Proof.
  intros Hk Ht Lm Hnone. rewrite forward_rows by assumption. cbv zeta.
  destruct t as [|t]; [lia|]. cbn [chunks].
  rewrite run_masked_rest, gru_seq_cons. cbv zeta.
  rewrite run_rest_none; [reflexivity | now rewrite !chunks_length |].
  apply Forall_forall. intros mrow Hin.
  apply (In_nth _ _ []) in Hin as (i & Hi & <-).
  rewrite chunks_length in Hi.
  specialize (Hnone (S i) ltac:(lia)). cbn [chunks nth] in Hnone.
  exact Hnone.
Qed.

(** The recurrence is called once per chunk: once, and once more for
    every row after the first that holds a zero; at most once per time
    step. *)
Theorem recurrence_calls t b (masks : tensor) :
  shape masks = [t; b] -> 0 < t ->
  exists bs,
    boundaries masks t = Ok bs /\
    length (pairs bs)
    = 1 + length (filter (fun i => existsb is_zero
                                     (nth i (chunks b t (data masks)) []))
                         (seq 1 (t - 1))) /\
    length (pairs bs) <= t.
Proof.
  intros Hs Ht. destruct masks as [ms md]. cbn [shape data] in *. subst ms.
  eexists. split; [apply boundaries_rows; exact Ht|].
  set (splits := filter _ (seq 1 (t - 1))).
  assert (Hl : length (pairs (0 :: splits ++ [t])) = 1 + length splits).
  { unfold pairs. cbn [tl]. rewrite length_combine. cbn [length].
    rewrite length_app. cbn [length]. lia. }
  split; [exact Hl|]. rewrite Hl.
  pose proof (filter_length_le
                (fun i => existsb is_zero (nth i (chunks b t md) []))
                (seq 1 (t - 1))) as Hle.
  fold splits in Hle. rewrite length_seq in Hle. lia.
Qed.

(** *** Masks that are not binary *)

Lemma run_rest_zero_or_ones b xrows : forall mrows h,
  (forall e, mul e one = e) ->
  Forall (fun m => length m = b) mrows ->
  Forall (fun m => existsb is_zero m = true \/ Forall (fun e => e = one) m)
         mrows ->
  length h = num_layers g * (b * hidden_dim g) ->
  run_rest (existsb is_zero) b xrows mrows h
  = run_rest (fun _ => true) b xrows mrows h.
Proof.
  induction xrows as [|xrow xrows IH]; intros [|mrow mrows] h Hone HF HB Hh;
    try reflexivity.
  rewrite !run_rest_cons. cbv zeta.
  pose proof (Forall_inv HF) as Hm. apply Forall_inv_tail in HF.
  pose proof (Forall_inv HB) as Hb. apply Forall_inv_tail in HB.
  cbv beta in Hb.
  assert (E : (if existsb is_zero mrow
               then scale_columns (num_layers g) b (hidden_dim g) h mrow
               else h)
              = scale_columns (num_layers g) b (hidden_dim g) h mrow).
  { destruct (existsb is_zero mrow) eqn:Hz; [reflexivity|].
    destruct Hb as [Hb | Hb]; [discriminate|].
    symmetry. now apply scale_columns_ones. }
  rewrite E, IH; try assumption; [reflexivity|].
  apply gru_step_length. now apply scale_columns_length.
Qed.

Lemma tail_rows_forall (Q : list R -> Prop) b t md :
  (forall i, 1 <= i < t -> Q (nth i (chunks b t md) [])) ->
  Forall Q (chunks b (t - 1) (skipn b md)).
Proof.
  intros H. apply Forall_forall. intros mrow Hin.
  apply (In_nth _ _ []) in Hin as (i & Hi & <-).
  rewrite chunks_length in Hi.
  specialize (H (S i) ltac:(lia)).
  destruct t as [|t]; [lia|]. cbn [chunks nth] in H.
  now rewrite Nat.sub_succ, Nat.sub_0_r.
Qed.


(** *** A sequence in two calls *)

Lemma run_rest_app sel b xs1 : forall ms1 h xs2 ms2,
  length ms1 = length xs1 ->
  run_rest sel b (xs1 ++ xs2) (ms1 ++ ms2) h
  = (fst (run_rest sel b xs1 ms1 h)
       ++ fst (run_rest sel b xs2 ms2 (snd (run_rest sel b xs1 ms1 h))),
     snd (run_rest sel b xs2 ms2 (snd (run_rest sel b xs1 ms1 h)))).
Proof.
  induction xs1 as [|x1 xs1 IH]; intros [|m1 ms1] h xs2 ms2 Hl;
    try discriminate.
  - cbn [app]. simpl (run_rest sel b [] [] h). cbn [fst snd app].
    now destruct (run_rest sel b xs2 ms2 h).
  - cbn [app]. rewrite !run_rest_cons. cbv zeta. cbn [fst snd].
    rewrite IH by (simpl in Hl; lia). reflexivity.
Qed.

Lemma run_masked_app sel b x1 xs1 m1 ms1 h xs2 ms2 :
  length ms1 = length xs1 ->
  run_masked sel b ((x1 :: xs1) ++ xs2) ((m1 :: ms1) ++ ms2) h
  = (fst (run_masked sel b (x1 :: xs1) (m1 :: ms1) h)
       ++ fst (run_rest sel b xs2 ms2
                 (snd (run_masked sel b (x1 :: xs1) (m1 :: ms1) h))),
     snd (run_rest sel b xs2 ms2
            (snd (run_masked sel b (x1 :: xs1) (m1 :: ms1) h)))).
Proof.
  intros Hl. cbn [app]. rewrite !run_masked_rest. cbv zeta. cbn [fst snd].
  rewrite run_rest_app by exact Hl. reflexivity.
Qed.

Lemma run_rest_as_masked b xrows mrows h :
  (forall e, mul e one = e) ->
  existsb is_zero (hd [] mrows) = true \/
  (Forall (fun e => e = one) (hd [] mrows) /\ length (hd [] mrows) = b /\
   length h = num_layers g * (b * hidden_dim g)) ->
  run_rest (existsb is_zero) b xrows mrows h
  = run_masked (existsb is_zero) b xrows mrows h.
Proof.
  intros Hone Hhd.
  destruct xrows as [|xrow xrows], mrows as [|mrow mrows]; try reflexivity.
  rewrite run_rest_cons, run_masked_rest. cbv zeta. cbn [hd] in Hhd.
  destruct (existsb is_zero mrow) eqn:Hz; [reflexivity|].
  destruct Hhd as [Hhd | (Ho & Hm & Hh)]; [discriminate|].
  now rewrite scale_columns_ones.
Qed.

Lemma normalize_app n1 n2 d1 d2 :
  length d1 = n1 * hidden_dim g ->
  normalize (n1 + n2) (d1 ++ d2) = normalize n1 d1 ++ normalize n2 d2.
Proof.
  intros Hd. unfold normalize.
  now rewrite chunks_app, map_app, concat_app by exact Hd.
Qed.


(** *** Starting from [init_hidden] *)

Lemma scale_columns_all_zero a b c h m :
  (forall e, mul zero e = zero) ->
  Forall (eq zero) h -> Forall (eq zero) (scale_columns a b c h m).
Proof.
  intros Hz Hh. unfold scale_columns, flat3.
  apply Forall_concat. rewrite map_map, Forall_map.
  assert (H3 : Forall (Forall (Forall (eq zero))) (unflat3 a b c h)).
  { unfold unflat3. rewrite Forall_map.
    eapply Forall_impl; [|apply chunks_Forall; exact Hh].
    intros row Hrow. now apply chunks_Forall. }
  eapply Forall_impl; [|exact H3].
  intros layer Hl. cbv beta. apply Forall_concat. rewrite Forall_map.
  apply Forall_forall. intros [v e] Hin. cbn [fst snd].
  apply in_combine_l in Hin. rewrite Forall_forall in Hl.
  specialize (Hl v Hin). unfold scale. rewrite Forall_map.
  eapply Forall_impl; [|exact Hl].
  intros x <-. now rewrite Hz.
Qed.

Lemma scale_columns_zero_fixed a b c h m :
  (forall e, mul zero e = zero) ->
  Forall (eq zero) h -> length h = a * (b * c) -> length m = b ->
  scale_columns a b c h m = h.
Proof.
  intros Hz Hh Lh Lm.
  transitivity (repeat zero (a * (b * c))).
  - rewrite (Forall_eq_repeat (scale_columns_all_zero a b c m Hz Hh)).
    now rewrite scale_columns_length.
  - rewrite <- Lh. symmetry. now apply Forall_eq_repeat.
Qed.

(** The state of [init_hidden] is zero, so that the first mask row,
    which only multiplies it, has no effect: two calls from a fresh state
    whose masks agree after the first row return the same. *)
Theorem fresh_state_ignores_first_mask_row t b xd md md'
    (zero_mul : forall e, mul zero e = zero) :
  0 < hidden_dim g -> 0 < t ->
  length md = t * b -> length md' = t * b ->
  skipn b md = skipn b md' ->
  forward (mkTensor [t; b; input_dim g] xd) (init_hidden zero g b)
          (mkTensor [t; b] md)
  = forward (mkTensor [t; b; input_dim g] xd) (init_hidden zero g b)
            (mkTensor [t; b] md').
Proof.
  intros Hk Ht Lm Lm' Htail. unfold init_hidden.
  rewrite !forward_rows by assumption. cbv zeta.
  destruct t as [|t]; [lia|]. cbn [chunks].
  rewrite !run_masked_rest. cbv zeta.
  assert (Hz : Forall (eq zero)
                 (repeat zero (num_layers g * b * hidden_dim g))).
  { apply Forall_forall. intros e He. apply repeat_spec in He. now subst. }
  assert (Lz : length (repeat zero (num_layers g * b * hidden_dim g))
               = num_layers g * (b * hidden_dim g))
    by (rewrite repeat_length; lia).
  rewrite !scale_columns_zero_fixed
    by (try assumption; rewrite length_firstn; nia).
  now rewrite Htail.
Qed.

(** *** Batch columns do not influence one another *)

Lemma column_gru_step b xrow h j :
  j < b -> length h = num_layers g * (b * hidden_dim g) ->
  column (unflat3 (num_layers g) b (hidden_dim g) (gru_step b xrow h)) j
  = cell (gru_weights g) (nth j (chunks (input_dim g) b xrow) [])
         (column (unflat3 (num_layers g) b (hidden_dim g) h) j).
Proof.
  intros Hj Hh. unfold gru_step, of_columns.
  pose proof (@step_columns_ok b xrow h Hh) as Hok.
  pose proof (step_columns_length b xrow h) as Hlen.
  rewrite unflat3_flat3 by now apply layers_of_columns_shaped.
  rewrite column_of_layers by (try assumption; lia).
  now apply nth_step_columns.
Qed.

Lemma column_scale_columns b h m j :
  j < b -> length h = num_layers g * (b * hidden_dim g) -> length m = b ->
  column (unflat3 (num_layers g) b (hidden_dim g)
                  (scale_columns (num_layers g) b (hidden_dim g) h m)) j
  = map (scale (nth j m zero))
        (column (unflat3 (num_layers g) b (hidden_dim g) h) j).
Proof.
  intros Hj Hh Hm. rewrite unflat3_scale_columns by assumption.
  apply column_mask_layer
    with (a := num_layers g) (b := b) (c := hidden_dim g); try assumption.
  now apply unflat3_shaped.
Qed.

(** Rows that agree on column [j], from states that agree on column [j],
    give outputs and a state that agree on column [j]. *)
Lemma run_rest_column b j xs : forall xs' ms ms' h h',
  0 < num_layers g -> j < b ->
  length ms = length xs -> length ms' = length xs' ->
  Forall (fun m => length m = b) ms -> Forall (fun m => length m = b) ms' ->
  length h = num_layers g * (b * hidden_dim g) ->
  length h' = num_layers g * (b * hidden_dim g) ->
  Forall2 (fun x x' => nth j (chunks (input_dim g) b x) []
                       = nth j (chunks (input_dim g) b x') []) xs xs' ->
  Forall2 (fun m m' => nth j m zero = nth j m' zero) ms ms' ->
  column (unflat3 (num_layers g) b (hidden_dim g) h) j
  = column (unflat3 (num_layers g) b (hidden_dim g) h') j ->
  Forall2 (fun o o' => nth j (chunks (hidden_dim g) b o) []
                       = nth j (chunks (hidden_dim g) b o') [])
          (fst (run_rest (fun _ => true) b xs ms h))
          (fst (run_rest (fun _ => true) b xs' ms' h')) /\
  column (unflat3 (num_layers g) b (hidden_dim g)
                  (snd (run_rest (fun _ => true) b xs ms h))) j
  = column (unflat3 (num_layers g) b (hidden_dim g)
                    (snd (run_rest (fun _ => true) b xs' ms' h'))) j.
Proof.
  induction xs as [|x xs IH];
    intros xs' ms ms' h h' HL Hj Lms Lms' HF HF' Lh Lh' Hx Hm Hc.
  - inversion Hx; subst. destruct ms; [|discriminate].
    destruct ms'; [|discriminate]. cbn. split; [constructor | exact Hc].
  - inversion Hx as [|? x' ? xs'' Hxj Hxs]; subst.
    destruct ms as [|m ms]; [discriminate|].
    destruct ms' as [|m' ms']; [discriminate|].
    inversion Hm as [|? ? ? ? Hmj Hms]; subst.
    rewrite !run_rest_cons. cbv zeta. cbn [fst snd].
    pose proof (Forall_inv HF) as Lm. apply Forall_inv_tail in HF.
    pose proof (Forall_inv HF') as Lm'. apply Forall_inv_tail in HF'.
    cbv beta in Lm, Lm'.
    set (hin := scale_columns (num_layers g) b (hidden_dim g) h m).
    set (hin' := scale_columns (num_layers g) b (hidden_dim g) h' m').
    assert (Lhin : length hin = num_layers g * (b * hidden_dim g))
      by now apply scale_columns_length.
    assert (Lhin' : length hin' = num_layers g * (b * hidden_dim g))
      by now apply scale_columns_length.
    assert (Ein : column (unflat3 (num_layers g) b (hidden_dim g) hin) j
                  = column (unflat3 (num_layers g) b (hidden_dim g) hin') j).
    { unfold hin, hin'.
      rewrite !column_scale_columns by assumption. now rewrite Hmj, Hc. }
    split.
    + constructor.
      * rewrite !top_layer_column by assumption. now rewrite Hxj, Ein.
      * apply IH; try assumption; try (simpl in *; lia);
          try (now apply gru_step_length).
        rewrite !column_gru_step by assumption. now rewrite Hxj, Ein.
    + apply IH; try assumption; try (simpl in *; lia);
        try (now apply gru_step_length).
      rewrite !column_gru_step by assumption. now rewrite Hxj, Ein.
Qed.

Lemma Forall2_of_nth (A : Type) (Q : A -> A -> Prop) (d : A) n :
  forall l l' : list A,
  length l = n -> length l' = n ->
  (forall i, i < n -> Q (nth i l d) (nth i l' d)) -> Forall2 Q l l'.
Proof.
  induction n as [|n IH]; intros [|a l] [|a' l'] Hl Hl' H;
    try discriminate; constructor.
  - apply (H 0). lia.
  - apply IH; try (simpl in *; lia).
    intros i Hi. apply (H (S i)). lia.
Qed.

Lemma Forall2_nth_rel (A : Type) (Q : A -> A -> Prop) (d : A)
    (l l' : list A) i :
  Forall2 Q l l' -> i < length l -> Q (nth i l d) (nth i l' d).
Proof.
  intros H. revert i. induction H as [|a a' l l' Ha _ IH]; intros i Hi.
  - simpl in Hi. lia.
  - destruct i as [|i]; [exact Ha|]. apply IH. simpl in Hi. lia.
Qed.

(** The vector [y[i, j, :]] of the output, from the rows before the
    normalization. *)
Lemma feature_of_output t b (outs : list (list R)) i j :
  (forall p v, length (ln p v) = length v) ->
  Forall (fun o => length o = b * hidden_dim g) outs ->
  length outs = t -> i < t -> j < b ->
  firstn (hidden_dim g)
         (skipn ((i * b + j) * hidden_dim g)
                (normalize (t * b) (concat outs)))
  = ln (gru_layer_norm_params g)
       (nth j (chunks (hidden_dim g) b (nth i outs [])) []).
Proof.
  intros Hln Hout Hlen Hi Hj.
  assert (Hp : i * b + j < t * b) by nia.
  rewrite <- (chunks_nth (hidden_dim g) (normalize (t * b) _) Hp).
  rewrite chunks_normalize
    by (try assumption;
        rewrite (@concat_length_const _ (b * hidden_dim g)) by exact Hout;
        rewrite Hlen; lia).
  rewrite (nth_indep _ [] (ln (gru_layer_norm_params g) []))
    by (rewrite length_map, chunks_length; exact Hp).
  rewrite map_nth. f_equal.
  apply nth_chunks_concat; try assumption; lia.
Qed.


(** [init_hidden] and [forward] fit together on the batch size alone: the
    state [init_hidden] makes for the batch size of the input is accepted
    and comes back with its shape, and the state made for any other batch
    size is refused by the assertion on the batch size. *)
Theorem init_hidden_then_forward t b b' xd md :
  0 < hidden_dim g -> 0 < t -> length md = t * b ->
  (b' = b ->
   exists y st : tensor,
     forward (mkTensor [t; b; input_dim g] xd) (init_hidden zero g b')
             (mkTensor [t; b] md) = Ok (y, st) /\
     shape st = shape (init_hidden zero g b')) /\
  (b' <> b ->
   forward (mkTensor [t; b; input_dim g] xd) (init_hidden zero g b')
           (mkTensor [t; b] md)
   = Err (AssertionError BatchSize b b')).
Proof.
  intros Hk Ht Lm. split.
  - intros ->. unfold init_hidden.
    rewrite forward_rows by assumption. cbv zeta.
    eexists _, _. split; reflexivity.
  - intros Hne. unfold init_hidden, forward, check_shapes.
    cbn [dim shape length Nat.eqb size nth_error bind].
    repeat progress (rewrite ?assert_eq_refl;
                     cbn [shape length Nat.eqb nth_error bind]).
    unfold assert_eq, size. cbn [shape nth_error bind].
    destruct (Nat.eqb_spec b' b) as [E|_]; [contradiction | reflexivity].
Qed.

End Proofs.

(** ** [forward] on a store only reads what exists *)

Section StoreProofs.

Variable R : Type.
Variables (zero : R) (mul : R -> R -> R) (is_zero : R -> bool).
Variables W P : Type.
Variable cell : W -> list R -> list (list R) -> list (list R).
Variable ln : P -> list R -> list R.
Variable g : GRUModule R W P.

Local Abbreviation tensor := (tensor R).
Local Abbreviation store := (store R).
Local Abbreviation forward := (forward zero mul is_zero cell ln g).
Local Abbreviation forward_st := (forward_st zero mul is_zero cell ln g).
Local Abbreviation single_step_st := (single_step_st zero mul cell ln g).
Local Abbreviation multi_step_st := (multi_step_st zero mul is_zero cell ln g).
Local Abbreviation chunk_loop_st := (chunk_loop_st zero mul cell g).
Local Abbreviation chunk_loop := (chunk_loop zero mul cell g).
Local Abbreviation check_shapes_st := (check_shapes_st g).
Local Abbreviation check_shapes := (check_shapes g).
Local Abbreviation mul_states_st := (mul_states_st zero mul).
Local Abbreviation gru_st := (gru_st cell g).
Local Abbreviation gru := (gru cell g).
Local Abbreviation gru_layer_norm_st := (gru_layer_norm_st ln g).

Variable D : Type.
Variable gru_drop :
  GRUModule R W P -> D -> nat -> list (list R) -> list R
  -> list (list R) * list R.

Local Abbreviation dropout_active := (dropout_active is_zero g).
Local Abbreviation gru_mode := (gru_mode is_zero cell g gru_drop).
Local Abbreviation forward_with := (forward_with zero mul is_zero ln g).
Local Abbreviation single_step_path_with :=
  (single_step_path_with zero mul ln g).
Local Abbreviation multi_step_path_with :=
  (multi_step_path_with zero mul is_zero ln g).
Local Abbreviation chunk_loop_with := (chunk_loop_with zero mul).
Local Abbreviation forward_mode :=
  (forward_mode zero mul is_zero cell ln g gru_drop).
Local Abbreviation forward_st_with := (forward_st_with zero mul is_zero ln g).
Local Abbreviation single_step_st_with := (single_step_st_with zero mul ln g).
Local Abbreviation multi_step_st_with :=
  (multi_step_st_with zero mul is_zero ln g).
Local Abbreviation chunk_loop_st_with := (chunk_loop_st_with zero mul).
Local Abbreviation forward_st_mode :=
  (forward_st_mode zero mul is_zero cell ln g gru_drop).

Implicit Types (s : store) (r x h m : tref) (t : tensor).
Implicit Types (rnn : nat -> tensor -> tensor -> result (tensor * tensor)).

Lemma extends_refl s : extends s s.
Proof. exists []. now rewrite app_nil_r. Qed.

Lemma extends_trans s1 s2 s3 :
  extends s1 s2 -> extends s2 s3 -> extends s1 s3.
Proof.
  intros [e1 ->] [e2 ->]. exists (e1 ++ e2). now rewrite app_assoc.
Qed.

Lemma extends_snoc s (d : list R) : extends s (s ++ [d]).
Proof. now exists [d]. Qed.

Lemma valid_ref_extends s s' r :
  valid_ref s r -> extends s s' -> valid_ref s' r.
Proof.
  unfold valid_ref. intros H [ext ->]. rewrite length_app. lia.
Qed.

Lemma load_extends s s' r :
  valid_ref s r -> extends s s' -> load s' r = load s r.
Proof.
  unfold valid_ref, load. intros H [ext ->]. now rewrite app_nth1.
Qed.

Lemma holds_extends s s' r t :
  holds s r t -> extends s s' -> holds s' r t.
Proof.
  intros [Hv Hl] He. split.
  - now apply valid_ref_extends with (s := s).
  - now rewrite (load_extends Hv He).
Qed.

(** *** Objects on the buffer of their operand *)

Lemma window (a b c o : nat) (l : list R) :
  firstn a (skipn b (firstn c (skipn o l)))
  = firstn (Nat.min a (c - b)) (skipn (o + b) l).
Proof.
  rewrite skipn_firstn_comm, firstn_firstn, skipn_skipn.
  now rewrite (Nat.add_comm b o).
Qed.

Lemma rview_1_infer_load c s r :
  agree (fun r' t => load s r' = t /\ buf r' = buf r)
        (rview_1_infer c r) (view_1_infer c (load s r)).
Proof.
  unfold rview_1_infer, view_1_infer, numel, rnumel. cbn [load shape data].
  destruct (c =? 0); [reflexivity|].
  destruct (_ mod c =? 0); [|reflexivity].
  split; reflexivity.
Qed.

Lemma rview2_load a b s r :
  agree (fun r' t => load s r' = t /\ buf r' = buf r)
        (rview2 a b r) (view2 a b (load s r)).
Proof.
  unfold rview2, view2, numel, rnumel. cbn [load shape data].
  destruct (_ =? a * b); [|reflexivity].
  split; reflexivity.
Qed.

Lemma rsqueeze0_load s r :
  load s (rsqueeze0 r) = squeeze0 (load s r) /\ buf (rsqueeze0 r) = buf r.
Proof.
  unfold rsqueeze0, squeeze0. cbn [load shape data].
  destruct (sizes r) as [|[|[|n]] rest] eqn:E; split; try reflexivity;
    unfold load; now rewrite E.
Qed.

Lemma rindex0_load s r i :
  agree (fun r' t => load s r' = t /\ buf r' = buf r)
        (rindex0 r i) (index0 (load s r) i).
Proof.
  unfold rindex0, index0. cbn [load shape data].
  destruct (sizes r) as [|n rest]; [reflexivity|]. cbv zeta.
  destruct (i <? n); [|reflexivity].
  split; [|reflexivity]. unfold load. cbn [buf offset count sizes].
  now rewrite window.
Qed.

Lemma rslice0_load s r a e :
  agree (fun r' t => load s r' = t /\ buf r' = buf r)
        (rslice0 r a e) (slice0 (load s r) a e).
Proof.
  unfold rslice0, slice0. cbn [load shape data].
  destruct (sizes r) as [|n rest]; [reflexivity|]. cbv zeta.
  split; [|reflexivity]. unfold load. cbn [buf offset count sizes].
  now rewrite window.
Qed.

(** *** Composing computations on the store *)

Lemma sim_bind (A A' B B' : Type)
    (relA : store -> A -> A' -> Prop) (relB : store -> B -> B' -> Prop)
    s (c : st R A) (p : result A') (k : A -> st R B) (kp : A' -> result B') :
  sim relA s c p ->
  (forall s' a a', extends s s' -> relA s' a a' -> sim relB s' (k a) (kp a')) ->
  sim relB s (bind_st c k) (bind p kp).
Proof.
  unfold sim, bind_st. intros [He Ha] Hk.
  destruct (c s) as [s' [a|e]]; destruct p as [a'|e']; cbn [fst snd] in *;
    cbn [agree] in Ha; try contradiction.
  - destruct (Hk s' a a' He Ha) as [He' Ha']. cbn [bind].
    split; [now apply extends_trans with (s2 := s') | exact Ha'].
  - subst. cbn. split; [exact He | reflexivity].
Qed.

Lemma sim_lift_view s r (rr : result tref) (pt : result tensor) :
  valid_ref s r ->
  agree (fun r' t => load s r' = t /\ buf r' = buf r) rr pt ->
  sim (@holds R) s (lift rr) pt.
Proof.
  intros Hv Ha. split; [apply extends_refl|]. cbn [lift fst snd].
  destruct rr as [r'|e], pt as [t|e']; cbn [agree] in *; try assumption.
  destruct Ha as [Hl Hb]. split; [|exact Hl].
  unfold valid_ref in *. now rewrite Hb.
Qed.

Lemma sim_lift_eq (A : Type) s (c : result A) :
  sim (fun _ a a' => a = a') s (lift c) c.
Proof.
  split; [apply extends_refl|]. cbn [lift fst snd].
  destruct c; reflexivity.
Qed.

Lemma sim_alloc s t : sim (@holds R) s (alloc t) (Ok t).
Proof.
  split; cbn [alloc fst snd agree]; [apply extends_snoc|].
  split.
  - unfold valid_ref. cbn [buf]. rewrite length_app. simpl. lia.
  - unfold load. cbn [buf offset count sizes].
    rewrite nth_middle. cbn [skipn]. rewrite firstn_all.
    now destruct t.
Qed.

Lemma sim_fresh s (c : store -> result tensor) (p : result tensor) :
  c s = p -> sim (@holds R) s (fresh c) p.
Proof.
  intros <-. unfold fresh, sim. destruct (c s) as [t|e] eqn:E.
  - apply sim_alloc.
  - cbn. split; [apply extends_refl | reflexivity].
Qed.

Lemma sim_gru (rn : tensor -> tensor -> result (tensor * tensor))
    s x h tx th :
  holds s x tx -> holds s h th ->
  sim (@holds2 R) s (gru_st_with rn x h) (rn tx th).
Proof.
  intros [_ <-] [_ <-]. unfold gru_st_with, sim.
  destruct (rn (load s x) (load s h)) as [[out hT]|e] eqn:E.
  - cbn [bind_st alloc lift fst snd agree]. split.
    + exists [data out; data hT]. now rewrite <- app_assoc.
    + split; cbn [fst snd].
      * apply holds_extends with (s := s ++ [data out]);
          [apply sim_alloc | apply extends_snoc].
      * pose proof (sim_alloc (s ++ [data out]) hT) as [_ H].
        exact H.
  - cbn. split; [apply extends_refl | reflexivity].
Qed.

Lemma agree_bind (A A' B B' : Type) (rel : A -> A' -> Prop)
    (rel' : B -> B' -> Prop) (ra : result A) (pa : result A')
    (k : A -> result B) (kp : A' -> result B') :
  agree rel ra pa ->
  (forall a a', rel a a' -> agree rel' (k a) (kp a')) ->
  agree rel' (bind ra k) (bind pa kp).
Proof.
  destruct ra as [a|e], pa as [a'|e']; cbn; intros H Hk;
    try contradiction; auto.
Qed.

Lemma agree_eq (A : Type) (c : result A) : agree eq c c.
Proof. destruct c; reflexivity. Qed.

Ltac agree_eq_step :=
  eapply agree_bind; [apply agree_eq | intros ? ? <-].

Lemma check_shapes_load s x h :
  agree (fun r' t => load s r' = t /\ buf r' = buf x)
        (check_shapes_st x h) (check_shapes (load s x) (load s h)).
Proof.
  unfold check_shapes_st, check_shapes.
  eapply agree_bind
    with (rel := fun r' t => load s r' = t /\ buf r' = buf x).
  - change (rdim x) with (dim (load s x)).
    destruct (dim (load s x) =? 2).
    + agree_eq_step. agree_eq_step. apply rview_1_infer_load.
    + agree_eq_step. agree_eq_step. agree_eq_step. split; reflexivity.
  - intros x1 t1 [<- Hb].
    agree_eq_step. agree_eq_step. agree_eq_step. agree_eq_step.
    agree_eq_step. agree_eq_step. agree_eq_step.
    split; [reflexivity | exact Hb].
Qed.

Lemma loaded_sim s (c : st R (tref * tref)) (p : result (tensor * tensor)) :
  sim (@holds2 R) s c p -> loaded (c s) = p.
Proof.
  unfold sim, loaded. intros [_ Ha].
  destruct (snd (c s)) as [[y hr]|e], p as [[ty th]|e'];
    cbn [agree] in Ha; try contradiction.
  - destruct Ha as [[_ H1] [_ H2]]. cbn [fst snd] in *. now rewrite H1, H2.
  - now subst.
Qed.

Lemma sim_ok (A B : Type) (rel : store -> A -> B -> Prop) s (a : A) (b : B) :
  rel s a b -> sim rel s (lift (Ok a)) (Ok b).
Proof. intros H. split; [apply extends_refl | exact H]. Qed.

Lemma sim_single_step rnn s x h m tx th tm :
  holds s x tx -> holds s h th -> holds s m tm ->
  sim (@holds2 R) s (single_step_st_with rnn x h m)
      (single_step_path_with rnn tx th tm).
Proof.
  intros Hx Hh Hm. unfold single_step_st_with, single_step_path_with.
  eapply sim_bind.
  { destruct Hm as [Hv <-].
    eapply sim_lift_view; [exact Hv | apply rview_1_infer_load]. }
  intros s1 mv tmv E1 Hmv.
  eapply sim_bind.
  { apply sim_fresh.
    destruct (holds_extends Hh E1) as [_ ->]. now destruct Hmv as [_ ->]. }
  intros s2 tr tt E2 Htr.
  eapply sim_bind.
  { apply sim_gru; [|exact Htr].
    apply holds_extends with (s := s); [exact Hx|].
    now apply extends_trans with (s2 := s1). }
  intros s3 [xo ho] [txo tho] E3 [Hxo Hho]. cbn [fst snd] in *.
  eapply sim_bind.
  { apply sim_fresh. destruct (rsqueeze0_load s3 xo) as [-> _].
    now destruct Hxo as [_ ->]. }
  intros s4 y ty E4 Hy.
  apply sim_ok. split; cbn [fst snd]; [exact Hy|].
  now apply holds_extends with (s := s3).
Qed.

Lemma chunk_loop_with_cons rnn (tx tm : tensor) has_zeros i idxs
    (touts : list tensor) (th : tensor) :
  chunk_loop_with rnn tx tm has_zeros (i :: idxs) touts th
  = (start_idx <- list_get has_zeros i ;;
     end_idx <- list_get has_zeros (i + 1) ;;
     mask_row <- index0 tm start_idx ;;
     mask_view <- view_1_infer 1 mask_row ;;
     temp_states <- mul_states zero mul th mask_view ;;
     x_chunk <- slice0 tx start_idx end_idx ;;
     ' (out, rnn_states') <- rnn start_idx x_chunk temp_states ;;
     chunk_loop_with rnn tx tm has_zeros idxs (touts ++ [out]) rnn_states').
Proof. reflexivity. Qed.

Lemma chunk_loop_cons (tx tm : tensor) has_zeros i idxs
    (touts : list tensor) (th : tensor) :
  chunk_loop tx tm has_zeros (i :: idxs) touts th
  = (start_idx <- list_get has_zeros i ;;
     end_idx <- list_get has_zeros (i + 1) ;;
     mask_row <- index0 tm start_idx ;;
     mask_view <- view_1_infer 1 mask_row ;;
     temp_states <- mul_states zero mul th mask_view ;;
     x_chunk <- slice0 tx start_idx end_idx ;;
     ' (out, rnn_states') <- gru x_chunk temp_states ;;
     chunk_loop tx tm has_zeros idxs (touts ++ [out]) rnn_states').
Proof. reflexivity. Qed.

Lemma chunk_loop_st_cons x masks has_zeros i idxs (outs : list tref) h :
  chunk_loop_st x masks has_zeros (i :: idxs) outs h
  = bind_st (lift (list_get has_zeros i)) (fun start_idx =>
    bind_st (lift (list_get has_zeros (i + 1))) (fun end_idx =>
    bind_st (lift (rindex0 masks start_idx)) (fun mask_row =>
    bind_st (lift (rview_1_infer 1 mask_row)) (fun mask_view =>
    bind_st (mul_states_st h mask_view) (fun temp_states =>
    bind_st (lift (rslice0 x start_idx end_idx)) (fun x_chunk =>
    bind_st (gru_st x_chunk temp_states) (fun res =>
      match res with
      | (out, rnn_states') =>
          chunk_loop_st x masks has_zeros idxs (outs ++ [out]) rnn_states'
      end))))))).
Proof. reflexivity. Qed.

Lemma chunk_loop_st_with_cons rnn x masks has_zeros i idxs
    (outs : list tref) h :
  chunk_loop_st_with rnn x masks has_zeros (i :: idxs) outs h
  = bind_st (lift (list_get has_zeros i)) (fun start_idx =>
    bind_st (lift (list_get has_zeros (i + 1))) (fun end_idx =>
    bind_st (lift (rindex0 masks start_idx)) (fun mask_row =>
    bind_st (lift (rview_1_infer 1 mask_row)) (fun mask_view =>
    bind_st (mul_states_st h mask_view) (fun temp_states =>
    bind_st (lift (rslice0 x start_idx end_idx)) (fun x_chunk =>
    bind_st (gru_st_with (rnn start_idx) x_chunk temp_states) (fun res =>
      match res with
      | (out, rnn_states') =>
          chunk_loop_st_with rnn x masks has_zeros idxs (outs ++ [out])
                             rnn_states'
      end))))))).
Proof. reflexivity. Qed.

Lemma sim_chunk_loop rnn tx tm has_zeros idxs :
  forall s x masks outs touts h th,
  holds s x tx -> holds s masks tm ->
  Forall2 (holds s) outs touts -> holds s h th ->
  sim (fun s' a b => Forall2 (holds s') (fst a) (fst b) /\
                     holds s' (snd a) (snd b))
      s (chunk_loop_st_with rnn x masks has_zeros idxs outs h)
      (chunk_loop_with rnn tx tm has_zeros idxs touts th).
Proof.
  induction idxs as [|i idxs IH]; intros s x masks outs touts h th
    Hx Hm Ho Hh.
  - apply sim_ok. split; assumption.
  - rewrite chunk_loop_with_cons, chunk_loop_st_with_cons.
    eapply sim_bind; [apply sim_lift_eq|]. intros s1 a ? E1 <-.
    eapply sim_bind; [apply sim_lift_eq|]. intros s2 e ? E2 <-.
    assert (E02 : extends s s2) by now apply extends_trans with (s2 := s1).
    eapply sim_bind.
    { destruct (holds_extends Hm E02) as [Hv <-].
      eapply sim_lift_view; [exact Hv | apply rindex0_load]. }
    intros s3 mr tmr E3 Hmr.
    eapply sim_bind.
    { destruct Hmr as [Hv <-].
      eapply sim_lift_view; [exact Hv | apply rview_1_infer_load]. }
    intros s4 mv tmv E4 Hmv.
    assert (E04 : extends s s4).
    { apply extends_trans with (s2 := s2); [exact E02|].
      now apply extends_trans with (s2 := s3). }
    eapply sim_bind.
    { apply sim_fresh.
      destruct (holds_extends Hh E04) as [_ ->]. now destruct Hmv as [_ ->]. }
    intros s5 tr tt E5 Htr.
    assert (E05 : extends s s5) by now apply extends_trans with (s2 := s4).
    eapply sim_bind.
    { destruct (holds_extends Hx E05) as [Hv <-].
      eapply sim_lift_view; [exact Hv | apply rslice0_load]. }
    intros s6 xc txc E6 Hxc.
    eapply sim_bind.
    { apply sim_gru; [exact Hxc|].
      now apply holds_extends with (s := s5). }
    intros s7 [out h'] [tout th'] E7 [Hout Hh']. cbn [fst snd] in *.
    assert (E07 : extends s s7).
    { apply extends_trans with (s2 := s5); [exact E05|].
      now apply extends_trans with (s2 := s6). }
    apply IH.
    + now apply holds_extends with (s := s).
    + now apply holds_extends with (s := s).
    + apply Forall2_app.
      * eapply Forall2_impl; [|exact Ho].
        intros r t Hrt. now apply holds_extends with (s := s).
      * constructor; [exact Hout | constructor].
    + exact Hh'.
Qed.

Lemma holds_map_load s (rs : list tref) (ts : list tensor) :
  Forall2 (holds s) rs ts -> map (load s) rs = ts.
Proof.
  induction 1 as [|r t rs ts [_ Hl] _ IH]; [reflexivity|].
  cbn [map]. now rewrite Hl, IH.
Qed.

Lemma sim_multi_step rnn s x h m tx th tm :
  holds s x tx -> holds s h th -> holds s m tm ->
  sim (@holds2 R) s (multi_step_st_with rnn x h m)
      (multi_step_path_with rnn tx th tm).
Proof.
  intros Hx Hh Hm. unfold multi_step_st_with, multi_step_path_with.
  eapply sim_bind.
  { destruct Hx as [_ <-]. apply sim_lift_eq. }
  intros s1 seq_len ? E1 <-.
  eapply sim_bind.
  { destruct Hx as [_ <-]. apply sim_lift_eq. }
  intros s2 batch_size ? E2 <-.
  assert (E02 : extends s s2) by now apply extends_trans with (s2 := s1).
  eapply sim_bind.
  { destruct (holds_extends Hm E02) as [Hv <-].
    eapply sim_lift_view; [exact Hv | apply rview2_load]. }
  intros s3 mv tmv E3 Hmv.
  eapply sim_bind with (relA := fun _ a a' => a = a').
  { split; [apply extends_refl|]. cbn [boundaries_st fst snd].
    destruct Hmv as [_ ->]. apply agree_eq. }
  intros s4 has_zeros ? E4 <-.
  assert (E04 : extends s s4).
  { apply extends_trans with (s2 := s2); [exact E02|].
    now apply extends_trans with (s2 := s3). }
  eapply sim_bind.
  { apply sim_chunk_loop.
    - now apply holds_extends with (s := s).
    - now apply holds_extends with (s := s3).
    - constructor.
    - now apply holds_extends with (s := s). }
  intros s5 [outs hr] [touts thr] E5 [Ho Hhr]. cbn [fst snd] in *.
  eapply sim_bind.
  { apply sim_fresh. now rewrite (holds_map_load Ho). }
  intros s6 xo txo E6 Hxo.
  eapply sim_bind.
  { apply sim_fresh. now destruct Hxo as [_ ->]. }
  intros s7 y ty E7 Hy.
  apply sim_ok. split; cbn [fst snd]; [exact Hy|].
  apply holds_extends with (s := s5); [exact Hhr|].
  now apply extends_trans with (s2 := s6).
Qed.

Lemma sim_forward rnn s x h m :
  valid_ref s x -> valid_ref s h -> valid_ref s m ->
  sim (@holds2 R) s (forward_st_with rnn x h m)
      (forward_with rnn (load s x) (load s h) (load s m)).
Proof.
  intros Vx Vh Vm. unfold forward_st_with, forward_with.
  eapply sim_bind.
  { eapply sim_lift_view; [exact Vx | apply check_shapes_load]. }
  intros s1 x1 tx1 E1 Hx1.
  eapply sim_bind.
  { destruct Hx1 as [_ <-]. apply sim_lift_eq. }
  intros s2 t ? E2 <-. cbv zeta.
  assert (E02 : extends s s2) by now apply extends_trans with (s2 := s1).
  assert (Hh : holds s2 h (load s h))
    by (apply holds_extends with (s := s); [now split | exact E02]).
  assert (Hm : holds s2 m (load s m))
    by (apply holds_extends with (s := s); [now split | exact E02]).
  assert (Hx : holds s2 x1 tx1) by now apply holds_extends with (s := s1).
  destruct (t =? 1).
  - now apply sim_single_step.
  - now apply sim_multi_step.
Qed.

(** *** The module without dropout *)

Lemma bind_ext (A B : Type) (c : result A) (k k' : A -> result B) :
  (forall a, k a = k' a) -> bind c k = bind c k'.
Proof. intros H. destruct c; [apply H | reflexivity]. Qed.

Lemma chunk_loop_with_gru rnn (tx tm : tensor) has_zeros idxs :
  (forall i a b, rnn i a b = gru a b) ->
  forall (touts : list tensor) (th : tensor),
  chunk_loop_with rnn tx tm has_zeros idxs touts th
  = chunk_loop tx tm has_zeros idxs touts th.
Proof.
  intros Hr. induction idxs as [|i idxs IH]; intros touts th;
    [reflexivity|].
  rewrite chunk_loop_with_cons, chunk_loop_cons.
  apply bind_ext; intros start_idx. apply bind_ext; intros end_idx.
  apply bind_ext; intros mask_row. apply bind_ext; intros mask_view.
  apply bind_ext; intros temp_states. apply bind_ext; intros x_chunk.
  rewrite Hr. apply bind_ext; intros [out st]. apply IH.
Qed.

(** Over the recurrence without dropout, [forward_with] is [forward]. *)
Lemma forward_with_gru rnn (tx th tm : tensor) :
  (forall i a b, rnn i a b = gru a b) ->
  forward_with rnn tx th tm = forward tx th tm.
Proof.
  intros Hr. unfold forward_with, forward.
  apply bind_ext; intros x1. apply bind_ext; intros t. cbv zeta.
  destruct (t =? 1).
  - unfold single_step_path_with, single_step_path.
    apply bind_ext; intros mv. apply bind_ext; intros ts.
    now rewrite Hr.
  - unfold multi_step_path_with, multi_step_path.
    apply bind_ext; intros n. apply bind_ext; intros b.
    apply bind_ext; intros mk. apply bind_ext; intros bs.
    now rewrite (@chunk_loop_with_gru rnn x1 mk bs _ Hr).
Qed.

Lemma forward_mode_inactive training (d : nat -> D) (tx th tm : tensor) :
  dropout_active training = false ->
  forward_mode training d tx th tm = forward tx th tm.
Proof.
  intros Hoff. unfold forward_mode. apply forward_with_gru.
  intros i a b. unfold gru_mode. now rewrite Hoff.
Qed.

(** C9 (no mutation, no retained state), with the dropout of [nn.GRU]
    in the picture.  In either mode and under any draws of the dropout
    masks, a call of [forward] on objects of a store only adds buffers to
    the store: every tensor that existed before the call, the three
    operands among them, reads after the call as it read before.  What
    the call returns is determined by the tensors the operands stand
    for, the module and the draws: a call under the same draws on any
    objects, of any store, that stand for the same tensors returns the
    same.  When dropout is inactive (the module is not in training mode,
    or its dropout is zero, as it is for a single layer), the draws play
    no part: the call returns [forward] of the tensors, and the same
    call made again after the first one, or a call on equal tensors
    elsewhere, returns the same under any draws. *)
Theorem forward_reads_only training (d : nat -> D) s x h m :
  valid_ref s x -> valid_ref s h -> valid_ref s m ->
  let s' := fst (forward_st_mode training d x h m s) in
  extends s s' /\
  (forall r, valid_ref s r -> load s' r = load s r) /\
  loaded (forward_st_mode training d x h m s)
  = forward_mode training d (load s x) (load s h) (load s m) /\
  (forall s2 x2 h2 m2,
     valid_ref s2 x2 -> valid_ref s2 h2 -> valid_ref s2 m2 ->
     load s2 x2 = load s x -> load s2 h2 = load s h ->
     load s2 m2 = load s m ->
     loaded (forward_st_mode training d x2 h2 m2 s2)
     = loaded (forward_st_mode training d x h m s)) /\
  (dropout_active training = false ->
   loaded (forward_st_mode training d x h m s)
   = forward (load s x) (load s h) (load s m) /\
   forall d' : nat -> D,
     loaded (forward_st_mode training d' x h m s')
     = loaded (forward_st_mode training d x h m s) /\
     forall s2 x2 h2 m2,
       valid_ref s2 x2 -> valid_ref s2 h2 -> valid_ref s2 m2 ->
       load s2 x2 = load s x -> load s2 h2 = load s h ->
       load s2 m2 = load s m ->
       loaded (forward_st_mode training d' x2 h2 m2 s2)
       = loaded (forward_st_mode training d x h m s)).
Proof.
  intros Vx Vh Vm. cbv zeta.
  assert (Hsim : forall (d0 : nat -> D) s0 x0 h0 m0,
    valid_ref s0 x0 -> valid_ref s0 h0 -> valid_ref s0 m0 ->
    sim (@holds2 R) s0 (forward_st_mode training d0 x0 h0 m0)
        (forward_mode training d0 (load s0 x0) (load s0 h0) (load s0 m0))).
  { intros d0 s0 x0 h0 m0 V1 V2 V3. unfold forward_st_mode, forward_mode.
    now apply sim_forward. }
  pose proof (proj1 (Hsim d s x h m Vx Vh Vm)) as He.
  split; [exact He|]. split.
  { intros r Vr. now apply load_extends. }
  split; [apply loaded_sim; now apply Hsim|]. split.
  - intros s2 x2 h2 m2 V2x V2h V2m Ex Eh Em.
    rewrite (loaded_sim (Hsim d s x h m Vx Vh Vm)),
      (loaded_sim (Hsim d s2 x2 h2 m2 V2x V2h V2m)).
    now rewrite Ex, Eh, Em.
  - intros Hoff. split.
    + rewrite (loaded_sim (Hsim d s x h m Vx Vh Vm)).
      now apply forward_mode_inactive.
    + intros d'. split.
      * rewrite (loaded_sim (Hsim d s x h m Vx Vh Vm)).
        rewrite (loaded_sim (Hsim d' _ x h m (valid_ref_extends Vx He)
                                 (valid_ref_extends Vh He)
                                 (valid_ref_extends Vm He))).
        rewrite (load_extends Vx He), (load_extends Vh He),
          (load_extends Vm He).
        now rewrite !forward_mode_inactive.
      * intros s2 x2 h2 m2 V2x V2h V2m Ex Eh Em.
        rewrite (loaded_sim (Hsim d s x h m Vx Vh Vm)),
          (loaded_sim (Hsim d' s2 x2 h2 m2 V2x V2h V2m)).
        rewrite Ex, Eh, Em. now rewrite !forward_mode_inactive.
Qed.

(** *** What [forward] returns lies in buffers of its own *)

Lemma bind_st_ok (A B : Type) (c : st R A) (k : A -> st R B) s s' (b : B) :
  bind_st c k s = (s', Ok b) ->
  exists s1 a, c s = (s1, Ok a) /\ k a s1 = (s', Ok b).
Proof.
  unfold bind_st. destruct (c s) as [s1 [a|e]]; intros H;
    [eauto | discriminate].
Qed.

Lemma lift_ok (A : Type) (c : result A) s s' (a : A) :
  lift c s = (s', Ok a) -> s' = s /\ c = Ok a.
Proof. unfold lift. intros H. inversion H. auto. Qed.

Lemma alloc_ok t s s' r :
  alloc t s = (s', Ok r) -> buf r = length s /\ length s' = S (length s).
Proof.
  unfold alloc. intros H. inversion H. cbn [buf].
  rewrite length_app. cbn [length]. lia.
Qed.

Lemma fresh_ok (c : store -> result tensor) s s' r :
  fresh c s = (s', Ok r) -> buf r = length s /\ length s' = S (length s).
Proof.
  unfold fresh. destruct (c s) as [t|e]; [apply alloc_ok | discriminate].
Qed.

Lemma mul_states_st_ok h m s s' r :
  mul_states_st h m s = (s', Ok r) ->
  buf r = length s /\ length s' = S (length s).
Proof. apply fresh_ok. Qed.

Lemma gru_layer_norm_st_ok x s s' r :
  gru_layer_norm_st x s = (s', Ok r) ->
  buf r = length s /\ length s' = S (length s).
Proof. apply fresh_ok. Qed.

Lemma cat0_st_ok (ts : list tref) s s' r :
  cat0_st ts s = (s', Ok r) ->
  buf r = length s /\ length s' = S (length s).
Proof. apply fresh_ok. Qed.

Lemma gru_st_ok x h s s' (o hT : tref) :
  gru_st x h s = (s', Ok (o, hT)) ->
  buf o = length s /\ buf hT = S (length s) /\ length s' = S (S (length s)).
Proof.
  unfold gru_st. destruct (gru (load s x) (load s h)) as [[out hT']|e];
    [|discriminate].
  intros H.
  apply bind_st_ok in H. destruct H as (s1 & o1 & H1 & H).
  apply bind_st_ok in H. destruct H as (s2 & h1 & H2 & H).
  apply lift_ok in H. destruct H as [-> H]. inversion H; subst.
  apply alloc_ok in H1. apply alloc_ok in H2. lia.
Qed.

(** The state the loop hands back is the one it was given when no chunk
    runs, and the state a recurrence returned, in a new buffer, as soon
    as one chunk runs. *)
Lemma chunk_loop_st_new x masks has_zeros idxs :
  forall (outs : list tref) h s s' (outs' : list tref) (h' : tref),
  chunk_loop_st x masks has_zeros idxs outs h s = (s', Ok (outs', h')) ->
  length s <= length s' /\
  (idxs = [] -> h' = h) /\
  (idxs <> [] -> length s <= buf h' /\ buf h' < length s').
Proof.
  induction idxs as [|i idxs IH]; intros outs h s s' outs' h' H.
  - cbn in H. apply lift_ok in H. destruct H as [-> H]. inversion H; subst.
    split; [lia|]. split; [reflexivity | congruence].
  - rewrite chunk_loop_st_cons in H.
    apply bind_st_ok in H. destruct H as (s1 & a & H1 & H).
    apply lift_ok in H1. destruct H1 as [-> _].
    apply bind_st_ok in H. destruct H as (s1 & e & H1 & H).
    apply lift_ok in H1. destruct H1 as [-> _].
    apply bind_st_ok in H. destruct H as (s1 & mr & H1 & H).
    apply lift_ok in H1. destruct H1 as [-> _].
    apply bind_st_ok in H. destruct H as (s1 & mv & H1 & H).
    apply lift_ok in H1. destruct H1 as [-> _].
    apply bind_st_ok in H. destruct H as (s1 & ts & H1 & H).
    apply mul_states_st_ok in H1. destruct H1 as [_ L1].
    apply bind_st_ok in H. destruct H as (s2 & xc & H2 & H).
    apply lift_ok in H2. destruct H2 as [-> _].
    apply bind_st_ok in H. destruct H as (s3 & [o hT] & H3 & H).
    apply gru_st_ok in H3. destruct H3 as (_ & L3 & L3').
    apply IH in H. destruct H as (Hle & Hnil & Hcons).
    split; [lia|]. split; [discriminate|]. intros _.
    destruct idxs as [|i' idxs].
    + rewrite (Hnil eq_refl). lia.
    + assert (Hne : i' :: idxs <> []) by discriminate.
      specialize (Hcons Hne). lia.
Qed.

Lemma boundaries_two (masks : tensor) seq_len bs :
  boundaries is_zero masks seq_len = Ok bs -> 2 <= length bs.
Proof.
  unfold boundaries.
  destruct (slice0 masks 1 (hd 0 (shape masks))) as [tl|e];
    [|discriminate].
  cbn [bind]. intros H. inversion H.
  cbn [app length]. rewrite length_app. cbn [length]. lia.
Qed.

Lemma forward_st_new s x h m s' (y h' : tref) :
  forward_st x h m s = (s', Ok (y, h')) ->
  length s <= buf h' /\ buf h' < buf y /\ buf y < length s'.
Proof.
  unfold forward_st. intros H.
  apply bind_st_ok in H. destruct H as (s1 & x1 & H1 & H).
  apply lift_ok in H1. destruct H1 as [-> _].
  apply bind_st_ok in H. destruct H as (s1 & t & H1 & H).
  apply lift_ok in H1. destruct H1 as [-> _].
  destruct (t =? 1).
  - unfold single_step_st in H.
    apply bind_st_ok in H. destruct H as (s1 & mv & H1 & H).
    apply lift_ok in H1. destruct H1 as [-> _].
    apply bind_st_ok in H. destruct H as (s1 & ts & H1 & H).
    apply mul_states_st_ok in H1. destruct H1 as [_ L1].
    apply bind_st_ok in H. destruct H as (s2 & [o hT] & H2 & H).
    apply gru_st_ok in H2. destruct H2 as (_ & L2 & L2').
    apply bind_st_ok in H. destruct H as (s3 & y1 & H3 & H).
    apply gru_layer_norm_st_ok in H3. destruct H3 as [L3 L3'].
    apply lift_ok in H. destruct H as [-> H]. inversion H; subst. lia.
  - unfold multi_step_st in H.
    apply bind_st_ok in H. destruct H as (s1 & n & H1 & H).
    apply lift_ok in H1. destruct H1 as [-> _].
    apply bind_st_ok in H. destruct H as (s1 & b & H1 & H).
    apply lift_ok in H1. destruct H1 as [-> _].
    apply bind_st_ok in H. destruct H as (s1 & mk & H1 & H).
    apply lift_ok in H1. destruct H1 as [-> _].
    apply bind_st_ok in H. destruct H as (s1 & bs & H1 & H).
    unfold boundaries_st in H1. inversion H1 as [[Es Hb]]. subst s1.
    apply boundaries_two in Hb.
    apply bind_st_ok in H. destruct H as (s2 & [outs hT] & H2 & H).
    apply chunk_loop_st_new in H2. destruct H2 as (L2 & _ & Hnew).
    assert (Hne : seq 0 (length bs - 1) <> []).
    { destruct (length bs - 1) as [|k] eqn:E; [lia | discriminate]. }
    specialize (Hnew Hne).
    apply bind_st_ok in H. destruct H as (s3 & c & H3 & H).
    apply cat0_st_ok in H3. destruct H3 as [_ L3].
    apply bind_st_ok in H. destruct H as (s4 & y1 & H4 & H).
    apply gru_layer_norm_st_ok in H4. destruct H4 as [L4 L4'].
    apply lift_ok in H. destruct H as [-> H]. inversion H; subst. lia.
Qed.

(** The two tensors a successful call returns are objects of the store it
    leaves, in two different buffers, and neither is in a buffer that
    existed before the call: the output and the new state share no
    storage with each other, with the operands or with any other tensor
    the caller held. *)
Theorem forward_returns_new_tensors s x h m s' (y h' : tref) :
  forward_st x h m s = (s', Ok (y, h')) ->
  valid_ref s' y /\ valid_ref s' h' /\ buf y <> buf h' /\
  forall r, valid_ref s r -> buf r <> buf y /\ buf r <> buf h'.
Proof.
  intros H. apply forward_st_new in H. unfold valid_ref.
  repeat split; try lia; intros; unfold valid_ref in *; lia.
Qed.

End StoreProofs.

(** ** The claims at the operands of the instance *)

Import ZInst.

Lemma zcell_shape (w : Z) (xv : list Z) (s : list (list Z)) :
  map (@length Z) (zcell w xv s) = map (@length Z) s.
Proof.
  unfold zcell. generalize (w + zsum xv)%Z.
  induction s as [|v s IH]; intros inp; simpl; [reflexivity|].
  rewrite length_map. f_equal. apply IH.
Qed.

Lemma zln_length (p : Z) (v : list Z) : length (zln p v) = length v.
Proof. apply length_map. Qed.

Lemma zg_valid : valid_config zg.
Proof. unfold valid_config. cbn. lia. Qed.

Lemma zcall_valid : valid_call zg 3 2 zx zh zmasks.
Proof. repeat split. Qed.

Lemma zcall_valid' : valid_call zg 3 2 zx zh' zmasks.
Proof. repeat split. Qed.

Lemma zmasks_binary : binary 0%Z 1%Z zmasks.
Proof.
  unfold binary. cbn.
  repeat (apply Forall_cons; [auto|]). apply Forall_nil.
Qed.


Lemma chunk_boundaries_witness :
  boundaries zis_zero zmasks 3 = Ok [0; 2; 3].
Proof.
  apply (@chunk_boundaries Z zis_zero 3 2 zmasks eq_refl). lia.
Defined.

Lemma chunks_masked_at_start_witness :
  multi_step_path 0%Z Z.mul zis_zero zcell zln zg zx zh zmasks
  = (bs <- boundaries zis_zero zmasks 3 ;;
     r <- run_chunks 0%Z Z.mul zcell zg zx zmasks (pairs bs) zh ;;
     y <- cat0 (fst r) ;;
     y <- gru_layer_norm zln zg y ;;
     Ok (y, snd r)) /\
  exists bs outs,
    boundaries zis_zero zmasks 3 = Ok bs /\
    let rp := run_elementwise 0%Z Z.mul zcell zg 2
                (chunks (2 * 2) 3 (data zx)) (chunks 2 3 (data zmasks))
                (pairs bs) (data zh) in
    run_chunks 0%Z Z.mul zcell zg zx zmasks (pairs bs) zh
    = Ok (outs, mkTensor (shape zh) (snd rp)) /\
    concat (map (@data Z) outs) = concat (fst rp) /\
    multi_step_path 0%Z Z.mul zis_zero zcell zln zg zx zh zmasks
    = Ok (mkTensor [3; 2; 3] (normalize zln zg (3 * 2) (concat (fst rp))),
          mkTensor (shape zh) (snd rp)).
Proof.
  apply (@chunks_masked_at_start Z 0%Z Z.mul zis_zero Z Z zcell zln zg
           zcell_shape 3 2 zx zh zmasks).
  - cbn. lia.
  - exact zcall_valid.
  - lia.
Defined.

Lemma zresets_all (l : list (list Z)) :
  Forall (Forall (resets 0%Z Z.mul)) l.
Proof.
  apply Forall_forall. intros v _. apply Forall_forall. intros e _.
  apply Z.mul_0_r.
Qed.

Lemma mask_zero_reset_witness :
  exists y st y' st' : tensor Z,
    zforward zx zh zmasks = Ok (y, st) /\
    zforward zx zh' zmasks = Ok (y', st') /\
    feature 3 y 5
    = zln 10 (nth 1 (zcell 1 (feature 2 zx 5) (zero_state 0%Z zg)) []) /\
    feature 3 y' 5 = feature 3 y 5.
Proof.
  eapply (@mask_zero_reset Z 0%Z 1%Z Z.mul zis_zero Z Z zcell zln zg
            zcell_shape 3 2 zx zh zh' zmasks 2 1 _ _ eq_refl zln_length
            zg_valid zcall_valid zcall_valid').
  - lia.
  - lia.
  - reflexivity.
  - reflexivity.
  - apply zresets_all.
  - reflexivity.
  - apply zresets_all.
Defined.

Lemma contract_violation_fails_witness :
  exists e : error,
    check_shapes zg zx1 zh_wide = Err e /\
    (forall masks : tensor Z, zforward zx1 zh_wide masks = Err e) /\
    (3 <= dim zh_wide ->
     exists (dn : dim_name) (expected got : nat),
       first_violation zg zx1 zh_wide = Some (dn, expected, got) /\
       e = AssertionError dn expected got /\ expected <> got).
Proof.
  apply (@contract_violation_fails Z 0%Z Z.mul zis_zero Z Z zcell zln zg
           zx1 zh_wide).
  - cbn. lia.
  - reflexivity.
Defined.

Lemma output_shapes_witness :
  exists y st : tensor Z,
    zforward zx zh zmasks = Ok (y, st) /\
    shape y = [3; 2; 3] /\ shape st = shape zh /\ wf y /\ wf st.
Proof.
  apply (@output_shapes Z 0%Z Z.mul zis_zero Z Z zcell zln zg zcell_shape
           3 2 zx zh zmasks zln_length zg_valid zcall_valid).
  lia.
Defined.

Lemma single_step_promotion_witness :
  zforward zx1_vec zh zmasks1_vec = zforward zx1 zh zmasks1.
Proof.
  apply (@single_step_promotion Z 0%Z Z.mul zis_zero Z Z zcell zln zg
           2 2 [1; 2; 3; 4]%Z [1; 0]%Z zh).
  cbn. lia.
Defined.

Lemma forward_reads_only_witness :
  let s' := fst (zforward_st_mode false (fun _ => 1%Z) zx_ref zh_ref
                                  zmasks_ref zstore) in
  extends zstore s' /\
  (forall r : tref, valid_ref zstore r -> load s' r = load zstore r) /\
  loaded (zforward_st_mode false (fun _ => 1%Z) zx_ref zh_ref zmasks_ref
                           zstore)
  = zforward_mode false (fun _ => 1%Z) (load zstore zx_ref)
                  (load zstore zh_ref) (load zstore zmasks_ref) /\
  (forall (s2 : store Z) (x2 h2 m2 : tref),
     valid_ref s2 x2 -> valid_ref s2 h2 -> valid_ref s2 m2 ->
     load s2 x2 = load zstore zx_ref -> load s2 h2 = load zstore zh_ref ->
     load s2 m2 = load zstore zmasks_ref ->
     loaded (zforward_st_mode false (fun _ => 1%Z) x2 h2 m2 s2)
     = loaded (zforward_st_mode false (fun _ => 1%Z) zx_ref zh_ref
                                zmasks_ref zstore)) /\
  (dropout_active zis_zero zg_drop false = false ->
   loaded (zforward_st_mode false (fun _ => 1%Z) zx_ref zh_ref zmasks_ref
                            zstore)
   = forward 0%Z Z.mul zis_zero zcell zln zg_drop (load zstore zx_ref)
             (load zstore zh_ref) (load zstore zmasks_ref) /\
   forall d' : nat -> Z,
     loaded (zforward_st_mode false d' zx_ref zh_ref zmasks_ref s')
     = loaded (zforward_st_mode false (fun _ => 1%Z) zx_ref zh_ref
                                zmasks_ref zstore) /\
     forall (s2 : store Z) (x2 h2 m2 : tref),
       valid_ref s2 x2 -> valid_ref s2 h2 -> valid_ref s2 m2 ->
       load s2 x2 = load zstore zx_ref -> load s2 h2 = load zstore zh_ref ->
       load s2 m2 = load zstore zmasks_ref ->
       loaded (zforward_st_mode false d' x2 h2 m2 s2)
       = loaded (zforward_st_mode false (fun _ => 1%Z) zx_ref zh_ref
                                  zmasks_ref zstore)).
Proof.
  apply (@forward_reads_only Z 0%Z Z.mul zis_zero Z Z zcell zln zg_drop
           Z zgru_drop false (fun _ => 1%Z) zstore zx_ref zh_ref
           zmasks_ref).
  - unfold valid_ref. cbn. lia.
  - unfold valid_ref. cbn. lia.
  - unfold valid_ref. cbn. lia.
Defined.

Lemma zcall2_valid : valid_call zg 2 1 zx2 zh2 zmasks2.
Proof. repeat split. Qed.

Lemma mask_scales_state_witness :
  zforward zx2 zh2 zmasks2
  = (let r := run_masked Z.mul zcell zg (existsb zis_zero) 1
                (chunks 2 2 (data zx2)) (chunks 1 2 (data zmasks2))
                (data zh2) in
     Ok (mkTensor [2; 1; 3] (normalize zln zg 2 (concat (fst r))),
         mkTensor (shape zh2) (snd r))).
Proof.
  apply (@mask_scales_state Z 0%Z Z.mul zis_zero Z Z zcell zln zg
           2 1 zx2 zh2 zmasks2 0 zg_valid zcall2_valid).
  - lia.
  - lia.
Defined.

(** C5, as stated, fails: the mask has a batch size of one, [x] and the
    state have a batch size of two, and the call returns an output, the
    one mask entry applied to both columns. *)
Lemma mask_batch_mismatch_accepted :
  size zx1_vec 0 = Ok 2 /\ size zh 1 = Ok 2 /\
  size zmask_one_entry 0 = Ok 1 /\
  zforward zx1_vec zh zmask_one_entry
  = Ok (mkTensor [2; 3] [22; 22; 22; 34; 34; 34]%Z,
        mkTensor [2; 2; 3] [4; 4; 4; 8; 8; 8; 12; 12; 12; 24; 24; 24]%Z).
Proof. repeat split. Qed.

(** C6, as stated, fails for a sequence of one step: the input has the
    shape [(1, 2, 2)] and the output the shape [(2, 3)], without the
    time axis, where the claim has [(1, 2, 3)]. *)
Lemma single_step_output_drops_time_axis :
  shape zx1 = [1; 2; 2] /\
  exists y st : tensor Z,
    zforward zx1 zh zmasks1 = Ok (y, st) /\
    shape y = [2; 3] /\ shape y <> [1; 2; 3].
Proof.
  split; [reflexivity|]. eexists _, _. split; [reflexivity|].
  split; [reflexivity | discriminate].
Qed.

(** C10, as stated, fails in the multi-step path: the mask entry 2 of the
    second row, a row without a zero, is not applied at all.  The call
    returns what it returns for the mask of ones, and not what results
    when the state is multiplied by the entry before that step. *)
Lemma interior_mask_entry_not_applied :
  zforward zx2 zh2 zmasks2 = zforward zx2 zh2 zmasks2_ones /\
  zforward zx2 zh2 zmasks2 <> zstepwise zx2 zh2 zmasks2.
Proof. split; [reflexivity | vm_compute; discriminate]. Qed.

(** ** Further properties at the operands of the instance *)

Lemma zcall_free_valid : valid_call zg 3 2 zx zh zmasks_free.
Proof. repeat split. Qed.

Lemma zcall_other_valid : valid_call zg 3 2 zx_other zh_other zmasks_other.
Proof. repeat split. Qed.

Lemma zmasks_other_binary : binary 0%Z 1%Z zmasks_other.
Proof.
  unfold binary. cbn.
  repeat (apply Forall_cons; [auto|]). apply Forall_nil.
Qed.

Lemma mask_read_by_contents_witness :
  zforward zx zh zmasks = zforward zx zh zmasks_col.
Proof.
  apply (@mask_read_by_contents Z 0%Z Z.mul zis_zero Z Z zcell zln zg
           zx zh zmasks zmasks_col); reflexivity.
Defined.

Lemma single_step_mask_broadcast_witness :
  zforward zx1 zh zmask_one_entry
  = zforward zx1 zh (mkTensor [2] [0; 0]%Z).
Proof.
  apply (@single_step_mask_broadcast Z 0%Z Z.mul zis_zero Z Z zcell zln zg
           2 (data zx1) (data zh) [1] 0%Z).
  - cbn. lia.
  - reflexivity.
  - reflexivity.
Defined.

Lemma single_step_mask_mismatch_witness :
  zforward zx1 zh zmasks_three = Err RuntimeError.
Proof.
  apply (@single_step_mask_mismatch Z 0%Z Z.mul zis_zero Z Z zcell zln zg
           2 (data zx1) (data zh) zmasks_three).
  - cbn. lia.
  - cbn. lia.
Defined.

Lemma multi_step_mask_mismatch_witness :
  zforward zx zh zmasks1 = Err RuntimeError.
Proof.
  apply (@multi_step_mask_mismatch Z 0%Z Z.mul zis_zero Z Z zcell zln zg
           3 2 (data zx) (data zh) zmasks1).
  - lia.
  - cbn. lia.
Defined.

Lemma empty_sequence_fails_witness :
  boundaries zis_zero (mkTensor [0; 2] (data zmasks_empty)) 0 = Ok [0; 0] /\
  zforward zx_empty zh zmasks_empty = Err IndexError.
Proof.
  apply (@empty_sequence_fails Z 0%Z Z.mul zis_zero Z Z zcell zln zg
           2 [] (data zh) zmasks_empty).
  reflexivity.
Defined.

Lemma state_rank_too_low_witness :
  zforward zx zh_flat zmasks = Err IndexError.
Proof.
  apply (@state_rank_too_low Z 0%Z Z.mul zis_zero Z Z zcell zln zg
           3 2 (data zx) zh_flat zmasks).
  - cbn. lia.
  - reflexivity.
Defined.

Lemma state_rank_too_high_witness :
  zforward zx zh_deep zmasks = Err RuntimeError.
Proof.
  apply (@state_rank_too_high Z 0%Z Z.mul zis_zero Z Z zcell zln zg
           3 2 (data zx) (data zh) 1 [] zmasks).
  lia.
Defined.

Lemma no_reset_single_recurrence_witness :
  zforward zx2 zh2 zmasks2
  = (let r := gru_seq zcell zg 1 (chunks 2 2 (data zx2))
                (scale_columns Z.mul 2 1 3 (data zh2) [1%Z]) in
     Ok (mkTensor [2; 1; 3] (normalize zln zg 2 (concat (fst r))),
         mkTensor [2; 1; 3] (snd r))).
Proof.
  apply (@no_reset_single_recurrence Z 0%Z Z.mul zis_zero Z Z zcell zln zg
           2 1 (data zx2) (data zh2) (data zmasks2)).
  - cbn. lia.
  - lia.
  - reflexivity.
  - intros i Hi. assert (E : i = 1) by lia. subst i. reflexivity.
Defined.

Lemma recurrence_calls_witness :
  exists bs,
    boundaries zis_zero zmasks 3 = Ok bs /\
    length (pairs bs)
    = 1 + length (filter (fun i => existsb zis_zero
                                     (nth i (chunks 2 3 (data zmasks)) []))
                         (seq 1 (3 - 1))) /\
    length (pairs bs) <= 3.
Proof.
  apply (@recurrence_calls Z zis_zero 3 2 zmasks eq_refl). lia.
Defined.



Lemma fresh_state_ignores_first_mask_row_witness :
  zforward zx (init_hidden 0%Z zg 2) zmasks
  = zforward zx (init_hidden 0%Z zg 2) zmasks_start0.
Proof.
  apply (@fresh_state_ignores_first_mask_row Z 0%Z Z.mul zis_zero Z Z zcell
           zln zg 3 2 (data zx) (data zmasks) (data zmasks_start0)
           Z.mul_0_l).
  - cbn. lia.
  - lia.
  - reflexivity.
  - reflexivity.
  - reflexivity.
Defined.


Lemma init_hidden_then_forward_witness :
  (3 = 2 ->
   exists y st : tensor Z,
     zforward zx (init_hidden 0%Z zg 3) zmasks = Ok (y, st) /\
     shape st = shape (init_hidden 0%Z zg 3)) /\
  (3 <> 2 ->
   zforward zx (init_hidden 0%Z zg 3) zmasks
   = Err (AssertionError BatchSize 2 3)).
Proof.
  apply (@init_hidden_then_forward Z 0%Z Z.mul zis_zero Z Z zcell zln zg
           3 2 3 (data zx) (data zmasks)).
  - cbn. lia.
  - lia.
  - reflexivity.
Defined.

Lemma forward_returns_new_tensors_witness :
  exists (s' : store Z) (y h' : tref),
    zforward_st zx_ref zh_ref zmasks_ref zstore = (s', Ok (y, h')) /\
    valid_ref s' y /\ valid_ref s' h' /\ buf y <> buf h' /\
    forall r, valid_ref zstore r -> buf r <> buf y /\ buf r <> buf h'.
Proof.
  eexists _, _, _. split.
  - vm_compute. reflexivity.
  - apply (@forward_returns_new_tensors Z 0%Z Z.mul zis_zero Z Z zcell zln
             zg zstore zx_ref zh_ref zmasks_ref).
    vm_compute. reflexivity.
Defined.

(** C4, as stated, fails for a state that is not finite: the mask entry
    of the second column is zero, the two states differ in that column
    only, and the outputs for that column differ.  The infinity times the
    mask entry is a NaN, which the recurrence and the normalization hand
    on, where the finite state is reset to zero. *)
Lemma infinite_state_not_reset :
  valid_call FInst.fg 1 2 FInst.fx1 FInst.fh FInst.fmasks1 /\
  valid_call FInst.fg 1 2 FInst.fx1 FInst.fh_inf FInst.fmasks1 /\
  nth (0 * 2 + 1) (data FInst.fmasks1) (FInst.Fin 1) = FInst.Fin 0 /\
  exists y st y' st' : tensor FInst.fnum,
    FInst.fforward FInst.fx1 FInst.fh FInst.fmasks1 = Ok (y, st) /\
    FInst.fforward FInst.fx1 FInst.fh_inf FInst.fmasks1 = Ok (y', st') /\
    feature 3 y (0 * 2 + 1)
    = [FInst.Fin 34; FInst.Fin 34; FInst.Fin 34] /\
    feature 3 y' (0 * 2 + 1) = [FInst.NaN; FInst.NaN; FInst.NaN] /\
    feature 3 y' (0 * 2 + 1) <> feature 3 y (0 * 2 + 1).
Proof.
  split; [repeat split|]. split; [repeat split|]. split; [reflexivity|].
  eexists _, _, _, _. split; [reflexivity|]. split; [reflexivity|].
  split; [reflexivity|]. split; [reflexivity | discriminate].
Qed.

(** C9, as stated, fails for the module in training mode with a dropout
    other than zero between its two layers: two calls on the same
    operands, with the same weights, return different results when the
    dropout masks drawn in them differ (all kept in one call, all dropped
    in the other). *)
Lemma training_dropout_calls_differ :
  dropout_active zis_zero zg_drop true = true /\
  exists y1 st1 y2 st2 : tensor Z,
    zforward_mode true (fun _ => 1%Z) zx zh zmasks = Ok (y1, st1) /\
    zforward_mode true (fun _ => 0%Z) zx zh zmasks = Ok (y2, st2) /\
    loaded (zforward_st_mode true (fun _ => 1%Z) zx_ref zh_ref zmasks_ref
                             zstore) = Ok (y1, st1) /\
    loaded (zforward_st_mode true (fun _ => 0%Z) zx_ref zh_ref zmasks_ref
                             zstore) = Ok (y2, st2) /\
    y1 <> y2 /\ st1 <> st2.
Proof.
  split; [reflexivity|]. eexists _, _, _, _.
  split; [vm_compute; reflexivity|]. split; [vm_compute; reflexivity|].
  split; [vm_compute; reflexivity|]. split; [vm_compute; reflexivity|].
  split; discriminate.
Qed.
